(** * Indoor navigation: room resolution, node snapping, staircase linking
      and exit routing of [app.py], embedded and verified.

    Conventions of the embedding.

    - Python [str] values are [string]s whose characters are read as the
      code points U+0000..U+00FF; [str.strip], [str.lower] and
      [str.isalnum] are given on that range as CPython defines them.
    - A Python [float] is a [Double.double]: a finite value (an exact
      rational, canonical, so that [=] is value equality as for node keys),
      one of the two infinities, or NaN.  [<] and [<=] are the comparisons
      of doubles: false as soon as one side is NaN, and [inf < inf] is
      false, so a running minimum that starts at [float("inf")] never takes
      a distance that is infinite or NaN.  Coordinates are finite doubles.
    - [Point.distance] (shapely), the builtins [str] and [sum],
      [difflib.get_close_matches] and [networkx.astar_path] are library
      code: the development is parametric in them (Section variables), and
      uses a library contract only where a statement says so.  For the
      concrete buildings of [Sample], [Double] gives the arithmetic of
      binary64 (round to nearest, ties to even), [Double.euclid] the
      distance [sqrt(dx*dx + dy*dy)], and [Networkx.astar_path] the search
      as networkx runs it on doubles.
    - A request body is a [json] value, as [request.get_json()] returns it.
    - A Python exception is a value of [exn]; [None] is [None]. *)

From Stdlib Require Import Bool Arith ZArith List Ascii String QArith Qcanon Lia.
From Stdlib Require Qcabs.
From Stdlib Require Import Sorting.Sorted Sorting.Permutation.
Import ListNotations.

Set Implicit Arguments.

(** ** Text: the [str] methods used by the program *)

Module Text.

Definition in_range (lo hi n : nat) : bool := (lo <=? n) && (n <=? hi).

(** [ch.isspace()], which is also the set [str.strip()] removes. *)
Definition isspace (c : ascii) : bool :=
  let n := nat_of_ascii c in
  in_range 9 13 n || in_range 28 32 n || (n =? 133) || (n =? 160).

(** [ch.isalnum()]. *)
Definition isalnum (c : ascii) : bool :=
  let n := nat_of_ascii c in
  in_range 48 57 n || in_range 65 90 n || in_range 97 122 n
  || (n =? 170) || in_range 178 179 n || (n =? 181) || in_range 185 186 n
  || in_range 188 190 n || in_range 192 214 n || in_range 216 246 n
  || in_range 248 255 n.

Definition lower_char (c : ascii) : ascii :=
  let n := nat_of_ascii c in
  if in_range 65 90 n || in_range 192 214 n || in_range 216 222 n
  then ascii_of_nat (n + 32) else c.

(** [s.lower()] *)
Fixpoint lower (s : string) : string :=
  match s with
  | EmptyString => EmptyString
  | String c s' => String (lower_char c) (lower s')
  end.

Fixpoint lstrip (s : string) : string :=
  match s with
  | EmptyString => EmptyString
  | String c s' => if isspace c then lstrip s' else s
  end.

Fixpoint rev_append (s acc : string) : string :=
  match s with
  | EmptyString => acc
  | String c s' => rev_append s' (String c acc)
  end.

Definition reverse (s : string) : string := rev_append s EmptyString.

Definition rstrip (s : string) : string := reverse (lstrip (reverse s)).

(** [s.strip()] *)
Definition strip (s : string) : string := rstrip (lstrip s).

(** ["".join(ch for ch in s if ch.isalnum())] *)
Fixpoint keep_alnum (s : string) : string :=
  match s with
  | EmptyString => EmptyString
  | String c s' =>
      if isalnum c then String c (keep_alnum s') else keep_alnum s'
  end.

(** [needle in hay] *)
Fixpoint contains (needle hay : string) : bool :=
  prefix needle hay ||
  match hay with
  | EmptyString => false
  | String _ hay' => contains needle hay'
  end.

Fixpoint take (n : nat) (s : string) : string :=
  match n, s with
  | S n', String c s' => String c (take n' s')
  | _, _ => EmptyString
  end.

Fixpoint drop (n : nat) (s : string) : string :=
  match n, s with
  | S n', String _ s' => drop n' s'
  | _, _ => s
  end.

(** [s[:2]] *)
Definition first_two (s : string) : string := take 2 s.

(** [s[-2:]] *)
Definition last_two (s : string) : string := drop (String.length s - 2) s.

(** Truthiness of a string: [if s:] *)
Definition nonempty (s : string) : bool := negb (s =? "")%string.

(** [series.astype(str).str.contains(pat, case=False, na=False)] for a
    pattern of plain lower-case letters, cell by cell. *)
Definition contains_nocase (pat cell : string) : bool :=
  contains pat (lower cell).

End Text.

(** ** Numbers: doubles *)

(** [d < m] on exact values. *)
Definition Qcltb (d m : Qc) : bool :=
  match (d ?= m)%Qc with Lt => true | _ => false end.

Module Double.

Inductive double : Type :=
| Finite (q : Qc)
| PosInf
| NegInf
| NaN.

(** [x < y] *)
Definition ltb (x y : double) : bool :=
  match x, y with
  | Finite a, Finite b => Qcltb a b
  | Finite _, PosInf => true
  | NegInf, Finite _ => true
  | NegInf, PosInf => true
  | _, _ => false
  end.

(** [x == y] *)
Definition eqb (x y : double) : bool :=
  match x, y with
  | Finite a, Finite b => if Qc_eq_dec a b then true else false
  | PosInf, PosInf => true
  | NegInf, NegInf => true
  | _, _ => false
  end.

(** [x <= y] *)
Definition leb (x y : double) : bool := ltb x y || eqb x y.

(** [-x] *)
Definition opp (x : double) : double :=
  match x with
  | Finite a => Finite (- a)
  | PosInf => NegInf
  | NegInf => PosInf
  | NaN => NaN
  end.

(** The sum of two values without rounding: the total weight of a walk is
    measured with it. *)
Definition exact_add (x y : double) : double :=
  match x, y with
  | Finite a, Finite b => Finite (a + b)
  | NaN, _ | _, NaN => NaN
  | PosInf, NegInf | NegInf, PosInf => NaN
  | PosInf, _ | _, PosInf => PosInf
  | NegInf, _ | _, NegInf => NegInf
  end.

(** *** Rounding to binary64 *)

(** [floor (log2 (n / d))] *)
Definition ilog2 (n d : positive) : Z :=
  let e0 := (Z.log2 (Zpos n) - Z.log2 (Zpos d))%Z in
  let below :=
    if (0 <=? e0)%Z then (Zpos n <? Zpos d * 2 ^ e0)%Z
    else (Zpos n * 2 ^ (- e0) <? Zpos d)%Z in
  if below then (e0 - 1)%Z else e0.

(** [n / d / 2^e] as a fraction of integers *)
Definition scaled (n d : positive) (e : Z) : Z * Z :=
  if (0 <=? e)%Z then (Zpos n, Zpos d * 2 ^ e)%Z
  else (Zpos n * 2 ^ (- e), Zpos d)%Z.

(** [m * 2^e] *)
Definition ldexp (m e : Z) : Qc :=
  if (0 <=? e)%Z then Q2Qc (inject_Z (m * 2 ^ e))
  else Q2Qc (Qmake m (Z.to_pos (2 ^ (- e)))).

(** The double of significand [m] and exponent [e]; infinite from
    [2^1024] on. *)
Definition pack (m e : Z) : double :=
  if ((0 <=? e) && (2 ^ 1024 <=? m * 2 ^ e))%Z then PosInf
  else Finite (ldexp m e).

(** Exponent of the last place of the doubles in [[2^l, 2^(l+1))]: 53
    significant bits, and never below the subnormal step [2^-1074]. *)
Definition ulp_exp (l : Z) : Z := Z.max (l - 52) (-1074).

(** The double nearest to [n / d], ties to the even significand. *)
Definition round_pos (n d : positive) : double :=
  let e := ulp_exp (ilog2 n d) in
  let (num, den) := scaled n d e in
  let fl := (num / den)%Z in
  let m :=
    match (2 * (num mod den) ?= den)%Z with
    | Lt => fl
    | Gt => (fl + 1)%Z
    | Eq => if Z.even fl then fl else (fl + 1)%Z
    end in
  pack m e.

Definition round (q : Q) : double :=
  match Qnum q with
  | Z0 => Finite 0
  | Zpos n => round_pos n (Qden q)
  | Zneg n => opp (round_pos n (Qden q))
  end.

(** [x + y] *)
Definition add (x y : double) : double :=
  match x, y with
  | Finite a, Finite b => round (a + b)%Q
  | NaN, _ | _, NaN => NaN
  | PosInf, NegInf | NegInf, PosInf => NaN
  | PosInf, _ | _, PosInf => PosInf
  | NegInf, _ | _, NegInf => NegInf
  end.

(** [x - y] *)
Definition sub (x y : double) : double := add x (opp y).

Definition sign_neg (x : double) : bool :=
  match x with
  | Finite a => Qcltb a 0
  | NegInf => true
  | _ => false
  end.

Definition is_zero (x : double) : bool :=
  match x with
  | Finite a => if Qc_eq_dec a 0 then true else false
  | _ => false
  end.

(** [x * y] *)
Definition mul (x y : double) : double :=
  match x, y with
  | Finite a, Finite b => round (a * b)%Q
  | NaN, _ | _, NaN => NaN
  | _, _ =>
      if is_zero x || is_zero y then NaN
      else if xorb (sign_neg x) (sign_neg y) then NegInf else PosInf
  end.

(** [sqrt(n / d)], correctly rounded *)
Definition sqrt_pos (n d : positive) : double :=
  let e := ulp_exp (ilog2 n d / 2) in
  let (num, den) := scaled n d (2 * e) in
  let fl := Z.sqrt (num / den) in
  let m :=
    match (4 * num ?= (2 * fl + 1) ^ 2 * den)%Z with
    | Lt => fl
    | Gt => (fl + 1)%Z
    | Eq => if Z.even fl then fl else (fl + 1)%Z
    end in
  pack m e.

(** [sqrt(x)] *)
Definition sqrt (x : double) : double :=
  match x with
  | Finite a =>
      match Qnum a with
      | Z0 => Finite 0
      | Zpos n => sqrt_pos n (Qden a)
      | Zneg _ => NaN
      end
  | PosInf => PosInf
  | _ => NaN
  end.

(** The distance of two points as GEOS computes it on doubles:
    [sqrt(dx*dx + dy*dy)].  It is infinite as soon as a square
    overflows. *)
Definition euclid (p q : Qc * Qc) : double :=
  let dx := sub (Finite (fst p)) (Finite (fst q)) in
  let dy := sub (Finite (snd p)) (Finite (snd q)) in
  sqrt (add (mul dx dx) (mul dy dy)).

(** [sum(xs)], added from the left starting from the integer 0, every
    partial sum rounded. *)
Definition sum (xs : list double) : double :=
  fold_left add xs (Finite 0).

End Double.

Abbreviation double := Double.double.
Abbreviation Finite := Double.Finite.
Abbreviation PosInf := Double.PosInf.
Abbreviation NegInf := Double.NegInf.
Abbreviation NaN := Double.NaN.

(** ** Geometry and frames *)

Definition coord : Type := (Qc * Qc)%type.

Definition coord_eq_dec (a b : coord) : {a = b} + {a <> b}.
Proof. decide equality; apply Qc_eq_dec. Defined.

(** What the program reads of a shapely geometry: the coordinate lists of
    the lines of [geom.boundary] and [geom.centroid]. *)
Record Geometry : Type := mkGeometry {
  boundary : list (list coord);
  centroid : coord
}.

(** A row of a floor's GeoDataFrame.  [geometry = None] stands for a
    geometry that is [None] or empty. *)
Record Row : Type := mkRow {
  row_type : string;       (* str(row["Type"]) *)
  row_name : string;       (* str(row.get("Room no.", "")) *)
  geometry : option Geometry
}.

(** A floor's GeoDataFrame as the loader leaves it: [gpd.GeoDataFrame()],
    without columns or rows, when the file is missing or unreadable;
    otherwise a frame that has the geometry, type and name columns. *)
Inductive GeoDataFrame : Type :=
| NoData
| Loaded (rs : list Row).

Definition rows (gdf : GeoDataFrame) : list Row :=
  match gdf with NoData => [] | Loaded rs => rs end.

(** [ROOM_TYPE in gdf.columns] *)
Definition has_type_column (gdf : GeoDataFrame) : bool :=
  match gdf with NoData => false | Loaded _ => true end.

(** [gdf.empty] *)
Definition gdf_empty (gdf : GeoDataFrame) : bool :=
  match rows gdf with [] => true | _ => false end.

Inductive exn : Type :=
| KeyError | NodeNotFound | NetworkXNoPath | TypeError | AttributeError.

(** ** Request values *)

(** A value as [request.get_json()] returns it: [None], a [bool], an
    [int], a [float], a [str], a [list] or a [dict] (keys in insertion
    order, each once). *)
#[warnings="-register-all"] Inductive json : Type :=
| JNull
| JBool (b : bool)
| JInt (z : Z)
| JFloat (d : double)
| JString (s : string)
| JArray (items : list json)
| JObject (fields : list (string * json)).

(** Truthiness: [if v:] *)
Definition truthy (v : json) : bool :=
  match v with
  | JNull => false
  | JBool b => b
  | JInt z => negb (z =? 0)%Z
  | JFloat d => negb (Double.is_zero d)
  | JString s => Text.nonempty s
  | JArray items => match items with [] => false | _ => true end
  | JObject fields => match fields with [] => false | _ => true end
  end.

(** [isinstance(v, str)] *)
Definition is_str (v : json) : bool :=
  match v with JString _ => true | _ => false end.

(** ** [networkx.Graph]: an insertion-ordered dict of insertion-ordered
       adjacency dicts, every edge carrying a weight *)

Section Graphs.

Variable V : Type.
Variable V_eq_dec : forall a b : V, {a = b} + {a <> b}.

Definition veqb (a b : V) : bool := if V_eq_dec a b then true else false.

Definition Graph : Type := list (V * list (V * double)).

(** [nx.Graph()] *)
Definition empty_graph : Graph := [].

(** [G.nodes], in iteration order *)
Definition nodes (G : Graph) : list V := map fst G.

Fixpoint dict_get (A : Type) (k : V) (d : list (V * A)) : option A :=
  match d with
  | [] => None
  | (k', a) :: d' => if V_eq_dec k' k then Some a else dict_get k d'
  end.

(** [d[k] = a]: in place when the key exists, appended otherwise *)
Fixpoint dict_set (A : Type) (k : V) (a : A) (d : list (V * A)) : list (V * A) :=
  match d with
  | [] => [(k, a)]
  | (k', a') :: d' =>
      if V_eq_dec k' k then (k', a) :: d' else (k', a') :: dict_set k a d'
  end.

Definition has_node (G : Graph) (v : V) : bool :=
  match dict_get v G with Some _ => true | None => false end.

(** [G.add_node(v)] *)
Definition add_node (v : V) (G : Graph) : Graph :=
  if has_node G v then G else G ++ [(v, [])].

(** [G._adj[u][v] = {"weight": w}] *)
Definition set_adj (u v : V) (w : double) (G : Graph) : Graph :=
  match dict_get u G with
  | Some nbrs => dict_set u (dict_set v w nbrs) G
  | None => G
  end.

(** [G.add_edge(u, v, weight=w)] *)
Definition add_edge (u v : V) (w : double) (G : Graph) : Graph :=
  set_adj v u w (set_adj u v w (add_node v (add_node u G))).

(** The weight of the edge between [u] and [v], if there is one:
    [G[u][v]["weight"]]. *)
Definition edge_weight (G : Graph) (u v : V) : option double :=
  match dict_get u G with
  | Some nbrs => dict_get v nbrs
  | None => None
  end.

(** [G.edges(data=True)]: every edge once, reported from the endpoint
    that comes first in node order. *)
Fixpoint edges_from (seen : list V) (G : Graph) : list (V * V * double) :=
  match G with
  | [] => []
  | (n, nbrs) :: G' =>
      map (fun mw => (n, fst mw, snd mw))
          (filter (fun mw => negb (existsb (veqb (fst mw)) seen)) nbrs)
      ++ edges_from (n :: seen) G'
  end.

Definition edges (G : Graph) : list (V * V * double) := edges_from [] G.

End Graphs.

Arguments empty_graph {V}.
Arguments nodes {V} G.
Arguments edges {V} V_eq_dec G.

(** ** Floors, global nodes and the module state *)

Definition floor_id : Type := string.

(** A node of the merged graph: [(lvl, (x, y))]. *)
Definition gnode : Type := (floor_id * coord)%type.

Definition gnode_eq_dec (a b : gnode) : {a = b} + {a <> b}.
Proof. decide equality; [apply coord_eq_dec | apply string_dec]. Defined.

(** The tuple [(floor, node)] returned by the resolver; [node] is what
    [connect_to_corridor] returned, possibly [None]. *)
Definition location : Type := (floor_id * option coord)%type.

(** An entry of [all_rooms]. *)
Record Room : Type := mkRoom {
  floor : floor_id;
  room_type : string;
  room_name : string;
  coords : coord
}.

(** [d[k]] on a dict with string keys *)
Fixpoint lookup (A : Type) (k : string) (d : list (string * A)) : option A :=
  match d with
  | [] => None
  | (k', a) :: d' => if (k' =? k)%string then Some a else lookup k d'
  end.

(** [sorted(xs)] on strings (code point order) *)
Fixpoint insert_sorted (x : string) (xs : list string) : list string :=
  match xs with
  | [] => [x]
  | y :: ys => if String.leb x y then x :: xs else y :: insert_sorted x ys
  end.

Definition sorted (xs : list string) : list string :=
  fold_right insert_sorted [] xs.

(** [set(xs)] followed by [sorted]: duplicates collapse *)
Fixpoint dedup (xs : list string) : list string :=
  match xs with
  | [] => []
  | x :: xs' => if existsb (String.eqb x) xs' then dedup xs' else x :: dedup xs'
  end.

(** The module-level state built at import and read by the request
    handlers. *)
Record World : Type := mkWorld {
  floor_graphs : list (floor_id * Graph coord);
  floor_stairs : list (floor_id * list coord);
  stair_pairs : list (gnode * gnode);
  G_all : Graph gnode;
  all_rooms : list Room;
  match_candidates : list string
}.

(** What [get_path] answers, up to rendering: the JSON errors (all with
    status 400), an exception that leaves the handler, or the route with
    the two centroids handed to the drawing code. *)
Inductive response : Type :=
| StartNotFound (candidates : list string)
| EndNotFound (candidates : list string)
| NoReachableExit
| NoPathBetween
| Uncaught (e : exn)
| Route (path_nodes : list gnode) (start_centroid end_centroid : option coord).

(** [(node, centroid, candidates)] as returned by [find_best_match]. *)
Definition match_result : Type :=
  (option location * option coord * list string)%type.

(** ** The program *)

Section Navigation.

(** [Point(p).distance(Point(q))] *)
Variable distance : coord -> coord -> double.

(** [str(v)] for a request value that is not a [str] *)
Variable py_str : json -> string.

(** [sum(xs)] on a sequence of doubles *)
Variable float_sum : list double -> double.

(** [difflib.get_close_matches(word, possibilities, n=5, cutoff=0.6)] for
    a [str] word; it raises nothing. *)
Variable get_close_matches : string -> list string -> list string.

(** The same call for a word that is not a [str]; [inl e] when it raises
    [e], as it does with [TypeError] for a number. *)
Variable close_matches_other : json -> list string -> exn + list string.

(** [nx.astar_path(G, source, target, weight="weight")] on nodes of the
    merged graph; [inl e] when it raises [e]. *)
Variable astar_path : Graph gnode -> gnode -> gnode -> exn + list gnode.

(** *** Node snapping *)

(** The loop of [connect_to_corridor] over [G.nodes], carrying
    [nearest] and [min_d]. *)
Fixpoint scan_nearest (pt : coord) (ns : list coord)
         (nearest : option coord) (min_d : double) : option coord :=
  match ns with
  | [] => nearest
  | node :: rest =>
      let d := distance pt node in
      if Double.ltb d min_d
      then scan_nearest pt rest (Some node) d
      else scan_nearest pt rest nearest min_d
  end.

(** [connect_to_corridor(point, G)], with [min_d = float("inf")] at the
    start.  Every caller passes a graph object and every node is a
    coordinate pair, so the [G is None] test and the [except] branch
    around [Point(node)] have no counterpart here. *)
Definition connect_to_corridor (point : coord) (G : Graph coord) : option coord :=
  match nodes G with
  | [] => None
  | ns => scan_nearest point ns None PosInf
  end.

(** *** Corridor graph of one floor *)

Definition is_corridor (row : Row) : bool :=
  Text.contains_nocase "corridor" (row_type row).

Definition is_staircase (row : Row) : bool :=
  Text.contains_nocase "staircase" (row_type row).

(** The loop over [range(len(coords)-1)] for one boundary line. *)
Fixpoint add_line (line : list coord) (G : Graph coord) : Graph coord :=
  match line with
  | p1 :: ((p2 :: _) as rest) =>
      add_line rest (add_edge coord_eq_dec p1 p2 (distance p1 p2) G)
  | _ => G
  end.

Definition add_geometry (G : Graph coord) (row : Row) : Graph coord :=
  match geometry row with
  | None => G
  | Some geom => fold_left (fun G line => add_line line G) (boundary geom) G
  end.

Definition build_floor_graph (gdf : GeoDataFrame) : Graph coord :=
  if gdf_empty gdf || negb (has_type_column gdf) then empty_graph
  else fold_left add_geometry (filter is_corridor (rows gdf)) empty_graph.

(** The staircase centroids of a floor: each is tied to its nearest
    corridor node by an edge of weight 0.5 and recorded in
    [floor_stairs]. *)
Definition add_stair (st : Graph coord * list coord) (row : Row)
  : Graph coord * list coord :=
  match geometry row with
  | None => st
  | Some geom =>
      let c := centroid geom in
      let G := fst st in
      let G' := match connect_to_corridor c G with
                | Some nearest =>
                    add_edge coord_eq_dec c nearest (Finite (Q2Qc (1 # 2))) G
                | None => G
                end in
      (G', snd st ++ [c])
  end.

Definition floor_graph_and_stairs (gdf : GeoDataFrame)
  : Graph coord * list coord :=
  let G := build_floor_graph gdf in
  if gdf_empty gdf then (G, [])
  else fold_left add_stair (filter is_staircase (rows gdf)) (G, []).

(** *** Staircase linking *)

Definition name_key (row : Row) : string :=
  Text.lower (Text.strip (row_name row)).

(** [name_a[:2] == name_b[:2] or name_a[-2:] == name_b[-2:]] *)
Definition similar_id (name_a name_b : string) : bool :=
  (Text.first_two name_a =? Text.first_two name_b)%string
  || (Text.last_two name_a =? Text.last_two name_b)%string.

(** The inner loop of [get_stair_pairs] over the upper floor's
    staircases, carrying [best_match] and [min_dist]. *)
Fixpoint best_upper (name_a : string) (cent_a : coord) (stairs_b : list Row)
         (best_match : option coord) (min_dist : double) : option coord :=
  match stairs_b with
  | [] => best_match
  | row_b :: rest =>
      match geometry row_b with
      | None => best_upper name_a cent_a rest best_match min_dist
      | Some geom_b =>
          let cent_b := centroid geom_b in
          if similar_id name_a (name_key row_b) then
            let d := distance cent_a cent_b in
            if Double.ltb d min_dist
            then best_upper name_a cent_a rest (Some cent_b) d
            else best_upper name_a cent_a rest best_match min_dist
          else best_upper name_a cent_a rest best_match min_dist
      end
  end.

(** What one lower staircase appends to [pairs]. *)
Definition pair_of (a b : floor_id) (stairs_b : list Row) (row_a : Row)
  : list (gnode * gnode) :=
  match geometry row_a with
  | None => []
  | Some geom_a =>
      let cent_a := centroid geom_a in
      match best_upper (name_key row_a) cent_a stairs_b None PosInf with
      | Some best_match => [((a, cent_a), (b, best_match))]
      | None => []
      end
  end.

(** [gdf[gdf[ROOM_TYPE].astype(str).str.contains("staircase", ...)]]:
    a frame without the column raises [KeyError]. *)
Definition staircases (gdf : GeoDataFrame) : exn + list Row :=
  match gdf with
  | NoData => inl KeyError
  | Loaded rs => inr (filter is_staircase rs)
  end.

(** The outer loop over [range(len(levels)-1)]. *)
Fixpoint link_levels (floor_gdfs : list (floor_id * GeoDataFrame))
         (levels : list floor_id) : exn + list (gnode * gnode) :=
  match levels with
  | a :: ((b :: _) as rest) =>
      match lookup a floor_gdfs, lookup b floor_gdfs with
      | Some gdf_a, Some gdf_b =>
          match staircases gdf_a, staircases gdf_b with
          | inr stairs_a, inr stairs_b =>
              match link_levels floor_gdfs rest with
              | inr more => inr (flat_map (pair_of a b stairs_b) stairs_a ++ more)
              | inl e => inl e
              end
          | inl e, _ => inl e
          | _, inl e => inl e
          end
      | _, _ => inl KeyError
      end
  | _ => inr []
  end.

Definition get_stair_pairs (floor_gdfs : list (floor_id * GeoDataFrame))
  : exn + list (gnode * gnode) :=
  link_levels floor_gdfs (sorted (map fst floor_gdfs)).

(** *** Rooms, merged graph and module initialisation *)

(** The rows of one floor that enter [all_rooms]. *)
Definition rooms_of_floor (lvl : floor_id) (gdf : GeoDataFrame) : list Room :=
  if gdf_empty gdf then []
  else flat_map
         (fun row =>
            match geometry row with
            | None => []
            | Some geom =>
                [mkRoom lvl (Text.strip (row_type row))
                        (Text.strip (row_name row)) (centroid geom)]
            end)
         (rows gdf).

(** One floor's nodes, then its edges, copied under the floor key. *)
Definition merge_floor (acc : Graph gnode) (entry : floor_id * Graph coord)
  : Graph gnode :=
  let lvl := fst entry in
  let G := snd entry in
  let acc1 := fold_left (fun acc node => add_node gnode_eq_dec (lvl, node) acc)
                        (nodes G) acc in
  fold_left (fun acc e =>
               match e with
               | (u, v, weight) =>
                   add_edge gnode_eq_dec (lvl, u) (lvl, v) weight acc
               end)
            (edges coord_eq_dec G) acc1.

(** [G_all]: the floors merged, then one edge of weight 1.0 per
    staircase pair. *)
Definition merge_graph (fgraphs : list (floor_id * Graph coord))
           (pairs : list (gnode * gnode)) : Graph gnode :=
  fold_left (fun acc p => add_edge gnode_eq_dec (fst p) (snd p) (Finite 1) acc)
            pairs (fold_left merge_floor fgraphs empty_graph).

(** The module body from the loaded frames on: it raises what
    [get_stair_pairs] raises. *)
Definition startup (floor_gdfs : list (floor_id * GeoDataFrame)) : exn + World :=
  let built := map (fun e => (fst e, floor_graph_and_stairs (snd e))) floor_gdfs in
  let fgraphs := map (fun e => (fst e, fst (snd e))) built in
  let fstairs := map (fun e => (fst e, snd (snd e))) built in
  match get_stair_pairs floor_gdfs with
  | inl e => inl e
  | inr pairs =>
      let rooms := flat_map (fun e => rooms_of_floor (fst e) (snd e)) floor_gdfs in
      let room_name_list := filter Text.nonempty (map room_name rooms) in
      let room_type_list := filter Text.nonempty (map room_type rooms) in
      inr (mkWorld fgraphs fstairs pairs (merge_graph fgraphs pairs) rooms
                   (sorted (dedup (room_name_list ++ room_type_list))))
  end.

(** *** Room resolution *)

(** [floor_graphs[floor]].  Rooms and graphs are built from the same
    frames, so every room's floor is a key ([startup_room_has_graph]);
    the empty graph stands for the lookup that cannot fail. *)
Definition graph_of (w : World) (lvl : floor_id) : Graph coord :=
  match lookup lvl (floor_graphs w) with
  | Some G => G
  | None => empty_graph
  end.

(** [str(s)] *)
Definition text_of (s : json) : string :=
  match s with
  | JString t => t
  | _ => py_str s
  end.

(** [canonical] on the text [str(s)].  Its [s is None] branch is never
    reached: [find_best_match] has returned before for a falsy value. *)
Definition canonical (s : string) : string * string :=
  let s2 := Text.lower (Text.strip s) in
  (s2, Text.keep_alnum s2).

(** [(floor, node), centroid, candidates] for a matched room *)
Definition resolved (w : World) (r : Room) (candidates : list string)
  : match_result :=
  (Some (floor r, connect_to_corridor (coords r) (graph_of w (floor r))),
   Some (coords r), candidates).

(** The tests of the five matching loops, in program order. *)
Definition exact_name (q_raw : string) (r : Room) : bool :=
  (Text.lower (Text.strip (room_name r)) =? q_raw)%string.

Definition exact_type (q_raw : string) (r : Room) : bool :=
  (Text.lower (Text.strip (room_type r)) =? q_raw)%string.

Definition name_substring (q_raw : string) (r : Room) : bool :=
  Text.nonempty q_raw
  && Text.contains q_raw (Text.lower (Text.strip (room_name r))).

Definition alnum_name (q_alnum : string) (r : Room) : bool :=
  let rn_alnum := Text.keep_alnum (Text.lower (Text.strip (room_name r))) in
  Text.nonempty rn_alnum && (rn_alnum =? q_alnum)%string.

Definition type_substring (q_raw : string) (r : Room) : bool :=
  Text.nonempty q_raw
  && Text.contains q_raw (Text.lower (Text.strip (room_type r))).

(** [difflib.get_close_matches(input_str, match_candidates, n=5,
    cutoff=0.6)] *)
Definition close (w : World) (input_str : json) : exn + list string :=
  match input_str with
  | JString s => inr (get_close_matches s (match_candidates w))
  | _ => close_matches_other input_str (match_candidates w)
  end.

(** [for r in all_rooms: if test(r): return ...] is [find test]. *)
Definition find_best_match (w : World) (input_str : json) : exn + match_result :=
  if negb (truthy input_str) then inr (None, None, [])
  else
    let q_raw := fst (canonical (text_of input_str)) in
    let q_alnum := snd (canonical (text_of input_str)) in
    match find (exact_name q_raw) (all_rooms w) with
    | Some r => inr (resolved w r [room_name r])
    | None =>
    match find (exact_type q_raw) (all_rooms w) with
    | Some r => inr (resolved w r [room_type r])
    | None =>
    let substr_matches := filter (name_substring q_raw) (all_rooms w) in
    match substr_matches with
    | r :: _ => inr (resolved w r (map room_name (firstn 10 substr_matches)))
    | [] =>
    match (if Text.nonempty q_alnum
           then find (alnum_name q_alnum) (all_rooms w) else None) with
    | Some r => inr (resolved w r [room_name r])
    | None =>
    match find (type_substring q_raw) (all_rooms w) with
    | Some r => inr (resolved w r [room_type r])
    | None =>
        match close w input_str with
        | inr suggestions => inr (None, None, suggestions)
        | inl e => inl e
        end
    end end end end end.

(** *** Routing *)

(** [nx.astar_path(G_all, s, t)] on resolver tuples: a tuple holding
    [None] is no node of [G_all], for which networkx raises
    [NodeNotFound]. *)
Definition astar_call (w : World) (s t : location) : exn + list gnode :=
  match s, t with
  | (fs, Some cs), (ft, Some ct) => astar_path (G_all w) (fs, cs) (ft, ct)
  | _, _ => inl NodeNotFound
  end.

(** [sum(Point(u[1]).distance(Point(v[1])) for u, v in zip(path, path[1:]))] *)
Definition geo_length (path : list gnode) : double :=
  float_sum (map (fun uv => distance (snd (fst uv)) (snd (snd uv)))
                 (combine path (tl path))).

Definition is_exit_room (r : Room) : bool :=
  Text.contains "exit" (Text.lower (room_type r))
  || Text.contains "exit" (Text.lower (room_name r)).

(** The loop over [exit_rooms], carrying [best], [best_len] and
    [best_cent]; [best_len] is [float("inf")] at the start, and
    [except Exception: continue] skips a search that raised. *)
Fixpoint exit_loop (w : World) (start_node : location) (exit_rooms : list Room)
         (best : option gnode) (best_len : double) (best_cent : option coord)
  : option gnode * option coord :=
  match exit_rooms with
  | [] => (best, best_cent)
  | r :: rest =>
      match connect_to_corridor (coords r) (graph_of w (floor r)) with
      | None => exit_loop w start_node rest best best_len best_cent
      | Some enode =>
          match astar_call w start_node (floor r, Some enode) with
          | inr path =>
              let length := geo_length path in
              if Double.ltb length best_len
              then exit_loop w start_node rest (Some (floor r, enode))
                             length (Some (coords r))
              else exit_loop w start_node rest best best_len best_cent
          | inl _ => exit_loop w start_node rest best best_len best_cent
          end
      end
  end.

(** The final search of [get_path]: only [NetworkXNoPath] is caught. *)
Definition route (w : World) (start_node end_node : location)
           (start_centroid end_centroid : option coord) : response :=
  match astar_call w start_node end_node with
  | inr path_nodes => Route path_nodes start_centroid end_centroid
  | inl NetworkXNoPath => NoPathBetween
  | inl e => Uncaught e
  end.

(** The branch of [get_path] for the end location ["Exit"]. *)
Definition route_to_nearest_exit (w : World) (start_node : location)
           (start_centroid : option coord) : response :=
  match exit_loop w start_node (filter is_exit_room (all_rooms w))
                  None PosInf None with
  | (None, _) => NoReachableExit
  | (Some best, best_cent) =>
      route w start_node (fst best, Some (snd best)) start_centroid best_cent
  end.

(** [isinstance(end_in, str) and end_in.strip() == "Exit"] *)
Definition asks_for_exit (end_in : json) : bool :=
  match end_in with
  | JString s => (Text.strip s =? "Exit")%string
  | _ => false
  end.

(** [get_path] from line 279 on, with the two request values in hand.
    An exception of [find_best_match] leaves the handler. *)
Definition get_path_fields (w : World) (start_in end_in : json) : response :=
  match find_best_match w start_in with
  | inl e => Uncaught e
  | inr (None, _, start_candidates) => StartNotFound start_candidates
  | inr (Some start_node, start_centroid, _) =>
      if asks_for_exit end_in
      then route_to_nearest_exit w start_node start_centroid
      else
        match find_best_match w end_in with
        | inl e => Uncaught e
        | inr (None, _, end_candidates) => EndNotFound end_candidates
        | inr (Some end_node, end_centroid, _) =>
            route w start_node end_node start_centroid end_centroid
        end
  end.

(** [data.get(key, "")] *)
Definition field (key : string) (data : list (string * json)) : json :=
  match lookup key data with
  | Some v => v
  | None => JString ""
  end.

(** [data = request.get_json() or {}], as far as [data.get] works on it:
    a falsy body is replaced by the empty dict, and a body that is no
    dict has no [get], which raises [AttributeError]. *)
Definition request_data (body : json) : exn + list (string * json) :=
  match (if truthy body then body else JObject []) with
  | JObject data => inr data
  | _ => inl AttributeError
  end.

(** [get_path] on the parsed request body. *)
Definition get_path (w : World) (body : json) : response :=
  match request_data body with
  | inr data => get_path_fields w (field "start" data) (field "end" data)
  | inl e => Uncaught e
  end.

End Navigation.

(** ** Further functions of the program *)

(** [b in used_b] *)
Definition in_used (b : coord) (used_b : list coord) : bool :=
  existsb (fun u => if coord_eq_dec u b then true else false) used_b.

(** The inner loop of [nearest_pair_list] over [list_b], carrying
    [best_b] and [best_d]. *)
Fixpoint best_unused (distance : coord -> coord -> double) (a : coord)
         (list_b used_b : list coord)
         (best_b : option coord) (best_d : double) : option coord :=
  match list_b with
  | [] => best_b
  | b :: rest =>
      if in_used b used_b
      then best_unused distance a rest used_b best_b best_d
      else
        let d := distance a b in
        if Double.ltb d best_d
        then best_unused distance a rest used_b (Some b) d
        else best_unused distance a rest used_b best_b best_d
  end.

(** The outer loop of [nearest_pair_list] over [list_a], carrying
    [used_b]; the result is what is appended to [pairs]. *)
Fixpoint pair_loop (distance : coord -> coord -> double)
         (list_a list_b used_b : list coord) : list (coord * coord) :=
  match list_a with
  | [] => []
  | a :: rest =>
      match best_unused distance a list_b used_b None PosInf with
      | Some best_b =>
          (a, best_b) :: pair_loop distance rest list_b (best_b :: used_b)
      | None => pair_loop distance rest list_b used_b
      end
  end.

Definition nearest_pair_list (distance : coord -> coord -> double)
           (list_a list_b : list coord) : list (coord * coord) :=
  pair_loop distance list_a list_b [].

(** [floor_paths.setdefault(f, []).append(node)] on an insertion-ordered
    dict *)
Fixpoint setdefault_append (f : floor_id) (node : coord)
         (floor_paths : list (floor_id * list coord))
  : list (floor_id * list coord) :=
  match floor_paths with
  | [] => [(f, [node])]
  | (k, ns) :: rest =>
      if (k =? f)%string then (k, ns ++ [node]) :: rest
      else (k, ns) :: setdefault_append f node rest
  end.

(** The dict [floor_paths] that [get_path] builds from [path_nodes]. *)
Definition group_by_floor (path_nodes : list gnode)
  : list (floor_id * list coord) :=
  fold_left (fun floor_paths fn => setdefault_append (fst fn) (snd fn) floor_paths)
            path_nodes [].

(** The list that [get_rooms] serialises. *)
Definition get_rooms (w : World) : list string :=
  sorted (dedup (filter Text.nonempty (map room_type (all_rooms w)))).

(** ** [networkx.astar_path] on doubles *)

(** The search that [nx.astar_path(G, source, target, weight="weight")]
    runs: no heuristic, so the priority of a heap entry is the cost
    accumulated from the source, [dist + cost] in double precision, and
    ties pop in push order.  Priorities are taken to be comparable (no
    NaN weight). *)
Module Networkx.

Section Search.

Variable V : Type.
Variable V_eq_dec : forall a b : V, {a = b} + {a <> b}.

(** A heap entry [(priority, next(c), node, dist, parent)]. *)
Record item : Type := mkItem {
  priority : double;
  serial : nat;
  item_node : V;
  dist : double;
  parent : option V
}.

(** The order of the entries as tuples: by priority, then by counter. *)
Definition item_ltb (a b : item) : bool :=
  Double.ltb (priority a) (priority b)
  || (Double.eqb (priority a) (priority b) && (serial a <? serial b)).

Fixpoint least (x : item) (queue : list item) : item :=
  match queue with
  | [] => x
  | y :: rest => least (if item_ltb y x then y else x) rest
  end.

(** [heappop(queue)]: the least entry and what is left. *)
Definition pop (queue : list item) : option (item * list item) :=
  match queue with
  | [] => None
  | x :: rest =>
      let m := least x rest in
      Some (m, filter (fun y => negb (serial y =? serial m)) queue)
  end.

(** The body of [for neighbor, w in G_succ[curnode].items()]. *)
Definition relax (curnode : V) (d : double)
           (st : list item * list (V * double) * nat) (nw : V * double)
  : list item * list (V * double) * nat :=
  let '(queue, enqueued, c) := st in
  let neighbor := fst nw in
  let ncost := Double.add d (snd nw) in
  let pushed :=
    (queue ++ [mkItem (Double.add ncost (Finite 0)) c neighbor ncost (Some curnode)],
     dict_set V_eq_dec neighbor ncost enqueued, S c) in
  match dict_get V_eq_dec neighbor enqueued with
  | Some qcost => if Double.leb qcost ncost then st else pushed
  | None => pushed
  end.

(** [while node is not None: path.append(node); node = explored[node]] *)
Fixpoint trace (fuel : nat) (explored : list (V * option V))
         (node : option V) : list V :=
  match fuel, node with
  | S fuel', Some n =>
      n :: trace fuel' explored
                 (match dict_get V_eq_dec n explored with
                  | Some p => p
                  | None => None
                  end)
  | _, _ => []
  end.

(** [while queue:], at most [fuel] pops; [None] when they are used up. *)
Fixpoint search (fuel : nat) (G : Graph V) (target : V)
         (queue : list item) (enqueued : list (V * double))
         (explored : list (V * option V)) (c : nat) : option (exn + list V) :=
  match fuel with
  | O => None
  | S fuel' =>
      match pop queue with
      | None => Some (inl NetworkXNoPath)
      | Some (it, queue') =>
          let curnode := item_node it in
          if veqb V_eq_dec curnode target
          then Some (inr (rev (curnode :: trace (S (List.length explored))
                                                explored (parent it))))
          else
            let skip :=
              match dict_get V_eq_dec curnode explored with
              | Some None => true
              | Some (Some _) =>
                  match dict_get V_eq_dec curnode enqueued with
                  | Some qcost => Double.ltb qcost (dist it)
                  | None => false
                  end
              | None => false
              end in
            if skip then search fuel' G target queue' enqueued explored c
            else
              let nbrs := match dict_get V_eq_dec curnode G with
                          | Some nbrs => nbrs
                          | None => []
                          end in
              let '(queue2, enqueued2, c2) :=
                fold_left (relax curnode (dist it)) nbrs (queue', enqueued, c) in
              search fuel' G target queue2 enqueued2
                     (dict_set V_eq_dec curnode (parent it) explored) c2
      end
  end.

Definition astar_path (fuel : nat) (G : Graph V) (source target : V)
  : option (exn + list V) :=
  if has_node V_eq_dec G source && has_node V_eq_dec G target
  then search fuel G target [mkItem (Finite 0) 0 source (Finite 0) None] [] [] 1
  else Some (inl NodeNotFound).

End Search.

End Networkx.

(** ** Walks and their weighted length *)

Section Walks.

Variable V : Type.
Variable V_eq_dec : forall a b : V, {a = b} + {a <> b}.

(** [walk G s t p c]: [p] lists the nodes of a walk in [G] from [s] to
    [t], and [c] is the total of its edge weights, added without
    rounding. *)
Inductive walk (G : Graph V) : V -> V -> list V -> double -> Prop :=
| walk_stay : forall v,
    has_node V_eq_dec G v = true -> walk G v v [v] (Finite 0)
| walk_step : forall u v t p c total,
    edge_weight V_eq_dec G u v = Some c -> walk G v t p total ->
    walk G u t (u :: p) (Double.exact_add c total).

(** The total weight of the node sequence [p] when it is a walk of [G]. *)
Fixpoint path_weight (G : Graph V) (p : list V) : option double :=
  match p with
  | [] => None
  | u :: rest =>
      match rest with
      | [] => if has_node V_eq_dec G u then Some (Finite 0) else None
      | v :: _ =>
          match edge_weight V_eq_dec G u v, path_weight G rest with
          | Some c, Some total => Some (Double.exact_add c total)
          | _, _ => None
          end
      end
  end.

(** The weights along [p] added in double precision from its first edge
    on, as the search adds them. *)
Fixpoint float_weight_from (G : Graph V) (acc : double) (p : list V)
  : option double :=
  match p with
  | u :: rest =>
      match rest with
      | [] => Some acc
      | v :: _ =>
          match edge_weight V_eq_dec G u v with
          | Some c => float_weight_from G (Double.add acc c) rest
          | None => None
          end
      end
  | [] => None
  end.

Definition float_weight (G : Graph V) (p : list V) : option double :=
  float_weight_from G (Finite 0) p.

(** [s] and [t] lie in the same connected component. *)
Definition connected (G : Graph V) (s t : V) : Prop :=
  exists p c, walk G s t p c.

(** [p] is a walk from [s] to [t] of total weight [c], and no walk from
    [s] to [t] weighs less. *)
Definition shortest (G : Graph V) (s t : V) (p : list V) (c : double) : Prop :=
  walk G s t p c /\
  forall q c', walk G s t q c' -> Double.leb c c' = true.

(** Both directions of every edge carry the same weight. *)
Definition symmetric (G : Graph V) : Prop :=
  forall u v, edge_weight V_eq_dec G u v = edge_weight V_eq_dec G v u.

(** What [nx.astar_path] raises, by its documentation: [NodeNotFound] for
    an endpoint that is no node of the graph, [NetworkXNoPath] when the
    target cannot be reached, and nothing else. *)
Definition astar_raises
           (astar : Graph V -> V -> V -> exn + list V) (G : Graph V) : Prop :=
  forall s t e, astar G s t = inl e ->
    (e = NodeNotFound /\
     (has_node V_eq_dec G s = false \/ has_node V_eq_dec G t = false)) \/
    (e = NetworkXNoPath /\ ~ connected G s t).

(** A search that is exact: the path it returns is a walk of least total
    weight.  [nx.astar_path] adds the weights in double precision from
    the source on, and is exact when those sums are. *)
Definition astar_exact
           (astar : Graph V -> V -> V -> exn + list V) (G : Graph V) : Prop :=
  astar_raises astar G /\
  forall s t p, astar G s t = inr p -> exists c, shortest G s t p c.

End Walks.

(** ** Vocabulary of the statements *)

(** The five matching stages of the resolver, in program order. *)
Inductive stage : Type :=
| ExactName | ExactType | NameSubstring | AlnumName | TypeSubstring.

Definition stage_rank (s : stage) : nat :=
  match s with
  | ExactName => 1 | ExactType => 2 | NameSubstring => 3
  | AlnumName => 4 | TypeSubstring => 5
  end.

(** Whether room [r] matches the text [input_str] at stage [s]: equality
    of the trimmed lower-cased name, of the type, substring of the name,
    equality of the non-empty alphanumeric normal forms, substring of the
    type. *)
Definition stage_test (s : stage) (input_str : string) (r : Room) : bool :=
  let q := Text.lower (Text.strip input_str) in
  match s with
  | ExactName => (Text.lower (Text.strip (room_name r)) =? q)%string
  | ExactType => (Text.lower (Text.strip (room_type r)) =? q)%string
  | NameSubstring => Text.contains q (Text.lower (Text.strip (room_name r)))
  | AlnumName =>
      Text.nonempty (Text.keep_alnum q)
      && (Text.keep_alnum (Text.lower (Text.strip (room_name r)))
          =? Text.keep_alnum q)%string
  | TypeSubstring => Text.contains q (Text.lower (Text.strip (room_type r)))
  end.

(** The test the program applies at stage [s], with its guards against
    an empty query text. *)
Definition guarded_test (s : stage) (input_str : string) (r : Room) : bool :=
  let q_raw := fst (canonical input_str) in
  let q_alnum := snd (canonical input_str) in
  match s with
  | ExactName => exact_name q_raw r
  | ExactType => exact_type q_raw r
  | NameSubstring => name_substring q_raw r
  | AlnumName => Text.nonempty q_alnum && alnum_name q_alnum r
  | TypeSubstring => type_substring q_raw r
  end.

(** The candidate list a stage returns with its match [r]. *)
Definition stage_candidates (s : stage) (input_str : string)
           (rooms : list Room) (r : Room) : list string :=
  match s with
  | ExactName | AlnumName => [room_name r]
  | ExactType | TypeSubstring => [room_type r]
  | NameSubstring =>
      map room_name (firstn 10 (filter (stage_test NameSubstring input_str) rooms))
  end.

(** [r] is the first element of [l] that passes [test]. *)
Definition first_passing (A : Type) (test : A -> bool) (l : list A) (r : A) : Prop :=
  exists before after,
    l = before ++ r :: after /\ test r = true /\
    forall x, In x before -> test x = false.

(** Query and room name are equal once lower-cased and stripped of every
    non-alphanumeric character. *)
Definition alnum_equal (input_str : string) (r : Room) : Prop :=
  Text.keep_alnum (Text.lower (Text.strip (room_name r)))
  = Text.keep_alnum (Text.lower (Text.strip input_str)).

(** No room matches at one of the three stages before the normalised
    one. *)
Definition no_earlier_match (rooms : list Room) (input_str : string) : Prop :=
  forall r, In r rooms ->
    stage_test ExactName input_str r = false /\
    stage_test ExactType input_str r = false /\
    stage_test NameSubstring input_str r = false.

(** Code point order on level identifiers. *)
Definition str_le (x y : string) : Prop := String.leb x y = true.

(** [a] and [b] are neighbours in the list of levels. *)
Definition adjacent_levels (levels : list floor_id) (a b : floor_id) : Prop :=
  exists before after, levels = before ++ a :: b :: after.

(** The staircase rows of a frame: the type text contains "staircase",
    whatever the case. *)
Definition stair_rows (gdf : GeoDataFrame) : list Row :=
  filter (fun row => Text.contains "staircase" (Text.lower (row_type row)))
         (rows gdf).

(** The centroids of the rows that have a geometry. *)
Definition centroids (rs : list Row) : list coord :=
  flat_map (fun row => match geometry row with
                       | Some geom => [centroid geom]
                       | None => []
                       end) rs.

(** The distance is below infinity: neither infinite nor NaN. *)
Definition below_inf (d : double) : Prop := Double.ltb d PosInf = true.

(** [nearest_of d c0 cs c]: [c] is the first element of [cs] among those
    at the least distance from [c0], and that distance is below infinity:
    no element before [c] is as near, no element after it is nearer. *)
Definition nearest_of (distance : coord -> coord -> double) (c0 : coord)
           (cs : list coord) (c : coord) : Prop :=
  below_inf (distance c0 c) /\
  exists before after,
    cs = before ++ c :: after /\
    (forall m, In m before -> Double.leb (distance c0 m) (distance c0 c) = false) /\
    (forall m, In m after -> Double.ltb (distance c0 m) (distance c0 c) = false).

(** The two names have the same first two or the same last two
    characters (the whole name when it is shorter). *)
Definition share_two (name_a name_b : string) : bool :=
  (substring 0 2 name_a =? substring 0 2 name_b)%string
  || (substring (String.length name_a - 2) 2 name_a
      =? substring (String.length name_b - 2) 2 name_b)%string.

(** The trimmed lower-cased name of a row. *)
Definition trimmed_name (row : Row) : string :=
  Text.lower (Text.strip (row_name row)).

(** The upper staircases whose name passes the filter against [name_a]. *)
Definition similar_rows (name_a : string) (stairs_b : list Row) : list Row :=
  filter (fun row_b => share_two name_a (trimmed_name row_b)) stairs_b.

(** The pair [((a, ca), (b, cb))] joins a staircase of floor [a] to a
    staircase of floor [b] whose name passes the filter and whose centroid
    is the first nearest among the upper staircases passing it. *)
Definition linked_pair (distance : coord -> coord -> double)
           (floor_gdfs : list (floor_id * GeoDataFrame))
           (a : floor_id) (ca : coord) (b : floor_id) (cb : coord) : Prop :=
  exists gdf_a gdf_b row_a geom_a row_b geom_b,
    lookup a floor_gdfs = Some gdf_a /\ lookup b floor_gdfs = Some gdf_b /\
    In row_a (stair_rows gdf_a) /\ geometry row_a = Some geom_a /\
    centroid geom_a = ca /\
    In row_b (stair_rows gdf_b) /\ geometry row_b = Some geom_b /\
    centroid geom_b = cb /\
    share_two (trimmed_name row_a) (trimmed_name row_b) = true /\
    nearest_of distance ca
               (centroids (similar_rows (trimmed_name row_a) (stair_rows gdf_b))) cb.

(** The distances between consecutive waypoints of a path. *)
Fixpoint hops (distance : coord -> coord -> double) (path : list gnode)
  : list double :=
  match path with
  | u :: rest =>
      match rest with
      | v :: _ => distance (snd u) (snd v) :: hops distance rest
      | [] => []
      end
  | [] => []
  end.

(** The type or the name of the room contains "exit", whatever the
    case. *)
Definition names_exit (r : Room) : Prop :=
  Text.contains "exit" (Text.lower (room_type r)) = true \/
  Text.contains "exit" (Text.lower (room_name r)) = true.

(** The search from [start_node] to [target] returns [path]: the start
    location has a node, and [nx.astar_path] on the merged graph returns
    [path]. *)
Definition found (astar_path : Graph gnode -> gnode -> gnode -> exn + list gnode)
           (w : World) (start_node : location) (target : gnode)
           (path : list gnode) : Prop :=
  exists cs, snd start_node = Some cs /\
             astar_path (G_all w) (fst start_node, cs) target = inr path.

(** Room [r] snaps to [enode] and is reached from [start_node] along
    [path], whose geometric length is [len]. *)
Definition reached (distance : coord -> coord -> double)
           (float_sum : list double -> double)
           (astar_path : Graph gnode -> gnode -> gnode -> exn + list gnode)
           (w : World) (start_node : location)
           (r : Room) (enode : coord) (path : list gnode) (len : double) : Prop :=
  connect_to_corridor distance (coords r) (graph_of w (floor r)) = Some enode /\
  astar_call astar_path w start_node (floor r, Some enode) = inr path /\
  len = float_sum (hops distance path).

(** The state of the exit loop after the rooms [seen]: its running
    minimum is still infinite and no room of [seen] is reached by a path
    of length below infinity, or it holds the first room of [seen] among
    those reached by a path of least length. *)
Definition settled (distance : coord -> coord -> double)
           (float_sum : list double -> double)
           (astar_path : Graph gnode -> gnode -> gnode -> exn + list gnode)
           (w : World) (start_node : location)
           (seen : list Room) (best : option gnode) (best_len : double)
           (best_cent : option coord) : Prop :=
  match best with
  | None =>
      best_len = PosInf /\
      forall r enode path len,
        In r seen ->
        reached distance float_sum astar_path w start_node r enode path len ->
        Double.ltb len PosInf = false
  | Some b =>
      below_inf best_len /\
      exists before r after enode path,
        seen = before ++ r :: after /\
        reached distance float_sum astar_path w start_node r enode path best_len /\
        b = (floor r, enode) /\ best_cent = Some (coords r) /\
        (forall r' enode' path' len',
            In r' before ->
            reached distance float_sum astar_path w start_node r' enode' path' len' ->
            Double.leb len' best_len = false) /\
        (forall r' enode' path' len',
            In r' after ->
            reached distance float_sum astar_path w start_node r' enode' path' len' ->
            Double.ltb len' best_len = false)
  end.

(** The waypoints of [path_nodes] that lie on floor [f], in path order. *)
Definition nodes_on (f : floor_id) (path_nodes : list gnode) : list coord :=
  map snd (filter (fun fn => (fst fn =? f)%string) path_nodes).

(** [x] is a non-empty name or type of a room in [rooms]. *)
Definition labels (rooms : list Room) (x : string) : Prop :=
  x <> ""%string /\
  exists r, In r rooms /\ (room_name r = x \/ room_type r = x).

(** Some vertex list of a corridor row of [gdf] with at least two
    vertices contains [n]. *)
Definition corridor_vertex (gdf : GeoDataFrame) (n : coord) : Prop :=
  exists row geom line,
    In row (rows gdf) /\ is_corridor row = true /\
    geometry row = Some geom /\ In line (boundary geom) /\
    (2 <= List.length line)%nat /\ In n line.

(** Node keys are unique, weights agree in the two directions. *)
Definition well_formed (V : Type) (V_eq_dec : forall a b : V, {a = b} + {a <> b})
           (G : Graph V) : Prop :=
  NoDup (nodes G) /\ symmetric V_eq_dec G.

(** The weight of every edge of [G] is the distance between its
    endpoints. *)
Definition edge_metric (distance : coord -> coord -> double) (G : Graph coord) : Prop :=
  forall u v c, edge_weight coord_eq_dec G u v = Some c ->
                c = distance u v \/ c = distance v u.

(** The string is empty or starts with a character that is no blank. *)
Definition clean_head (s : string) : bool :=
  match s with
  | EmptyString => true
  | String c _ => negb (Text.isspace c)
  end.

(** The number of distinct points of a list. *)
Definition distinct (l : list coord) : nat :=
  List.length (nodup coord_eq_dec l).

(** ** Sample buildings *)

Module Sample.

Local Open Scope string_scope.

Definition pt (x y : Z) : coord := (Q2Qc (inject_Z x), Q2Qc (inject_Z y)).

(** [2^700], about 5.26e210: its square is no finite double. *)
Definition far : Qc := Q2Qc (inject_Z (2 ^ 700)).

(** [k * 2^-53]; [1 + 2^-53] lies half way between the doubles [1] and
    [1 + 2^-52]. *)
Definition tiny (k : Z) : Qc := Q2Qc (Qmake k 9007199254740992).

Definition no_suggestions (word : string) (possibilities : list string)
  : list string := [].

(** [get_close_matches] iterates over its word, which raises [TypeError]
    for a number. *)
Definition not_iterable (word : json) (possibilities : list string)
  : exn + list string := inl TypeError.

(** [str(v)] for [None], the booleans and the one-digit integers. *)
Definition show (v : json) : string :=
  match v with
  | JNull => "None"
  | JBool true => "True"
  | JBool false => "False"
  | JInt z => String (ascii_of_nat (48 + Z.to_nat z)) ""
  | _ => ""
  end.

(** [nx.astar_path], the search cut off after 4096 pops. *)
Definition astar (G : Graph gnode) (s t : gnode) : exn + list gnode :=
  match Networkx.astar_path gnode_eq_dec 4096 G s t with
  | Some r => r
  | None => inl NetworkXNoPath
  end.

(** A router for graphs in which every reachable pair is adjacent. *)
Definition direct_astar (V : Type) (V_eq_dec : forall a b : V, {a = b} + {a <> b})
           (G : Graph V) (s t : V) : exn + list V :=
  if has_node V_eq_dec G s && has_node V_eq_dec G t then
    if V_eq_dec s t then inr [s]
    else match edge_weight V_eq_dec G s t with
         | Some _ => inr [s; t]
         | None => inl NetworkXNoPath
         end
  else inl NodeNotFound.

(** The graph of a single edge. *)
Definition one_edge (V : Type) (a b : V) (c : double) : Graph V :=
  [(a, [(b, c)]); (b, [(a, c)])].

Definition square (x y : Z) : Geometry :=
  mkGeometry [[pt x y; pt (x + 2) y; pt (x + 2) (y + 2); pt x (y + 2); pt x y]]
             (pt (x + 1) (y + 1)).

(** A point feature: its boundary has no line. *)
Definition spot (c : coord) : Geometry := mkGeometry [] c.

(** The state for given frames; a failed start-up leaves an empty one. *)
Definition world_of (floor_gdfs : list (floor_id * GeoDataFrame)) : World :=
  match startup Double.euclid floor_gdfs with
  | inr w => w
  | inl _ => mkWorld [] [] [] empty_graph [] []
  end.

(** The request body [{"start": start_in, "end": end_in}]. *)
Definition request (start_in end_in : json) : json :=
  JObject [("start", start_in); ("end", end_in)].

(** One floor with a single office and no corridor. *)
Definition office_only : list (floor_id * GeoDataFrame) :=
  [("Level_1", Loaded [mkRow "Office" "101" (Some (square 0 0))])].

(** One floor whose only room has no name. *)
Definition unnamed_room : list (floor_id * GeoDataFrame) :=
  [("Level_1", Loaded [mkRow "Office" "" (Some (square 0 0))])].

(** Two empty-named staircases above an empty-named one. *)
Definition blank_stair : Row := mkRow "Staircase" "  " (Some (square 0 0)).
Definition blank_upper : list Row :=
  [mkRow "Staircase" "" (Some (square 6 0));
   mkRow "staircase" " " (Some (square 2 0))].

(** One floor with a corridor drawn as a single segment. *)
Definition corridor_line : list (floor_id * GeoDataFrame) :=
  [("Level_1",
    Loaded [mkRow "Corridor" "C1"
                  (Some (mkGeometry [[pt 0 0; pt 4 0]] (pt 2 0)))])].

Definition west_end : gnode := ("Level_1", pt 0 0).
Definition east_end : gnode := ("Level_1", pt 4 0).

(** Room "Lab 10" is listed before room "Lab 1". *)
Definition two_labs : list (floor_id * GeoDataFrame) :=
  [("Level_1", Loaded [mkRow "Lab" "Lab 10" (Some (square 0 0));
                       mkRow "Lab" "Lab 1" (Some (square 4 0))])].

(** A staircase named "s201". *)
Definition one_stair : list (floor_id * GeoDataFrame) :=
  [("Level_2", Loaded [mkRow "Staircase" "s201" (Some (square 0 0))])].

(** A room whose name has no letter or digit. *)
Definition plus_room : list (floor_id * GeoDataFrame) :=
  [("Level_1", Loaded [mkRow "Office" "+" (Some (square 0 0))])].

(** Two floors, a staircase on each, and a room on the upper one. *)
Definition two_floors : list (floor_id * GeoDataFrame) :=
  [("Level_2", Loaded [mkRow "Staircase" "S201" (Some (square 0 0));
                       mkRow "Office" "Dean" (Some (square 4 0))]);
   ("Level_1", Loaded [mkRow "Staircase" "SG01" (Some (square 0 0));
                       mkRow "Corridor" "C1"
                             (Some (mkGeometry [[pt 0 4; pt 4 4]] (pt 2 4)))])].

(** The frame of a floor with a staircase next to a corridor. *)
Definition stair_by_corridor : GeoDataFrame :=
  Loaded [mkRow "Staircase" "SG01" (Some (square 0 0));
          mkRow "Corridor" "C1" (Some (mkGeometry [[pt 0 4; pt 4 4]] (pt 2 4)))].

(** The frame of a floor with a staircase and no corridor. *)
Definition stair_alone : GeoDataFrame :=
  Loaded [mkRow "Staircase" "SG01" (Some (square 0 0))].

(** A corridor far in the east: from the origin its two ends are at a
    distance that overflows. *)
Definition far_corridor : GeoDataFrame :=
  Loaded [mkRow "Corridor" "C9"
                (Some (mkGeometry [[(far, 0); (far, 1)]] (far, Q2Qc (1 # 2))))].

(** Two floors with one staircase each, of the same name, the upper one
    far in the east. *)
Definition low_stair : Row := mkRow "Staircase" "S1" (Some (spot (0, 0))).
Definition far_stair : Row := mkRow "Staircase" "S1" (Some (spot (far, 0))).

Definition far_stairs : list (floor_id * GeoDataFrame) :=
  [("Level_1", Loaded [low_stair]); ("Level_2", Loaded [far_stair])].

(** A corridor from the lobby at the origin to an exit far in the east. *)
Definition far_exit : list (floor_id * GeoDataFrame) :=
  [("Level_1",
    Loaded [mkRow "Corridor" "C1"
                  (Some (mkGeometry [[(0, 0); (far, 0)]] (tiny 0, 0)));
            mkRow "Room" "Lobby" (Some (spot (0, 0)));
            mkRow "Exit" "E1" (Some (spot (far, 0)))])].

(** A corridor drawn as a thin ring between [south] and [north].  Going
    east from [south], a segment of length 1 is followed by eight of
    length [2^-53]; going west, two segments of length [2^-53] are
    followed by one of length [1 + 2^-52]. *)
Definition south : gnode := ("Level_1", (0, 0)).
Definition north : gnode := ("Level_1", (tiny (-4), 1)).

Definition east_side : list coord :=
  map (fun k => (tiny k, 1)) [4; 3; 2; 1; 0; -1; -2; -3]%Z.

Definition west_side : list coord := [(0, tiny (-2)); (0, tiny (-1))].

Definition ring : list (floor_id * GeoDataFrame) :=
  [("Level_1",
    Loaded [mkRow "Corridor" "Ring"
                  (Some (mkGeometry
                           [snd south :: east_side ++ snd north :: west_side
                                      ++ [snd south]]
                           (0, Q2Qc (1 # 2))))])].

Definition east_route : list gnode :=
  south :: map (fun c => ("Level_1", c)) east_side ++ [north].

Definition west_route : list gnode :=
  north :: map (fun c => ("Level_1", c)) west_side ++ [south].

End Sample.

(** * Properties *)

Open Scope string_scope.
Open Scope list_scope.

(** ** Comparisons *)

Lemma Qcltb_true (d m : Qc) : Qcltb d m = true -> (d < m)%Qc.
Proof.
  unfold Qcltb. intro H. apply Qclt_alt.
  destruct (Qccompare d m); congruence.
Qed.

Lemma Qcltb_false (d m : Qc) : Qcltb d m = false -> (m <= d)%Qc.
Proof.
  unfold Qcltb. intro H. apply Qcnot_lt_le. intro Hlt.
  assert (E : Qccompare d m = Lt) by (apply Qclt_alt; exact Hlt).
  rewrite E in H. discriminate.
Qed.

Lemma Qcltb_intro (d m : Qc) : (d < m)%Qc -> Qcltb d m = true.
Proof.
  intro H. destruct (Qcltb d m) eqn:E; [reflexivity |].
  apply Qcltb_false in E. exfalso. exact (Qcle_not_lt _ _ E H).
Qed.

Module DoubleFacts.

Lemma eqb_eq (x y : double) : Double.eqb x y = true -> x = y.
Proof.
  destruct x as [a | | |], y as [b | | |]; simpl; try discriminate;
    try reflexivity.
  destruct (Qc_eq_dec a b) as [-> |]; [reflexivity | discriminate].
Qed.

Lemma ltb_leb (x y : double) : Double.ltb x y = true -> Double.leb x y = true.
Proof. intro H. unfold Double.leb. rewrite H. reflexivity. Qed.

Lemma ltb_trans (x y z : double) :
  Double.ltb x y = true -> Double.ltb y z = true -> Double.ltb x z = true.
Proof.
  destruct x as [a | | |], y as [b | | |], z as [c | | |]; simpl;
    try discriminate; try reflexivity.
  intros H1 H2. apply Qcltb_intro.
  eapply Qclt_trans; [apply Qcltb_true; exact H1 | apply Qcltb_true; exact H2].
Qed.

(** [x <= y] and [y < z] give [x < z]. *)
Lemma leb_ltb_trans (x y z : double) :
  Double.leb x y = true -> Double.ltb y z = true -> Double.ltb x z = true.
Proof.
  unfold Double.leb. intros H1 H2.
  apply orb_true_iff in H1. destruct H1 as [H1 | H1].
  - exact (ltb_trans _ _ _ H1 H2).
  - apply eqb_eq in H1. subst y. exact H2.
Qed.

Lemma ltb_irrefl (x : double) : Double.ltb x x = false.
Proof.
  destruct x as [a | | |]; simpl; try reflexivity.
  destruct (Qcltb a a) eqn:E; [| reflexivity].
  apply Qcltb_true in E. exfalso. exact (Qcle_not_lt _ _ (Qcle_refl a) E).
Qed.

(** [x < y] excludes [y <= x]. *)
Lemma ltb_not_leb (x y : double) :
  Double.ltb x y = true -> Double.leb y x = false.
Proof.
  intro H. destruct (Double.leb y x) eqn:E; [| reflexivity].
  pose proof (leb_ltb_trans _ _ _ E H) as Hc.
  rewrite ltb_irrefl in Hc. discriminate.
Qed.

Lemma leb_antisym (x y : double) :
  Double.leb x y = true -> Double.leb y x = true -> x = y.
Proof.
  intros H1 H2. unfold Double.leb in H1.
  apply orb_true_iff in H1. destruct H1 as [H1 | H1].
  - rewrite (ltb_not_leb _ _ H1) in H2. discriminate.
  - apply eqb_eq. exact H1.
Qed.

(** What is not at most [z] is not at most anything below [z]. *)
Lemma not_leb_below (x y z : double) :
  Double.leb x z = false -> Double.ltb y z = true -> Double.leb x y = false.
Proof.
  intros H1 H2. destruct (Double.leb x y) eqn:E; [| reflexivity].
  rewrite (ltb_leb _ _ (leb_ltb_trans _ _ _ E H2)) in H1. discriminate.
Qed.

Lemma not_ltb_below (x y z : double) :
  Double.ltb x z = false -> Double.ltb y z = true -> Double.leb x y = false.
Proof.
  intros H1 H2. destruct (Double.leb x y) eqn:E; [| reflexivity].
  rewrite (leb_ltb_trans _ _ _ E H2) in H1. discriminate.
Qed.

(** Two numbers compare one way or the other. *)
Lemma not_ltb_leb (x y : double) :
  x <> NaN -> y <> NaN -> Double.ltb x y = false -> Double.leb y x = true.
Proof.
  unfold Double.leb.
  destruct x as [a | | |], y as [b | | |]; simpl; intros Hx Hy H;
    try reflexivity; try discriminate; try congruence.
  destruct (Qcltb b a) eqn:E; [reflexivity |]. simpl.
  apply Qcltb_false in H. apply Qcltb_false in E.
  destruct (Qc_eq_dec b a) as [| Hne]; [reflexivity |].
  exfalso. apply Hne. apply Qcle_antisym; assumption.
Qed.

Lemma below_not_nan (x y : double) : Double.ltb x y = true -> x <> NaN.
Proof. intros H ->. discriminate. Qed.

Lemma leb_finite (a b : Qc) :
  (a <= b)%Qc -> Double.leb (Finite a) (Finite b) = true.
Proof.
  intro H. unfold Double.leb. simpl.
  destruct (Qcltb a b) eqn:E; [reflexivity |]. simpl.
  apply Qcltb_false in E.
  destruct (Qc_eq_dec a b) as [| Hne]; [reflexivity |].
  exfalso. apply Hne. apply Qcle_antisym; assumption.
Qed.

Lemma exact_add_comm (x y : double) :
  Double.exact_add x y = Double.exact_add y x.
Proof.
  destruct x as [a | | |], y as [b | | |]; simpl; try reflexivity.
  f_equal. apply Qcplus_comm.
Qed.

Lemma exact_add_assoc (x y z : double) :
  Double.exact_add x (Double.exact_add y z)
  = Double.exact_add (Double.exact_add x y) z.
Proof.
  destruct x as [a | | |], y as [b | | |], z as [c | | |]; simpl;
    try reflexivity.
  f_equal. apply Qcplus_assoc.
Qed.

Lemma exact_add_zero (x : double) : Double.exact_add x (Finite 0) = x.
Proof.
  destruct x as [a | | |]; simpl; try reflexivity.
  f_equal. apply Qcplus_0_r.
Qed.

End DoubleFacts.

(** ** Slices of a string *)

Module SliceFacts.

Lemma take_substring (n : nat) (s : string) : Text.take n s = substring 0 n s.
Proof.
  revert s. induction n as [| n IH]; intros [| c s]; simpl; try reflexivity.
  rewrite IH. reflexivity.
Qed.

Lemma drop_substring (n m : nat) (s : string) :
  substring n m s = substring 0 m (Text.drop n s).
Proof.
  revert s. induction n as [| n IH]; intros [| c s]; simpl; try reflexivity.
  - destruct m; reflexivity.
  - apply IH.
Qed.

Lemma substring_all (m : nat) (s : string) :
  (String.length s <= m)%nat -> substring 0 m s = s.
Proof.
  revert m. induction s as [| c s IH]; intros [| m] H; simpl in *;
    try reflexivity; try lia.
  rewrite IH by lia. reflexivity.
Qed.

Lemma length_drop (n : nat) (s : string) :
  String.length (Text.drop n s) = (String.length s - n)%nat.
Proof.
  revert s. induction n as [| n IH]; intros [| c s]; simpl; try reflexivity.
  apply IH.
Qed.

Lemma first_two_substring (s : string) : Text.first_two s = substring 0 2 s.
Proof. apply take_substring. Qed.

Lemma last_two_substring (s : string) :
  Text.last_two s = substring (String.length s - 2) 2 s.
Proof.
  unfold Text.last_two. rewrite drop_substring.
  symmetry. apply substring_all. rewrite length_drop. lia.
Qed.

End SliceFacts.

(** The filter of the program is the comparison of the two-character
    slices. *)
Lemma similar_id_share_two (name_a name_b : string) :
  similar_id name_a name_b = share_two name_a name_b.
Proof.
  unfold similar_id, share_two.
  rewrite !SliceFacts.first_two_substring, !SliceFacts.last_two_substring.
  reflexivity.
Qed.

(** ** The running-minimum scan *)

Section Scan.

Variable distance : coord -> coord -> double.
Variable pt : coord.

Lemma nearest_of_In (cs : list coord) (c : coord) :
  nearest_of distance pt cs c -> In c cs.
Proof.
  intros (_ & before & after & -> & _). apply in_or_app. right. left. reflexivity.
Qed.

(** No element is strictly nearer than the nearest. *)
Lemma nearest_of_least (cs : list coord) (c : coord) :
  nearest_of distance pt cs c ->
  forall m, In m cs -> Double.ltb (distance pt m) (distance pt c) = false.
Proof.
  intros (_ & before & after & -> & Hb & Ha) m Hm.
  apply in_app_or in Hm. destruct Hm as [Hm | [Hm | Hm]].
  - destruct (Double.ltb (distance pt m) (distance pt c)) eqn:E; [| reflexivity].
    pose proof (Hb m Hm) as Hf.
    rewrite (DoubleFacts.ltb_leb _ _ E) in Hf. discriminate.
  - subst m. apply DoubleFacts.ltb_irrefl.
  - apply Ha. exact Hm.
Qed.

Lemma nearest_of_snoc_keep (cs : list coord) (c node : coord) :
  nearest_of distance pt cs c ->
  Double.ltb (distance pt node) (distance pt c) = false ->
  nearest_of distance pt (cs ++ [node]) c.
Proof.
  intros (Hinf & before & after & -> & Hb & Ha) Hle.
  split; [exact Hinf |].
  exists before, (after ++ [node]). split.
  - rewrite <- app_assoc. reflexivity.
  - split; [exact Hb |].
    intros m Hm. apply in_app_or in Hm. destruct Hm as [Hm | [Hm | []]].
    + apply Ha. exact Hm.
    + subst m. exact Hle.
Qed.

Lemma nearest_of_snoc_take (cs : list coord) (c node : coord) :
  nearest_of distance pt cs c ->
  Double.ltb (distance pt node) (distance pt c) = true ->
  nearest_of distance pt (cs ++ [node]) node.
Proof.
  intros (Hinf & before & after & -> & Hb & Ha) Hlt. split.
  - exact (DoubleFacts.ltb_trans _ _ _ Hlt Hinf).
  - exists (before ++ c :: after), []. split; [reflexivity |].
    split; [| intros m []].
    intros m Hm. apply in_app_or in Hm. destruct Hm as [Hm | [Hm | Hm]].
    + exact (DoubleFacts.not_leb_below _ _ _ (Hb m Hm) Hlt).
    + subst m. apply DoubleFacts.ltb_not_leb. exact Hlt.
    + exact (DoubleFacts.not_ltb_below _ _ _ (Ha m Hm) Hlt).
Qed.

(** The first element below infinity after elements that are not. *)
Lemma nearest_of_first (seen : list coord) (node : coord) :
  (forall m, In m seen -> Double.ltb (distance pt m) PosInf = false) ->
  Double.ltb (distance pt node) PosInf = true ->
  nearest_of distance pt (seen ++ [node]) node.
Proof.
  intros Hseen Hlt. split; [exact Hlt |].
  exists seen, []. split; [reflexivity |]. split; [| intros m []].
  intros m Hm. exact (DoubleFacts.not_ltb_below _ _ _ (Hseen m Hm) Hlt).
Qed.

Lemma scan_nearest_from (ns seen : list coord) (c : coord) :
  nearest_of distance pt seen c ->
  exists c', scan_nearest distance pt ns (Some c) (distance pt c) = Some c'
             /\ nearest_of distance pt (seen ++ ns) c'.
Proof.
  revert seen c. induction ns as [| node rest IH]; intros seen c Hc; simpl.
  - exists c. rewrite app_nil_r. split; [reflexivity | exact Hc].
  - replace (seen ++ node :: rest) with ((seen ++ [node]) ++ rest)
      by (rewrite <- app_assoc; reflexivity).
    destruct (Double.ltb (distance pt node) (distance pt c)) eqn:E.
    + apply IH. apply nearest_of_snoc_take with c; [exact Hc | exact E].
    + apply IH. apply nearest_of_snoc_keep; [exact Hc | exact E].
Qed.

(** The scan started at [float("inf")] after the elements [seen], none of
    which is below infinity. *)
Lemma scan_nearest_fresh (ns seen : list coord) :
  (forall m, In m seen -> Double.ltb (distance pt m) PosInf = false) ->
  match scan_nearest distance pt ns None PosInf with
  | None => forall m, In m (seen ++ ns) -> Double.ltb (distance pt m) PosInf = false
  | Some c => nearest_of distance pt (seen ++ ns) c
  end.
Proof.
  revert seen. induction ns as [| node rest IH]; intros seen Hseen; simpl.
  - rewrite app_nil_r. exact Hseen.
  - replace (seen ++ node :: rest) with ((seen ++ [node]) ++ rest)
      by (rewrite <- app_assoc; reflexivity).
    destruct (Double.ltb (distance pt node) PosInf) eqn:E.
    + destruct (@scan_nearest_from rest (seen ++ [node]) node) as (c' & -> & Hc').
      * apply nearest_of_first; assumption.
      * exact Hc'.
    + apply IH. intros m Hm. apply in_app_or in Hm.
      destruct Hm as [Hm | [Hm | []]]; [apply Hseen; exact Hm | subst m; exact E].
Qed.

(** The scan returns nothing exactly when no element is at a distance
    below infinity, and otherwise the first of the nearest elements. *)
Lemma scan_nearest_spec (ns : list coord) :
  match scan_nearest distance pt ns None PosInf with
  | None => forall m, In m ns -> Double.ltb (distance pt m) PosInf = false
  | Some c => nearest_of distance pt ns c
  end.
Proof. apply (@scan_nearest_fresh ns []). intros m []. Qed.

End Scan.

(** ** Node snapping *)

Lemma connect_unfold (distance : coord -> coord -> double)
      (point : coord) (G : Graph coord) :
  connect_to_corridor distance point G
  = scan_nearest distance point (nodes G) None PosInf.
Proof.
  unfold connect_to_corridor. destruct (nodes G); reflexivity.
Qed.

(** C5, as amended: [connect_to_corridor] returns [None] exactly when no
    node of the graph lies at a distance below infinity from the point,
    which is so on a graph without nodes and also when every distance is
    infinite or NaN.  Otherwise it returns a node of the graph at a
    distance below infinity; no node is nearer, every node whose distance
    is a number is at least as far, and every node before it in iteration
    order fails to be as near (the first minimum wins). *)
Theorem connect_to_corridor_nearest
        (distance : coord -> coord -> double) (point : coord) (G : Graph coord) :
  (connect_to_corridor distance point G = None <->
   forall n, In n (nodes G) -> Double.ltb (distance point n) PosInf = false) /\
  (nodes G = [] -> connect_to_corridor distance point G = None) /\
  (forall n, connect_to_corridor distance point G = Some n ->
     In n (nodes G) /\
     Double.ltb (distance point n) PosInf = true /\
     (forall m, In m (nodes G) ->
        Double.ltb (distance point m) (distance point n) = false) /\
     (forall m, In m (nodes G) -> distance point m <> NaN ->
        Double.leb (distance point n) (distance point m) = true) /\
     exists before after,
       nodes G = before ++ n :: after /\
       forall m, In m before ->
         Double.leb (distance point m) (distance point n) = false).
Proof.
  rewrite connect_unfold.
  pose proof (scan_nearest_spec distance point (nodes G)) as Hs.
  destruct (scan_nearest distance point (nodes G) None PosInf) as [c |].
  - split; [| split].
    + split; [discriminate |]. intro Hall.
      pose proof (proj1 Hs) as Hinf. unfold below_inf in Hinf.
      rewrite (Hall c (nearest_of_In Hs)) in Hinf. discriminate.
    + intro E. pose proof (nearest_of_In Hs) as Hin. rewrite E in Hin.
      destruct Hin.
    + intros n Hn. injection Hn as <-.
      split; [exact (nearest_of_In Hs) |].
      split; [exact (proj1 Hs) |].
      split; [exact (nearest_of_least Hs) |].
      split.
      * intros m Hm Hnan. apply DoubleFacts.not_ltb_leb.
        -- exact Hnan.
        -- apply DoubleFacts.below_not_nan with PosInf. exact (proj1 Hs).
        -- exact (nearest_of_least Hs m Hm).
      * destruct Hs as (_ & before & after & E & Hb & _).
        exists before, after. split; [exact E | exact Hb].
  - split; [| split].
    + split; [intros _; exact Hs | reflexivity].
    + reflexivity.
    + intros n Hn. discriminate.
Qed.

(** C5, as stated, fails: from the origin the two nodes of a corridor at
    [x = 2^700] are at a distance that overflows to infinity,
    [inf < inf] is false, and the graph with two nodes gives [None]. *)
Lemma connect_none_on_far_corridor :
  List.length (nodes (build_floor_graph Double.euclid Sample.far_corridor)) = 2%nat /\
  (forall n, In n (nodes (build_floor_graph Double.euclid Sample.far_corridor)) ->
             Double.euclid (0, 0) n = PosInf) /\
  connect_to_corridor Double.euclid (0, 0)
                      (build_floor_graph Double.euclid Sample.far_corridor) = None.
Proof.
  split; [vm_compute; reflexivity |].
  split; [| vm_compute; reflexivity].
  intros n Hn.
  assert (E : nodes (build_floor_graph Double.euclid Sample.far_corridor)
              = [(Sample.far, 0); (Sample.far, 1)]) by (vm_compute; reflexivity).
  rewrite E in Hn. destruct Hn as [<- | [<- | []]]; vm_compute; reflexivity.
Qed.

(** ** Corridor graph *)

Lemma filter_none (A : Type) (f : A -> bool) (l : list A) :
  (forall x, In x l -> f x = false) -> filter f l = [].
Proof.
  induction l as [| x l IH]; intro H; simpl; [reflexivity |].
  rewrite (H x (or_introl eq_refl)). apply IH.
  intros y Hy. apply H. right. exact Hy.
Qed.

(** C9: a floor none of whose rows has a type containing "corridor"
    (any case) gets the graph without nodes and without edges;
    [build_floor_graph] is total, so no error is signalled. *)
Theorem no_corridor_empty_graph
        (distance : coord -> coord -> double) (gdf : GeoDataFrame) :
  (forall row, In row (rows gdf) -> is_corridor row = false) ->
  build_floor_graph distance gdf = empty_graph /\
  nodes (build_floor_graph distance gdf) = [] /\
  edges coord_eq_dec (build_floor_graph distance gdf) = [].
Proof.
  intro H.
  assert (E : build_floor_graph distance gdf = empty_graph).
  { unfold build_floor_graph.
    destruct (gdf_empty gdf || negb (has_type_column gdf)); [reflexivity |].
    rewrite (filter_none _ _ H). reflexivity. }
  rewrite E. repeat split.
Qed.

Lemma no_corridor_empty_graph_witness :
  (forall row, In row (rows (Loaded [mkRow "Office" "101" (Some (Sample.square 0 0))])) ->
               is_corridor row = false) /\
  build_floor_graph Double.euclid
    (Loaded [mkRow "Office" "101" (Some (Sample.square 0 0))]) = empty_graph.
Proof.
  assert (H : forall row,
             In row (rows (Loaded [mkRow "Office" "101" (Some (Sample.square 0 0))])) ->
             is_corridor row = false).
  { intros row [<- | []]. reflexivity. }
  split; [exact H |].
  exact (proj1 (no_corridor_empty_graph Double.euclid _ H)).
Defined.

(** ** Staircase linking: the inner loop *)

Lemma best_upper_scan (distance : coord -> coord -> double)
      (name_a : string) (cent_a : coord) (stairs_b : list Row)
      (best_match : option coord) (min_dist : double) :
  best_upper distance name_a cent_a stairs_b best_match min_dist
  = scan_nearest distance cent_a (centroids (similar_rows name_a stairs_b))
                 best_match min_dist.
Proof.
  revert best_match min_dist.
  induction stairs_b as [| row_b rest IH]; intros best_match min_dist; simpl;
    [reflexivity |].
  unfold similar_rows, centroids, trimmed_name in *. simpl.
  rewrite similar_id_share_two. unfold name_key.
  destruct (geometry row_b) as [geom_b |] eqn:Eg.
  - destruct (share_two name_a (Text.lower (Text.strip (row_name row_b)))); simpl.
    + rewrite Eg. simpl.
      destruct (Double.ltb (distance cent_a (centroid geom_b)) min_dist);
        apply IH.
    + apply IH.
  - destruct (share_two name_a (Text.lower (Text.strip (row_name row_b)))); simpl.
    + rewrite Eg. simpl. apply IH.
    + apply IH.
Qed.



(** ** Sorting the level identifiers *)

Lemma insert_sorted_perm (x : string) (xs : list string) :
  Permutation (x :: xs) (insert_sorted x xs).
Proof.
  induction xs as [| y ys IH]; simpl; [apply Permutation_refl |].
  destruct (String.leb x y); [apply Permutation_refl |].
  eapply perm_trans; [apply perm_swap |]. apply perm_skip. exact IH.
Qed.

Lemma sorted_perm (xs : list string) : Permutation xs (sorted xs).
Proof.
  induction xs as [| x xs IH]; simpl; [apply perm_nil |].
  eapply perm_trans; [apply perm_skip; exact IH | apply insert_sorted_perm].
Qed.

Lemma insert_sorted_sorted (x : string) (xs : list string) :
  LocallySorted str_le xs -> LocallySorted str_le (insert_sorted x xs).
Proof.
  induction 1 as [| y | y z l Hl IH Hyz]; simpl.
  - constructor.
  - destruct (String.leb x y) eqn:E.
    + constructor; [constructor | exact E].
    + constructor; [constructor |].
      destruct (String.leb_total x y) as [H | H]; [congruence | exact H].
  - destruct (String.leb x y) eqn:E.
    + constructor; [constructor; assumption | exact E].
    + simpl in IH. destruct (String.leb x z) eqn:E'.
      * constructor; [exact IH |].
        destruct (String.leb_total x y) as [H | H]; [congruence | exact H].
      * constructor; [exact IH | exact Hyz].
Qed.

Lemma sorted_sorted (xs : list string) : LocallySorted str_le (sorted xs).
Proof.
  induction xs as [| x xs IH]; simpl; [constructor |].
  apply insert_sorted_sorted. exact IH.
Qed.

Lemma sorted_In (x : string) (xs : list string) : In x (sorted xs) -> In x xs.
Proof.
  intro H. eapply Permutation_in; [| exact H].
  apply Permutation_sym. apply sorted_perm.
Qed.

Lemma lookup_in_keys (A : Type) (k : string) (d : list (string * A)) :
  In k (map fst d) -> exists a, lookup k d = Some a /\ In (k, a) d.
Proof.
  induction d as [| [k' a'] d IH]; simpl; [intros [] |].
  intro H. destruct (String.eqb k' k) eqn:E.
  - apply String.eqb_eq in E. subst k'. exists a'. split; [reflexivity | now left].
  - destruct H as [H | H].
    + subst k'. rewrite String.eqb_refl in E. discriminate.
    + destruct (IH H) as (a & Hl & Hin). exists a. split; [exact Hl | now right].
Qed.

(** ** Staircase linking: the pairs *)

Section Linking.

Variable distance : coord -> coord -> double.

Lemma centroids_In (rs : list Row) (c : coord) :
  In c (centroids rs) ->
  exists row geom, In row rs /\ geometry row = Some geom /\ centroid geom = c.
Proof.
  unfold centroids. intro H. apply in_flat_map in H.
  destruct H as (row & Hrow & Hc).
  destruct (geometry row) as [geom |] eqn:E; [| destruct Hc].
  destruct Hc as [Hc | []]. exists row, geom. auto.
Qed.

(** What a lower staircase contributes: nothing when no upper row passing
    the filter is at a distance below infinity, and otherwise its pair
    with the first nearest upper centroid among the rows passing the
    filter. *)
Lemma pair_of_spec (a b : floor_id) (stairs_b : list Row) (row_a : Row) :
  match geometry row_a with
  | None => pair_of distance a b stairs_b row_a = []
  | Some geom_a =>
      let cands := centroids (similar_rows (trimmed_name row_a) stairs_b) in
      ((forall m, In m cands ->
          Double.ltb (distance (centroid geom_a) m) PosInf = false) /\
       pair_of distance a b stairs_b row_a = []) \/
      (exists cb, nearest_of distance (centroid geom_a) cands cb /\
                  pair_of distance a b stairs_b row_a
                  = [((a, centroid geom_a), (b, cb))])
  end.
Proof.
  unfold pair_of. destruct (geometry row_a) as [geom_a |]; [| reflexivity].
  rewrite best_upper_scan. change (name_key row_a) with (trimmed_name row_a).
  pose proof (scan_nearest_spec distance (centroid geom_a)
                (centroids (similar_rows (trimmed_name row_a) stairs_b))) as Hs.
  destruct (scan_nearest distance (centroid geom_a)
              (centroids (similar_rows (trimmed_name row_a) stairs_b)) None PosInf)
    as [cb |].
  - right. exists cb. split; [exact Hs | reflexivity].
  - left. split; [exact Hs | reflexivity].
Qed.

Lemma link_levels_eq (floor_gdfs : list (floor_id * GeoDataFrame))
      (a b : floor_id) (rest : list floor_id) :
  link_levels distance floor_gdfs (a :: b :: rest)
  = match lookup a floor_gdfs, lookup b floor_gdfs with
    | Some gdf_a, Some gdf_b =>
        match staircases gdf_a, staircases gdf_b with
        | inr stairs_a, inr stairs_b =>
            match link_levels distance floor_gdfs (b :: rest) with
            | inr more =>
                inr (flat_map (pair_of distance a b stairs_b) stairs_a ++ more)
            | inl e => inl e
            end
        | inl e, _ => inl e
        | _, inl e => inl e
        end
    | _, _ => inl KeyError
    end.
Proof. reflexivity. Qed.

Lemma link_levels_total (floor_gdfs : list (floor_id * GeoDataFrame))
      (levels : list floor_id) :
  (forall lvl, In lvl levels ->
     exists rs, lookup lvl floor_gdfs = Some (Loaded rs)) ->
  exists pairs, link_levels distance floor_gdfs levels = inr pairs.
Proof.
  induction levels as [| a rest IH]; intro H; [exists []; reflexivity |].
  destruct rest as [| b rest']; [exists []; reflexivity |].
  destruct IH as (more & Hmore).
  { intros lvl Hl. apply H. right. exact Hl. }
  destruct (H a (or_introl eq_refl)) as (rs_a & Ha).
  destruct (H b (or_intror (or_introl eq_refl))) as (rs_b & Hb).
  rewrite link_levels_eq, Ha, Hb. cbn [staircases].
  rewrite Hmore. eexists. reflexivity.
Qed.

(** One step of the outer loop, inverted. *)
Lemma link_levels_step (floor_gdfs : list (floor_id * GeoDataFrame))
      (a b : floor_id) (rest : list floor_id) (pairs : list (gnode * gnode)) :
  link_levels distance floor_gdfs (a :: b :: rest) = inr pairs ->
  exists gdf_a gdf_b more,
    lookup a floor_gdfs = Some gdf_a /\ lookup b floor_gdfs = Some gdf_b /\
    link_levels distance floor_gdfs (b :: rest) = inr more /\
    pairs = flat_map (pair_of distance a b (stair_rows gdf_b)) (stair_rows gdf_a)
            ++ more.
Proof.
  rewrite link_levels_eq.
  destruct (lookup a floor_gdfs) as [gdf_a |]; [| discriminate].
  destruct (lookup b floor_gdfs) as [gdf_b |]; [| discriminate].
  destruct gdf_a as [| rs_a]; cbn [staircases]; [discriminate |].
  destruct gdf_b as [| rs_b]; [discriminate |].
  destruct (link_levels distance floor_gdfs (b :: rest)) as [e | more];
    [discriminate |].
  intro H. injection H as <-.
  exists (Loaded rs_a), (Loaded rs_b), more. repeat split.
Qed.

Lemma nearest_of_linked (floor_gdfs : list (floor_id * GeoDataFrame))
      (a b : floor_id) (gdf_a gdf_b : GeoDataFrame)
      (row_a : Row) (geom_a : Geometry) (cb : coord) :
  lookup a floor_gdfs = Some gdf_a -> lookup b floor_gdfs = Some gdf_b ->
  In row_a (stair_rows gdf_a) -> geometry row_a = Some geom_a ->
  nearest_of distance (centroid geom_a)
             (centroids (similar_rows (trimmed_name row_a) (stair_rows gdf_b))) cb ->
  linked_pair distance floor_gdfs a (centroid geom_a) b cb.
Proof.
  intros Ha Hb Hrow Hgeom Hnear.
  destruct (centroids_In _ _ (nearest_of_In Hnear))
    as (row_b & geom_b & Hin & Hgb & Hcb).
  apply filter_In in Hin. destruct Hin as (Hin & Hsim).
  exists gdf_a, gdf_b, row_a, geom_a, row_b, geom_b.
  repeat (split; [first [assumption | reflexivity] |]). exact Hnear.
Qed.

Lemma link_levels_sound (floor_gdfs : list (floor_id * GeoDataFrame))
      (levels : list floor_id) :
  forall pairs, link_levels distance floor_gdfs levels = inr pairs ->
  forall a ca b cb, In ((a, ca), (b, cb)) pairs ->
    adjacent_levels levels a b /\ linked_pair distance floor_gdfs a ca b cb.
Proof.
  induction levels as [| x rest IH]; intros pairs Hp a ca b cb Hin.
  { injection Hp as <-. destruct Hin. }
  destruct rest as [| y rest'].
  { injection Hp as <-. destruct Hin. }
  destruct (link_levels_step _ _ _ _ Hp)
    as (gdf_a & gdf_b & more & Ha & Hb & Hmore & ->).
  apply in_app_or in Hin. destruct Hin as [Hin | Hin].
  - apply in_flat_map in Hin. destruct Hin as (row_a & Hrow & Hin).
    pose proof (pair_of_spec x y (stair_rows gdf_b) row_a) as Hspec.
    destruct (geometry row_a) as [geom_a |] eqn:Hgeom;
      [| rewrite Hspec in Hin; destruct Hin].
    destruct Hspec as [(_ & E) | (c & Hnear & E)]; rewrite E in Hin;
      [destruct Hin |].
    destruct Hin as [Hin | []]. injection Hin as <- <- <- <-.
    split; [exists [], rest'; reflexivity |].
    eapply nearest_of_linked; eassumption.
  - destruct (IH more Hmore a ca b cb Hin) as ((before & after & E) & Hl).
    split; [| exact Hl].
    exists (x :: before), after. simpl. rewrite E. reflexivity.
Qed.

Lemma link_levels_complete (floor_gdfs : list (floor_id * GeoDataFrame))
      (levels : list floor_id) :
  forall pairs, link_levels distance floor_gdfs levels = inr pairs ->
  forall a b gdf_a gdf_b row_a geom_a m,
    adjacent_levels levels a b ->
    lookup a floor_gdfs = Some gdf_a -> lookup b floor_gdfs = Some gdf_b ->
    In row_a (stair_rows gdf_a) -> geometry row_a = Some geom_a ->
    In m (centroids (similar_rows (trimmed_name row_a) (stair_rows gdf_b))) ->
    below_inf (distance (centroid geom_a) m) ->
    exists cb, In ((a, centroid geom_a), (b, cb)) pairs /\
               linked_pair distance floor_gdfs a (centroid geom_a) b cb.
Proof.
  induction levels as [| x rest IH];
    intros pairs Hp a b gdf_a gdf_b row_a geom_a m (before & after & E)
           Ha Hb Hrow Hgeom Hm Hbelow.
  { destruct before; discriminate. }
  destruct rest as [| y rest'].
  { destruct before as [| ? [| ? ?]]; discriminate. }
  destruct (link_levels_step _ _ _ _ Hp)
    as (gdf_x & gdf_y & more & Hx & Hy & Hmore & ->).
  destruct before as [| x' before'].
  - injection E as -> -> _.
    rewrite Ha in Hx. injection Hx as <-.
    rewrite Hb in Hy. injection Hy as <-.
    pose proof (pair_of_spec a b (stair_rows gdf_b) row_a) as Hspec.
    rewrite Hgeom in Hspec.
    destruct Hspec as [(Hnone & _) | (cb & Hnear & Hpair)].
    { unfold below_inf in Hbelow. rewrite (Hnone m Hm) in Hbelow. discriminate. }
    exists cb. split.
    + apply in_or_app. left. apply in_flat_map. exists row_a.
      split; [exact Hrow |]. rewrite Hpair. now left.
    + eapply nearest_of_linked; eassumption.
  - injection E as -> E.
    destruct (IH more Hmore a b gdf_a gdf_b row_a geom_a m) as (cb & Hin & Hl);
      try assumption.
    { exists before', after. exact E. }
    exists cb. split; [| exact Hl]. apply in_or_app. right. exact Hin.
Qed.

End Linking.

(** C6, as amended: [get_stair_pairs] returns (no exception) whenever
    every floor has a loaded frame.  Its levels are the floor identifiers
    sorted; every pair it outputs joins two floors that are neighbours in
    that order, a lower staircase and an upper staircase whose trimmed
    lower-cased names have the same first two or the same last two
    characters ([share_two]), the upper one being at a distance below
    infinity and the nearest, first on ties, among the upper staircases
    that pass this filter ([nearest_of]); and every lower staircase that
    has such a candidate at a distance below infinity is paired so. *)
Theorem stair_pairs_filtered_nearest
        (distance : coord -> coord -> double)
        (floor_gdfs : list (floor_id * GeoDataFrame)) :
  let levels := sorted (map fst floor_gdfs) in
  (Permutation (map fst floor_gdfs) levels /\ LocallySorted str_le levels) /\
  ((forall lvl gdf, In (lvl, gdf) floor_gdfs -> gdf <> NoData) ->
   exists pairs, get_stair_pairs distance floor_gdfs = inr pairs) /\
  (forall pairs, get_stair_pairs distance floor_gdfs = inr pairs ->
     (forall a ca b cb, In ((a, ca), (b, cb)) pairs ->
        adjacent_levels levels a b /\
        exists gdf_a gdf_b row_a geom_a row_b geom_b,
          lookup a floor_gdfs = Some gdf_a /\ lookup b floor_gdfs = Some gdf_b /\
          In row_a (stair_rows gdf_a) /\ geometry row_a = Some geom_a /\
          centroid geom_a = ca /\
          In row_b (stair_rows gdf_b) /\ geometry row_b = Some geom_b /\
          centroid geom_b = cb /\
          share_two (Text.lower (Text.strip (row_name row_a)))
                    (Text.lower (Text.strip (row_name row_b))) = true /\
          nearest_of distance ca
            (centroids (similar_rows (Text.lower (Text.strip (row_name row_a)))
                                     (stair_rows gdf_b))) cb) /\
     (forall a b gdf_a gdf_b row_a geom_a m,
        adjacent_levels levels a b ->
        lookup a floor_gdfs = Some gdf_a -> lookup b floor_gdfs = Some gdf_b ->
        In row_a (stair_rows gdf_a) -> geometry row_a = Some geom_a ->
        In m (centroids (similar_rows (Text.lower (Text.strip (row_name row_a)))
                                      (stair_rows gdf_b))) ->
        Double.ltb (distance (centroid geom_a) m) PosInf = true ->
        exists cb, In ((a, centroid geom_a), (b, cb)) pairs /\
                   linked_pair distance floor_gdfs a (centroid geom_a) b cb)).
Proof.
  intro levels. split; [split; [apply sorted_perm | apply sorted_sorted] |].
  split.
  - intro Hloaded. apply link_levels_total.
    intros lvl Hl. apply sorted_In in Hl.
    destruct (lookup_in_keys _ _ Hl) as (gdf & Hlook & Hin).
    destruct gdf as [| rs]; [destruct (Hloaded _ _ Hin eq_refl) |].
    exists rs. exact Hlook.
  - intros pairs Hp. split.
    + exact (@link_levels_sound distance floor_gdfs levels pairs Hp).
    + exact (@link_levels_complete distance floor_gdfs levels pairs Hp).
Qed.

(** C6, as stated, fails: the staircases "S1" of two neighbouring floors
    pass the name filter, but the upper one lies at a distance that
    overflows to infinity, and the lower one is left without a pair. *)
Lemma far_staircase_left_unpaired :
  sorted (map fst Sample.far_stairs) = ["Level_1"; "Level_2"] /\
  lookup "Level_1" Sample.far_stairs = Some (Loaded [Sample.low_stair]) /\
  lookup "Level_2" Sample.far_stairs = Some (Loaded [Sample.far_stair]) /\
  similar_rows (trimmed_name Sample.low_stair) (stair_rows (Loaded [Sample.far_stair]))
  = [Sample.far_stair] /\
  Double.euclid (0, 0) (Sample.far, 0) = PosInf /\
  get_stair_pairs Double.euclid Sample.far_stairs = inr [].
Proof. repeat split; vm_compute; reflexivity. Qed.

(** ** Room resolution *)

Lemma nonempty_true (s : string) : s <> ""%string -> Text.nonempty s = true.
Proof.
  intro H. unfold Text.nonempty.
  destruct (String.eqb_spec s ""); [contradiction | reflexivity].
Qed.

Lemma guarded_find (A : Type) (b : bool) (f : A -> bool) (l : list A) :
  (if b then find f l else None) = find (fun x => b && f x) l.
Proof.
  destruct b; simpl; [reflexivity |].
  induction l as [| x l IH]; simpl; [reflexivity | exact IH].
Qed.

Lemma find_first_passing (A : Type) (f : A -> bool) (l : list A) (x : A) :
  In x l -> f x = true ->
  exists r0, find f l = Some r0 /\ first_passing f l r0.
Proof.
  induction l as [| y l IH]; intros Hin Hx; [destruct Hin |]. simpl.
  destruct (f y) eqn:E.
  - exists y. split; [reflexivity |].
    exists [], l. split; [reflexivity |]. split; [exact E | intros z []].
  - destruct Hin as [-> | Hin]; [congruence |].
    destruct (IH Hin Hx) as (r0 & Hf & before & after & -> & Hr0 & Hb).
    exists r0. split; [exact Hf |].
    exists (y :: before), after. split; [reflexivity |]. split; [exact Hr0 |].
    intros z [<- | Hz]; [exact E | apply Hb; exact Hz].
Qed.

Lemma find_all_false (A : Type) (f : A -> bool) (l : list A) :
  (forall x, In x l -> f x = false) -> find f l = None.
Proof.
  intro H. destruct (find f l) as [r |] eqn:E; [| reflexivity].
  apply find_some in E. destruct E as (Hin & Hr).
  rewrite (H r Hin) in Hr. discriminate.
Qed.

Lemma filter_first_passing (A : Type) (f : A -> bool) (l : list A) (x : A) :
  In x l -> f x = true ->
  exists r0 more, filter f l = r0 :: more /\ first_passing f l r0.
Proof.
  induction l as [| y l IH]; intros Hin Hx; [destruct Hin |]. simpl.
  destruct (f y) eqn:E.
  - exists y, (filter f l). split; [reflexivity |].
    exists [], l. split; [reflexivity |]. split; [exact E | intros z []].
  - destruct Hin as [-> | Hin]; [congruence |].
    destruct (IH Hin Hx) as (r0 & more & Hf & before & after & -> & Hr0 & Hb).
    exists r0, more. split; [exact Hf |].
    exists (y :: before), after. split; [reflexivity |]. split; [exact Hr0 |].
    intros z [<- | Hz]; [exact E | apply Hb; exact Hz].
Qed.

Lemma keep_alnum_nonempty (s : string) : Text.keep_alnum s <> "" -> s <> "".
Proof. intros H E. subst s. apply H. reflexivity. Qed.

Lemma trimmed_nonempty (s : string) : Text.lower (Text.strip s) <> "" -> s <> "".
Proof. intros H E. subst s. apply H. reflexivity. Qed.

(** On a query text that is not empty after trimming, the guards of the
    program are open: its tests are the stage tests. *)
Lemma guarded_test_open (s : stage) (input_str : string) (r : Room) :
  Text.lower (Text.strip input_str) <> "" ->
  guarded_test s input_str r = stage_test s input_str r.
Proof.
  intro Hq. unfold guarded_test, stage_test, canonical.
  cbn [fst snd].
  destruct s; unfold exact_name, exact_type, name_substring, alnum_name,
                type_substring; rewrite ?(nonempty_true Hq); try reflexivity.
  destruct (Text.nonempty (Text.keep_alnum (Text.lower (Text.strip input_str))))
    eqn:Eq; [| reflexivity].
  cbn [andb].
  destruct (String.eqb_spec
              (Text.keep_alnum (Text.lower (Text.strip (room_name r))))
              (Text.keep_alnum (Text.lower (Text.strip input_str)))) as [E | E].
  - rewrite E, Eq. reflexivity.
  - apply andb_false_r.
Qed.

Section Resolution.

Variable distance : coord -> coord -> double.
Variable py_str : json -> string.
Variable get_close_matches : string -> list string -> list string.
Variable close_matches_other : json -> list string -> exn + list string.
Variable w : World.

Local Abbreviation find_match :=
  (find_best_match distance py_str get_close_matches close_matches_other w).
Local Abbreviation hit_room := (resolved distance w).
Local Abbreviation fuzzy := (close get_close_matches close_matches_other w).

(** A falsy query (the empty string, [None], zero, an empty list or
    dict) is rejected before any room is looked at. *)
Lemma falsy_query_fails (input_str : json) :
  truthy input_str = false -> find_match input_str = inr (None, None, []).
Proof. intro H. unfold find_best_match. rewrite H. reflexivity. Qed.

Lemma empty_query_fails : find_match (JString "") = inr (None, None, []).
Proof. reflexivity. Qed.

(** For a truthy query the program is the cascade of the five guarded
    tests over [all_rooms], followed by the fuzzy suggestions. *)
Lemma find_best_match_cascade (input_str : json) :
  truthy input_str = true ->
  find_match input_str =
  let rooms := all_rooms w in
  let q := text_of py_str input_str in
  let hit s r :=
    inr (hit_room r (match s with
                     | ExactName | AlnumName => [room_name r]
                     | ExactType | TypeSubstring => [room_type r]
                     | NameSubstring =>
                         map room_name
                             (firstn 10 (filter (guarded_test NameSubstring q) rooms))
                     end)) in
  match find (guarded_test ExactName q) rooms with
  | Some r => hit ExactName r
  | None =>
  match find (guarded_test ExactType q) rooms with
  | Some r => hit ExactType r
  | None =>
  match filter (guarded_test NameSubstring q) rooms with
  | r :: _ => hit NameSubstring r
  | [] =>
  match find (guarded_test AlnumName q) rooms with
  | Some r => hit AlnumName r
  | None =>
  match find (guarded_test TypeSubstring q) rooms with
  | Some r => hit TypeSubstring r
  | None =>
      match fuzzy input_str with
      | inr suggestions => inr (None, None, suggestions)
      | inl e => inl e
      end
  end end end end end.
Proof.
  intro Hne. unfold find_best_match.
  rewrite Hne. cbn [negb].
  rewrite guarded_find. reflexivity.
Qed.

Lemma find_ext (A : Type) (f g : A -> bool) (l : list A) :
  (forall x, f x = g x) -> find f l = find g l.
Proof.
  intro H. induction l as [| x l IH]; simpl; [reflexivity |].
  rewrite H, IH. reflexivity.
Qed.

(** For a query text that is not empty after trimming, the program is the
    cascade of the five stage tests. *)
Lemma find_best_match_stages (input_str : string) :
  Text.lower (Text.strip input_str) <> "" ->
  find_match (JString input_str) =
  let rooms := all_rooms w in
  let hit s r := inr (hit_room r (stage_candidates s input_str rooms r)) in
  match find (stage_test ExactName input_str) rooms with
  | Some r => hit ExactName r
  | None =>
  match find (stage_test ExactType input_str) rooms with
  | Some r => hit ExactType r
  | None =>
  match filter (stage_test NameSubstring input_str) rooms with
  | r :: _ => hit NameSubstring r
  | [] =>
  match find (stage_test AlnumName input_str) rooms with
  | Some r => hit AlnumName r
  | None =>
  match find (stage_test TypeSubstring input_str) rooms with
  | Some r => hit TypeSubstring r
  | None => inr (None, None, get_close_matches input_str (match_candidates w))
  end end end end end.
Proof.
  intro Hq. rewrite find_best_match_cascade.
  2:{ apply nonempty_true. exact (trimmed_nonempty Hq). }
  cbv zeta. cbn [text_of close].
  rewrite !(find_ext _ _ _ (fun r => @guarded_test_open _ input_str r Hq)).
  rewrite (filter_ext _ _ (fun r => @guarded_test_open NameSubstring input_str r Hq)).
  reflexivity.
Qed.

(** C3, as amended: the cascade is ordered.  For a query that is not
    empty after trimming, if some room passes the test of stage [s]
    (equality of the trimmed lower-cased name, of the type, name
    substring, equality of non-empty alphanumeric normal forms, type
    substring) and no room passes the test of an earlier stage, the
    answer is the location, the centroid and the candidate list of the
    first room passing stage [s]; stages after [s] play no part.  With
    [s = ExactName] (no earlier stage): a query equal to a room's name
    resolves to a room with exactly that name, whatever other names
    contain the query. *)
Theorem cascade_first_stage_wins (input_str : string) (s : stage) (r : Room) :
  Text.lower (Text.strip input_str) <> "" ->
  In r (all_rooms w) ->
  stage_test s input_str r = true ->
  (forall s' r', (stage_rank s' < stage_rank s)%nat -> In r' (all_rooms w) ->
                 stage_test s' input_str r' = false) ->
  exists r0,
    first_passing (stage_test s input_str) (all_rooms w) r0 /\
    find_match (JString input_str)
    = inr (Some (floor r0,
                 connect_to_corridor distance (coords r0) (graph_of w (floor r0))),
           Some (coords r0),
           stage_candidates s input_str (all_rooms w) r0).
Proof.
  intros Hne Hin Hr Hearlier.
  rewrite (@find_best_match_stages input_str Hne). cbv zeta.
  assert (Hnone : forall s', (stage_rank s' < stage_rank s)%nat ->
            find (stage_test s' input_str) (all_rooms w) = None).
  { intros s' Hlt. apply find_all_false. intros x Hx.
    apply Hearlier; assumption. }
  assert (Hnil : (stage_rank NameSubstring < stage_rank s)%nat ->
            filter (stage_test NameSubstring input_str) (all_rooms w) = []).
  { intro Hlt. apply filter_none. intros x Hx. apply Hearlier; assumption. }
  destruct s; simpl in Hnone, Hnil.
  - destruct (find_first_passing _ _ _ Hin Hr) as (r0 & -> & Hfirst).
    exists r0. split; [exact Hfirst | reflexivity].
  - rewrite (Hnone ExactName) by (simpl; lia).
    destruct (find_first_passing _ _ _ Hin Hr) as (r0 & -> & Hfirst).
    exists r0. split; [exact Hfirst | reflexivity].
  - rewrite (Hnone ExactName), (Hnone ExactType) by (simpl; lia).
    destruct (filter_first_passing _ _ _ Hin Hr) as (r0 & more & E & Hfirst).
    rewrite E. exists r0. split; [exact Hfirst |].
    unfold stage_candidates. rewrite E. reflexivity.
  - rewrite (Hnone ExactName), (Hnone ExactType) by (simpl; lia).
    rewrite Hnil by lia.
    destruct (find_first_passing _ _ _ Hin Hr) as (r0 & -> & Hfirst).
    exists r0. split; [exact Hfirst | reflexivity].
  - rewrite (Hnone ExactName), (Hnone ExactType), (Hnone AlnumName)
      by (simpl; lia).
    rewrite Hnil by lia.
    destruct (find_first_passing _ _ _ Hin Hr) as (r0 & -> & Hfirst).
    exists r0. split; [exact Hfirst | reflexivity].
Qed.

(** C4, as amended: when query and room name are equal and not empty
    after lower-casing and removing every non-alphanumeric character, and
    no room matches at the three earlier stages, the query resolves at
    the normalised stage: the answer is the location and the centroid of
    the first room whose normalised name equals the normalised query,
    with its name as the only candidate. *)
Theorem alnum_stage_resolves (input_str : string) (r : Room) :
  In r (all_rooms w) ->
  alnum_equal input_str r ->
  Text.keep_alnum (Text.lower (Text.strip input_str)) <> ""%string ->
  no_earlier_match (all_rooms w) input_str ->
  exists r0,
    first_passing (stage_test AlnumName input_str) (all_rooms w) r0 /\
    alnum_equal input_str r0 /\
    find_match (JString input_str)
    = inr (Some (floor r0,
                 connect_to_corridor distance (coords r0) (graph_of w (floor r0))),
           Some (coords r0),
           [room_name r0]).
Proof.
  intros Hin Heq Hq Hearly.
  assert (Hne : Text.lower (Text.strip input_str) <> ""%string)
    by exact (keep_alnum_nonempty Hq).
  assert (Hr : stage_test AlnumName input_str r = true).
  { unfold stage_test. unfold alnum_equal in Heq.
    rewrite Heq, (nonempty_true Hq), String.eqb_refl. reflexivity. }
  rewrite (@find_best_match_stages input_str Hne). cbv zeta.
  rewrite (find_all_false _ _ (fun x Hx => proj1 (Hearly x Hx))).
  rewrite (find_all_false _ _ (fun x Hx => proj1 (proj2 (Hearly x Hx)))).
  rewrite (filter_none _ _ (fun x Hx => proj2 (proj2 (Hearly x Hx)))).
  destruct (find_first_passing _ _ _ Hin Hr) as (r0 & -> & Hfirst).
  exists r0. split; [exact Hfirst |]. split; [| reflexivity].
  destruct Hfirst as (_ & _ & _ & Ht & _).
  unfold stage_test in Ht.
  apply andb_prop in Ht. destruct Ht as (_ & Ht).
  apply String.eqb_eq in Ht. exact Ht.
Qed.

End Resolution.

Lemma cascade_first_stage_wins_witness :
  let w := Sample.world_of Sample.two_labs in
  let r := mkRoom "Level_1" "Lab" "Lab 1" (Sample.pt 5 1) in
  Text.lower (Text.strip "lab 1") <> ""%string /\
  In r (all_rooms w) /\
  stage_test ExactName "lab 1" r = true /\
  (forall s' r', (stage_rank s' < stage_rank ExactName)%nat ->
                 In r' (all_rooms w) -> stage_test s' "lab 1" r' = false) /\
  exists r0,
    first_passing (stage_test ExactName "lab 1") (all_rooms w) r0 /\
    find_best_match Double.euclid Sample.show Sample.no_suggestions
                    Sample.not_iterable w (JString "lab 1")
    = inr (Some (floor r0,
                 connect_to_corridor Double.euclid (coords r0)
                                     (graph_of w (floor r0))),
           Some (coords r0),
           stage_candidates ExactName "lab 1" (all_rooms w) r0).
Proof.
  intros w r.
  assert (H1 : Text.lower (Text.strip "lab 1") <> ""%string)
    by (vm_compute; discriminate).
  assert (H2 : In r (all_rooms w)) by (right; left; reflexivity).
  assert (H3 : stage_test ExactName "lab 1" r = true) by reflexivity.
  assert (H4 : forall s' r', (stage_rank s' < stage_rank ExactName)%nat ->
                 In r' (all_rooms w) -> stage_test s' "lab 1" r' = false).
  { intros s' r' Hlt _. destruct s'; simpl in Hlt; lia. }
  exact (conj H1 (conj H2 (conj H3 (conj H4
    (@cascade_first_stage_wins Double.euclid Sample.show Sample.no_suggestions
       Sample.not_iterable w "lab 1" ExactName r H1 H2 H3 H4))))).
Defined.

(** The scenario of C3 evaluated: "Lab 10" comes first and contains the
    query, the room named "Lab 1" is the answer. *)
Example exact_name_beats_substring :
  find_best_match Double.euclid Sample.show Sample.no_suggestions
                  Sample.not_iterable
                  (Sample.world_of Sample.two_labs) (JString "lab 1")
  = inr (Some ("Level_1"%string, None), Some (Sample.pt 5 1), ["Lab 1"%string]).
Proof. vm_compute. reflexivity. Qed.

(** C3, as stated, fails where the program guards a stage.  The empty
    query equals the name of an unnamed room and is rejected all the
    same; the query of one blank is, once trimmed, a substring of the
    name "101", and the query "-" has the same (empty) alphanumeric
    normal form as the name "+", yet neither is resolved. *)
Lemma unguarded_stage_match_ignored :
  (stage_test ExactName ""
              (mkRoom "Level_1" "Office" "" (Sample.pt 1 1)) = true /\
   all_rooms (Sample.world_of Sample.unnamed_room)
   = [mkRoom "Level_1" "Office" "" (Sample.pt 1 1)] /\
   find_best_match Double.euclid Sample.show Sample.no_suggestions
                   Sample.not_iterable
                   (Sample.world_of Sample.unnamed_room) (JString "")
   = inr (None, None, [])) /\
  (stage_test NameSubstring " "
              (mkRoom "Level_1" "Office" "101" (Sample.pt 1 1)) = true /\
   all_rooms (Sample.world_of Sample.office_only)
   = [mkRoom "Level_1" "Office" "101" (Sample.pt 1 1)] /\
   find_best_match Double.euclid Sample.show Sample.no_suggestions
                   Sample.not_iterable
                   (Sample.world_of Sample.office_only) (JString " ")
   = inr (None, None, [])) /\
  (Text.keep_alnum (Text.lower (Text.strip "+"))
   = Text.keep_alnum (Text.lower (Text.strip "-")) /\
   all_rooms (Sample.world_of Sample.plus_room)
   = [mkRoom "Level_1" "Office" "+" (Sample.pt 1 1)] /\
   find_best_match Double.euclid Sample.show Sample.no_suggestions
                   Sample.not_iterable
                   (Sample.world_of Sample.plus_room) (JString "-")
   = inr (None, None, [])).
Proof. repeat split; vm_compute; reflexivity. Qed.

Lemma alnum_stage_resolves_witness :
  let w := Sample.world_of Sample.one_stair in
  let r := mkRoom "Level_2" "Staircase" "s201" (Sample.pt 1 1) in
  In r (all_rooms w) /\
  alnum_equal "S 2-01" r /\
  Text.keep_alnum (Text.lower (Text.strip "S 2-01")) <> ""%string /\
  no_earlier_match (all_rooms w) "S 2-01" /\
  exists r0,
    first_passing (stage_test AlnumName "S 2-01") (all_rooms w) r0 /\
    alnum_equal "S 2-01" r0 /\
    find_best_match Double.euclid Sample.show Sample.no_suggestions
                    Sample.not_iterable w (JString "S 2-01")
    = inr (Some (floor r0,
                 connect_to_corridor Double.euclid (coords r0)
                                     (graph_of w (floor r0))),
           Some (coords r0),
           [room_name r0]).
Proof.
  intros w r.
  assert (H1 : In r (all_rooms w)) by (left; reflexivity).
  assert (H2 : alnum_equal "S 2-01" r) by reflexivity.
  assert (H3 : Text.keep_alnum (Text.lower (Text.strip "S 2-01")) <> ""%string)
    by (vm_compute; discriminate).
  assert (H4 : no_earlier_match (all_rooms w) "S 2-01").
  { intros r' [<- | []]. repeat split. }
  exact (conj H1 (conj H2 (conj H3 (conj H4
    (@alnum_stage_resolves Double.euclid Sample.show Sample.no_suggestions
       Sample.not_iterable w "S 2-01" r H1 H2 H3 H4))))).
Defined.

(** The example of C4 evaluated: "S 2-01" is answered with the staircase
    named "s201". *)
Example normalised_query_resolves :
  find_best_match Double.euclid Sample.show Sample.no_suggestions
                  Sample.not_iterable
                  (Sample.world_of Sample.one_stair) (JString "S 2-01")
  = inr (Some ("Level_2"%string, None), Some (Sample.pt 1 1), ["s201"%string]).
Proof. vm_compute. reflexivity. Qed.

(** C4 as stated fails: the query "-" and the room name "+" are equal
    (both empty) after normalisation and no earlier stage matches, yet the
    query is not resolved, because the normalised stage skips empty
    normal forms. *)
Lemma alnum_stage_skips_empty_normal_form :
  let w := Sample.world_of Sample.plus_room in
  let r := mkRoom "Level_1" "Office" "+" (Sample.pt 1 1) in
  In r (all_rooms w) /\
  alnum_equal "-" r /\
  no_earlier_match (all_rooms w) "-" /\
  find_best_match Double.euclid Sample.show Sample.no_suggestions
                  Sample.not_iterable w (JString "-")
  = inr (None, None, []).
Proof.
  intros w r. split; [left; reflexivity |]. split; [reflexivity |].
  split; [| vm_compute; reflexivity].
  intros r' [<- | []]. repeat split.
Qed.

(** C2 at the failing input: the one-blank query against a room without a
    name is answered with that room (candidate list [[""]]), not with a
    failure: only the literally empty query is rejected up front
    ([empty_query_fails]), and the exact-name test lacks the non-empty
    guard of the substring and normalised tests. *)
Theorem blank_query_matches_unnamed_room :
  find_best_match Double.euclid Sample.show Sample.no_suggestions
                  Sample.not_iterable
                  (Sample.world_of Sample.unnamed_room) (JString " ")
  = inr (Some ("Level_1"%string, None), Some (Sample.pt 1 1), [""%string]).
Proof. vm_compute. reflexivity. Qed.

(** C1 at the failing input: the floor of room "101" has a graph without
    nodes; the query "101" is answered with the location
    [("Level_1", None)], which [get_path] takes for a found start (a
    non-empty tuple is true), and the search then raises [NodeNotFound],
    which the handler does not catch. *)
Theorem unreachable_match_reported_as_found :
  let w := Sample.world_of Sample.office_only in
  nodes (graph_of w "Level_1") = [] /\
  find_best_match Double.euclid Sample.show Sample.no_suggestions
                  Sample.not_iterable w (JString "101")
  = inr (Some ("Level_1"%string, None), Some (Sample.pt 1 1), ["101"%string]) /\
  forall float_sum astar_path,
    get_path Double.euclid Sample.show float_sum Sample.no_suggestions
             Sample.not_iterable astar_path w
             (Sample.request (JString "101") (JString "101"))
    = Uncaught NodeNotFound.
Proof.
  intro w. split; [reflexivity |]. split; [vm_compute; reflexivity |].
  intros float_sum astar_path. vm_compute. reflexivity.
Qed.

(** Every room of a started program lives on a floor that has a graph:
    the lookup in [graph_of] never misses. *)
Lemma startup_room_has_graph (distance : coord -> coord -> double)
      (floor_gdfs : list (floor_id * GeoDataFrame)) (w : World) (r : Room) :
  startup distance floor_gdfs = inr w ->
  In r (all_rooms w) ->
  exists G, lookup (floor r) (floor_graphs w) = Some G.
Proof.
  unfold startup.
  destruct (get_stair_pairs distance floor_gdfs) as [e | pairs]; [discriminate |].
  intro H. injection H as <-. cbn [all_rooms floor_graphs].
  intro Hin. apply in_flat_map in Hin. destruct Hin as (entry & Hentry & Hr).
  assert (Hfloor : floor r = fst entry).
  { unfold rooms_of_floor in Hr.
    destruct (gdf_empty (snd entry)); [destruct Hr |].
    apply in_flat_map in Hr. destruct Hr as (row & _ & Hr).
    destruct (geometry row); [| destruct Hr].
    destruct Hr as [<- | []]. reflexivity. }
  rewrite Hfloor.
  destruct (@lookup_in_keys (Graph coord) (fst entry)
              (map (fun e => (fst e, fst (snd e)))
                   (map (fun e => (fst e, floor_graph_and_stairs distance (snd e)))
                        floor_gdfs))) as (G & HG & _).
  { rewrite !map_map. cbn [fst]. apply in_map. exact Hentry. }
  exists G. exact HG.
Qed.

(** A matched room whose floor graph has no nodes is still answered with
    a location, one without a node. *)
Lemma resolved_without_nodes (distance : coord -> coord -> double)
      (w : World) (r : Room) (candidates : list string) :
  nodes (graph_of w (floor r)) = [] ->
  resolved distance w r candidates
  = (Some (floor r, None), Some (coords r), candidates).
Proof.
  intro H. unfold resolved, connect_to_corridor. rewrite H. reflexivity.
Qed.

(** A query of blanks only is not rejected: it is answered with the first
    room whose name is empty after trimming, if there is one. *)
Lemma blank_query_resolves (distance : coord -> coord -> double)
      (py_str : json -> string)
      (get_close_matches : string -> list string -> list string)
      (close_matches_other : json -> list string -> exn + list string)
      (w : World) (input_str : string) (r : Room) :
  input_str <> "" -> Text.strip input_str = "" ->
  In r (all_rooms w) -> Text.strip (room_name r) = "" ->
  exists r0, In r0 (all_rooms w) /\ Text.strip (room_name r0) = "" /\
    find_best_match distance py_str get_close_matches close_matches_other w
                    (JString input_str)
    = inr (Some (floor r0,
                 connect_to_corridor distance (coords r0) (graph_of w (floor r0))),
           Some (coords r0), [room_name r0]).
Proof.
  intros Hne Hblank Hin Hname.
  rewrite (@find_best_match_cascade distance py_str get_close_matches
             close_matches_other w (JString input_str) (nonempty_true Hne)).
  cbv zeta. cbn [text_of].
  assert (Hq : fst (canonical input_str) = "").
  { unfold canonical. cbn [fst]. rewrite Hblank. reflexivity. }
  assert (Hr : guarded_test ExactName input_str r = true).
  { unfold guarded_test, exact_name. rewrite Hq, Hname. reflexivity. }
  destruct (find_first_passing _ _ _ Hin Hr)
    as (r0 & -> & before & after & E & Ht & _).
  exists r0. split; [rewrite E; apply in_or_app; right; now left |].
  split; [| reflexivity].
  unfold guarded_test, exact_name in Ht. rewrite Hq in Ht.
  apply String.eqb_eq in Ht.
  destruct (Text.strip (room_name r0)); [reflexivity | discriminate].
Qed.

(** ** Graphs: adjacency after [add_node] and [add_edge] *)

Section GraphFacts.

Variable V : Type.
Variable V_eq_dec : forall a b : V, {a = b} + {a <> b}.

Local Abbreviation get := (dict_get V_eq_dec).
Local Abbreviation put := (dict_set V_eq_dec).
Local Abbreviation weight_of := (edge_weight V_eq_dec).
Local Abbreviation is_node := (has_node V_eq_dec).
Local Abbreviation eqv := (veqb V_eq_dec).

Lemma dict_get_set_same (A : Type) (k : V) (a : A) (d : list (V * A)) :
  get k (put k a d) = Some a.
Proof.
  induction d as [| [k' a'] d IH]; simpl.
  - destruct (V_eq_dec k k); [reflexivity | contradiction].
  - destruct (V_eq_dec k' k) as [E | E]; simpl.
    + destruct (V_eq_dec k' k); [reflexivity | contradiction].
    + destruct (V_eq_dec k' k); [contradiction | exact IH].
Qed.

Lemma dict_get_set_other (A : Type) (k k' : V) (a : A) (d : list (V * A)) :
  k <> k' -> get k' (put k a d) = get k' d.
Proof.
  intro Hne. induction d as [| [k0 a0] d IH]; simpl.
  - destruct (V_eq_dec k k'); [contradiction | reflexivity].
  - destruct (V_eq_dec k0 k) as [E | E]; simpl.
    + subst k0. destruct (V_eq_dec k k'); [contradiction | reflexivity].
    + destruct (V_eq_dec k0 k'); [reflexivity | exact IH].
Qed.

Lemma dict_get_snoc (A : Type) (k k' : V) (a : A) (d : list (V * A)) :
  get k (d ++ [(k', a)])
  = match get k d with
    | Some x => Some x
    | None => if V_eq_dec k' k then Some a else None
    end.
Proof.
  induction d as [| [k0 a0] d IH]; simpl; [reflexivity |].
  destruct (V_eq_dec k0 k); [reflexivity | exact IH].
Qed.

Lemma edge_weight_add_node (v : V) (G : Graph V) (x y : V) :
  weight_of (add_node V_eq_dec v G) x y = weight_of G x y.
Proof.
  unfold add_node. destruct (is_node G v); [reflexivity |].
  unfold edge_weight. rewrite dict_get_snoc.
  destruct (get x G); [reflexivity |].
  destruct (V_eq_dec v x); reflexivity.
Qed.

Lemma has_node_add_node (v : V) (G : Graph V) (x : V) :
  is_node (add_node V_eq_dec v G) x = is_node G x || eqv v x.
Proof.
  unfold add_node. destruct (is_node G v) eqn:Ev.
  - unfold veqb. destruct (V_eq_dec v x) as [E | E].
    + subst x. rewrite Ev. reflexivity.
    + rewrite orb_false_r. reflexivity.
  - unfold has_node, veqb. rewrite dict_get_snoc.
    destruct (get x G); [reflexivity |].
    destruct (V_eq_dec v x); reflexivity.
Qed.

Lemma has_node_self (v : V) (G : Graph V) :
  is_node (add_node V_eq_dec v G) v = true.
Proof.
  rewrite has_node_add_node. unfold veqb.
  destruct (V_eq_dec v v); [apply orb_true_r | contradiction].
Qed.

Lemma has_node_set_adj (u v : V) (c : double) (G : Graph V) (x : V) :
  is_node (set_adj V_eq_dec u v c G) x = is_node G x.
Proof.
  unfold set_adj. destruct (get u G) as [nbrs |] eqn:E; [| reflexivity].
  unfold has_node. destruct (V_eq_dec u x) as [Eq | Ne].
  - subst x. rewrite dict_get_set_same, E. reflexivity.
  - rewrite dict_get_set_other by exact Ne. reflexivity.
Qed.

Lemma edge_weight_set_adj (u v : V) (c : double) (G : Graph V) (x y : V) :
  weight_of (set_adj V_eq_dec u v c G) x y
  = if is_node G u && eqv u x && eqv v y then Some c else weight_of G x y.
Proof.
  unfold set_adj, has_node, veqb.
  destruct (get u G) as [nbrs |] eqn:E; [| reflexivity]. simpl.
  unfold edge_weight.
  destruct (V_eq_dec u x) as [Ex | Nx]; simpl.
  - subst x. rewrite dict_get_set_same.
    destruct (V_eq_dec v y) as [Ey | Ny].
    + subst y. apply dict_get_set_same.
    + rewrite dict_get_set_other by exact Ny. rewrite E. reflexivity.
  - rewrite dict_get_set_other by exact Nx. reflexivity.
Qed.

(** After [G.add_edge(u, v, weight=c)] the weight between [u] and [v] is
    [c] in both directions and every other weight is as before. *)
Lemma edge_weight_add_edge (u v : V) (c : double) (G : Graph V) (x y : V) :
  weight_of (add_edge V_eq_dec u v c G) x y
  = if (eqv u x && eqv v y) || (eqv v x && eqv u y) then Some c
    else weight_of G x y.
Proof.
  unfold add_edge.
  rewrite edge_weight_set_adj, has_node_set_adj, has_node_self.
  rewrite edge_weight_set_adj.
  rewrite has_node_add_node, has_node_self. simpl.
  rewrite !edge_weight_add_node.
  destruct (eqv v x && eqv u y); [rewrite orb_true_r; reflexivity |].
  rewrite orb_false_r. reflexivity.
Qed.

Lemma symmetric_empty : symmetric V_eq_dec (@empty_graph V).
Proof. intros u v. reflexivity. Qed.

Lemma symmetric_add_node (v : V) (G : Graph V) :
  symmetric V_eq_dec G -> symmetric V_eq_dec (add_node V_eq_dec v G).
Proof.
  intros H x y. rewrite !edge_weight_add_node. apply H.
Qed.

Lemma symmetric_add_edge (u v : V) (c : double) (G : Graph V) :
  symmetric V_eq_dec G -> symmetric V_eq_dec (add_edge V_eq_dec u v c G).
Proof.
  intros H x y. rewrite !edge_weight_add_edge. rewrite (H x y).
  rewrite (orb_comm (eqv u x && eqv v y)).
  rewrite (andb_comm (eqv v x)), (andb_comm (eqv u x)). reflexivity.
Qed.

Lemma edge_has_node (G : Graph V) (u v : V) (c : double) :
  weight_of G u v = Some c -> is_node G u = true.
Proof.
  unfold edge_weight, has_node. destruct (get u G); [reflexivity | discriminate].
Qed.

End GraphFacts.

(** ** Walks in a symmetric graph *)

Section WalkFacts.

Variable V : Type.
Variable V_eq_dec : forall a b : V, {a = b} + {a <> b}.
Variable G : Graph V.

Local Abbreviation weight_of := (edge_weight V_eq_dec G).
Local Abbreviation is_node := (has_node V_eq_dec G).
Local Abbreviation walks := (walk V_eq_dec G).

Lemma walk_head (s t : V) (p : list V) (c : double) :
  walks s t p c -> exists p', p = s :: p'.
Proof. intro H. destruct H; eexists; reflexivity. Qed.

Lemma walk_ends_are_nodes (s t : V) (p : list V) (c : double) :
  walks s t p c -> is_node s = true /\ is_node t = true.
Proof.
  induction 1 as [v Hv | u v t p c total Hc Hw IH].
  - split; exact Hv.
  - split; [eapply edge_has_node; exact Hc | apply IH].
Qed.

Lemma path_weight_cons (u v : V) (p : list V) :
  path_weight V_eq_dec G (u :: v :: p)
  = match weight_of u v, path_weight V_eq_dec G (v :: p) with
    | Some c, Some total => Some (Double.exact_add c total)
    | _, _ => None
    end.
Proof. reflexivity. Qed.

(** The total of a walk is the one [path_weight] computes. *)
Lemma walk_path_weight (s t : V) (p : list V) (c : double) :
  walks s t p c -> path_weight V_eq_dec G p = Some c.
Proof.
  induction 1 as [v Hv | u v t p c total Hc Hw IH].
  - simpl. rewrite Hv. reflexivity.
  - destruct (walk_head Hw) as (p' & ->).
    rewrite path_weight_cons, Hc, IH. reflexivity.
Qed.

Lemma last_default (A : Type) (x : A) (l : list A) (d d' : A) :
  last (x :: l) d = last (x :: l) d'.
Proof.
  revert x. induction l as [| y l IH]; intro x; [reflexivity |].
  change (last (y :: l) d = last (y :: l) d'). apply IH.
Qed.

(** A node sequence that [path_weight] accepts is a walk from its first
    to its last node. *)
Lemma path_weight_walk (s : V) (rest : list V) (c : double) :
  path_weight V_eq_dec G (s :: rest) = Some c ->
  walks s (last rest s) (s :: rest) c.
Proof.
  revert s c. induction rest as [| v rest IH]; intros s c H.
  - cbn [path_weight] in H.
    destruct (is_node s) eqn:Hs; [| discriminate].
    injection H as <-. apply walk_stay. exact Hs.
  - rewrite path_weight_cons in H.
    destruct (weight_of s v) as [c0 |] eqn:Hc; [| discriminate].
    destruct (path_weight V_eq_dec G (v :: rest)) as [total |] eqn:Ht;
      [| discriminate].
    injection H as <-.
    replace (last (v :: rest) s) with (last rest v).
    + eapply walk_step; [exact Hc | apply IH; exact Ht].
    + destruct rest as [| x rest']; [reflexivity |].
      change (last (x :: rest') v = last (x :: rest') s). apply last_default.
Qed.

Hypothesis G_symmetric : symmetric V_eq_dec G.

(** Extending a walk by one edge at its far end. *)
Lemma walk_snoc (s t v : V) (p : list V) (total c : double) :
  walks s t p total -> weight_of t v = Some c ->
  walks s v (p ++ [v]) (Double.exact_add total c).
Proof.
  intros Hw Hc. induction Hw as [t Ht | u x t p c0 total Hc0 Hw IH].
  - rewrite DoubleFacts.exact_add_comm. cbn [app].
    eapply walk_step; [exact Hc |]. apply walk_stay.
    eapply edge_has_node. rewrite G_symmetric. exact Hc.
  - rewrite <- DoubleFacts.exact_add_assoc.
    change ((u :: p) ++ [v]) with (u :: (p ++ [v])).
    eapply walk_step; [exact Hc0 | apply IH; exact Hc].
Qed.

(** A walk read backwards is a walk of the same total weight. *)
Lemma walk_reverse (s t : V) (p : list V) (c : double) :
  walks s t p c -> walks t s (rev p) c.
Proof.
  induction 1 as [v Hv | u x t p c total Hc Hw IH].
  - apply walk_stay. exact Hv.
  - assert (Hc' : weight_of x u = Some c) by (rewrite G_symmetric; exact Hc).
    rewrite DoubleFacts.exact_add_comm. cbn [rev].
    exact (@walk_snoc _ _ _ _ _ _ IH Hc').
Qed.

(** Least-weight walks in the two directions weigh the same. *)
Lemma shortest_symmetric (a b : V) (pa pb : list V) (ca cb : double) :
  shortest V_eq_dec G a b pa ca -> shortest V_eq_dec G b a pb cb -> ca = cb.
Proof.
  intros (Hwa & Hmina) (Hwb & Hminb).
  apply DoubleFacts.leb_antisym.
  - apply (Hmina (rev pb)). apply walk_reverse. exact Hwb.
  - apply (Hminb (rev pa)). apply walk_reverse. exact Hwa.
Qed.

(** An exact search finds a least-weight walk between connected
    endpoints. *)
Lemma exact_search_finds_path
      (astar : Graph V -> V -> V -> exn + list V) (a b : V) :
  astar_exact V_eq_dec astar G -> connected V_eq_dec G a b ->
  exists p c, astar G a b = inr p /\ shortest V_eq_dec G a b p c.
Proof.
  intros (Hraise & Hpath) Hconn.
  destruct (astar G a b) as [e | p] eqn:E.
  - exfalso. destruct (Hraise a b e E) as [(_ & Hn) | (_ & Hn)].
    + destruct Hconn as (q & c & Hq).
      destruct (walk_ends_are_nodes Hq) as (Ha & Hb).
      destruct Hn; congruence.
    + exact (Hn Hconn).
  - destruct (Hpath a b p E) as (c & Hc). exists p, c. split; [reflexivity | exact Hc].
Qed.

End WalkFacts.

(** ** The merged graph is symmetric *)

Lemma fold_left_invariant (A B : Type) (P : A -> Prop) (f : A -> B -> A)
      (l : list B) (a : A) :
  (forall x b, P x -> P (f x b)) -> P a -> P (fold_left f l a).
Proof.
  intro Hf. revert a. induction l as [| b l IH]; intros a Ha; simpl;
    [exact Ha | apply IH; apply Hf; exact Ha].
Qed.

Lemma merge_graph_symmetric (fgraphs : list (floor_id * Graph coord))
      (pairs : list (gnode * gnode)) :
  symmetric gnode_eq_dec (merge_graph fgraphs pairs).
Proof.
  unfold merge_graph.
  apply fold_left_invariant; [intros; apply symmetric_add_edge; assumption |].
  apply fold_left_invariant; [| apply symmetric_empty].
  intros acc entry Hacc. unfold merge_floor.
  apply fold_left_invariant.
  - intros x [[u v] c] Hx. apply symmetric_add_edge. exact Hx.
  - apply fold_left_invariant; [| exact Hacc].
    intros; apply symmetric_add_node; assumption.
Qed.

Lemma startup_G_all (distance : coord -> coord -> double)
      (floor_gdfs : list (floor_id * GeoDataFrame)) (w : World) :
  startup distance floor_gdfs = inr w ->
  G_all w = merge_graph (floor_graphs w) (stair_pairs w).
Proof.
  unfold startup.
  destruct (get_stair_pairs distance floor_gdfs) as [e | pairs]; [discriminate |].
  intro H. injection H as <-. reflexivity.
Qed.



(** ** The sample router on a single edge *)

Section OneEdge.

Variable V : Type.
Variable V_eq_dec : forall a b : V, {a = b} + {a <> b}.
Variables a b : V.
Variable c : Qc.
Hypothesis a_not_b : a <> b.
Hypothesis c_nonneg : (0 <= c)%Qc.

Local Abbreviation G := (Sample.one_edge a b (Finite c)).
Local Abbreviation weight_of := (edge_weight V_eq_dec G).
Local Abbreviation is_node := (has_node V_eq_dec G).
Local Abbreviation walks := (walk V_eq_dec G).

Lemma one_edge_weight (s t : V) (x : double) :
  weight_of s t = Some x -> x = Finite c.
Proof.
  unfold edge_weight, Sample.one_edge, dict_get.
  destruct (V_eq_dec a s).
  - destruct (V_eq_dec b t); congruence.
  - destruct (V_eq_dec b s); [| discriminate].
    destruct (V_eq_dec a t); congruence.
Qed.

Lemma one_edge_adjacent (s t : V) :
  is_node s = true -> is_node t = true -> s <> t ->
  weight_of s t = Some (Finite c).
Proof.
  unfold has_node, edge_weight, Sample.one_edge, dict_get.
  destruct (V_eq_dec a s), (V_eq_dec a t), (V_eq_dec b s), (V_eq_dec b t);
    intros Hs Ht Hne; try reflexivity; try congruence; try discriminate;
    try (destruct (V_eq_dec a t); congruence);
    try (destruct (V_eq_dec b t); congruence).
Qed.

Lemma one_edge_total_nonneg (s t : V) (p : list V) (total : double) :
  walks s t p total -> exists x, total = Finite x /\ (0 <= x)%Qc.
Proof.
  induction 1 as [v Hv | u x t p c0 total Hc0 Hw IH].
  - exists 0. split; [reflexivity | apply Qcle_refl].
  - destruct IH as (y & -> & Hy).
    rewrite (one_edge_weight _ _ Hc0). exists (c + y). split; [reflexivity |].
    replace 0%Qc with (0 + 0)%Qc by ring.
    apply Qcplus_le_compat; assumption.
Qed.

Lemma one_edge_total_edge (s t : V) (p : list V) (total : double) :
  walks s t p total -> s <> t -> exists x, total = Finite x /\ (c <= x)%Qc.
Proof.
  intros Hw Hne.
  destruct Hw as [v Hv | u x t p c0 total Hc0 Hw]; [contradiction |].
  destruct (one_edge_total_nonneg Hw) as (y & -> & Hy).
  rewrite (one_edge_weight _ _ Hc0). exists (c + y). split; [reflexivity |].
  replace c with (c + 0)%Qc at 1 by ring.
  apply Qcplus_le_compat; [apply Qcle_refl | exact Hy].
Qed.

(** On a single edge of non-negative weight the sample router is an exact
    search. *)
Lemma direct_astar_exact :
  astar_exact V_eq_dec (Sample.direct_astar V_eq_dec) G.
Proof.
  split.
  - intros s t e. unfold Sample.direct_astar.
    destruct (is_node s) eqn:Hs.
    2:{ intro H. injection H as <-. left. split; [reflexivity | now left]. }
    destruct (is_node t) eqn:Ht.
    2:{ intro H. injection H as <-. left. split; [reflexivity | now right]. }
    cbn [andb].
    destruct (V_eq_dec s t) as [E | Hne]; [discriminate |].
    rewrite (one_edge_adjacent Hs Ht Hne). discriminate.
  - intros s t p. unfold Sample.direct_astar.
    destruct (is_node s) eqn:Hs; [| discriminate].
    destruct (is_node t) eqn:Ht; [| discriminate].
    cbn [andb].
    destruct (V_eq_dec s t) as [E | Hne].
    + subst t. intro H. injection H as <-. exists (Finite 0).
      split; [apply walk_stay; exact Hs |].
      intros q c' Hq. destruct (one_edge_total_nonneg Hq) as (x & -> & Hx).
      apply DoubleFacts.leb_finite. exact Hx.
    + rewrite (one_edge_adjacent Hs Ht Hne).
      intro H. injection H as <-.
      exists (Double.exact_add (Finite c) (Finite 0)). split.
      * eapply walk_step; [apply (one_edge_adjacent Hs Ht Hne) |].
        apply walk_stay. exact Ht.
      * intros q c' Hq.
        destruct (one_edge_total_edge Hq Hne) as (x & -> & Hx).
        rewrite DoubleFacts.exact_add_zero.
        apply DoubleFacts.leb_finite. exact Hx.
Qed.

End OneEdge.


(** ** Routing to the nearest exit *)

(** The geometric length of the program is the sum over the hops. *)
Lemma geo_length_hops (distance : coord -> coord -> double)
      (float_sum : list double -> double) (path : list gnode) :
  geo_length distance float_sum path = float_sum (hops distance path).
Proof.
  unfold geo_length. f_equal.
  induction path as [| u rest IH]; [reflexivity |].
  destruct rest as [| v rest']; [reflexivity |].
  cbn [tl combine map hops]. f_equal. exact IH.
Qed.

Lemma is_exit_room_names (r : Room) : is_exit_room r = true <-> names_exit r.
Proof. unfold is_exit_room, names_exit. apply orb_true_iff. Qed.

Lemma astar_call_found
      (astar_path : Graph gnode -> gnode -> gnode -> exn + list gnode)
      (w : World) (start_node : location) (f : floor_id) (c : coord)
      (path : list gnode) :
  astar_call astar_path w start_node (f, Some c) = inr path
  <-> found astar_path w start_node (f, c) path.
Proof.
  unfold astar_call, found. destruct start_node as [fs [cs |]]; cbn [fst snd].
  - split; [intro H; exists cs; split; [reflexivity | exact H] |].
    intros (cs' & E & H). injection E as <-. exact H.
  - split; [discriminate | intros (cs' & E & _); discriminate].
Qed.

Section Exits.

Variable distance : coord -> coord -> double.
Variable float_sum : list double -> double.
Variable astar_path : Graph gnode -> gnode -> gnode -> exn + list gnode.
Variable w : World.
Variable start_node : location.

Local Abbreviation snap r :=
  (connect_to_corridor distance (coords r) (graph_of w (floor r))).
Local Abbreviation search r enode :=
  (astar_call astar_path w start_node (floor r, Some enode)).
Local Abbreviation len path := (float_sum (hops distance path)).

Local Abbreviation reached := (reached distance float_sum astar_path w start_node).
Local Abbreviation settled := (settled distance float_sum astar_path w start_node).

(** A room is reached in one way at most. *)
Lemma reached_once (r : Room) (e e' : coord) (p p' : list gnode) (l l' : double) :
  reached r e p l -> reached r e' p' l' -> e' = e /\ p' = p /\ l' = l.
Proof.
  intros (Hs & Ha & ->) (Hs' & Ha' & ->).
  rewrite Hs in Hs'. injection Hs' as <-.
  rewrite Ha in Ha'. injection Ha' as <-. repeat split.
Qed.

Lemma settled_skip (seen : list Room) (r : Room) best best_len best_cent :
  (forall enode path l, ~ reached r enode path l) ->
  settled seen best best_len best_cent ->
  settled (seen ++ [r]) best best_len best_cent.
Proof.
  intros Hno Hs. unfold settled in *.
  destruct best as [b |].
  - destruct Hs as (Hinf & before & r0 & after & e0 & p0 & -> & Hr & Hb & Hc
                    & Hbefore & Hafter).
    split; [exact Hinf |].
    exists before, r0, (after ++ [r]), e0, p0.
    split; [rewrite <- app_assoc; reflexivity |].
    repeat (split; [assumption |]).
    intros r' e' p' l' Hin' Hr'. apply in_app_or in Hin'.
    destruct Hin' as [Hin' | [<- | []]].
    + eapply Hafter; eassumption.
    + destruct (Hno _ _ _ Hr').
  - destruct Hs as (Hinf & Hnone). split; [exact Hinf |].
    intros r' e' p' l' Hin' Hr'. apply in_app_or in Hin'.
    destruct Hin' as [Hin' | [<- | []]].
    + eapply Hnone; eassumption.
    + destruct (Hno _ _ _ Hr').
Qed.

(** The room just reached is not nearer than the best so far. *)
Lemma settled_keep (seen : list Room) (r : Room) (enode : coord)
      (path : list gnode) best best_len best_cent :
  reached r enode path (len path) ->
  Double.ltb (len path) best_len = false ->
  settled seen best best_len best_cent ->
  settled (seen ++ [r]) best best_len best_cent.
Proof.
  intros Hr Hlt Hs. unfold settled in *.
  destruct best as [b |].
  - destruct Hs as (Hinf & before & r0 & after & e0 & p0 & -> & Hr0 & Hb & Hc
                    & Hbefore & Hafter).
    split; [exact Hinf |].
    exists before, r0, (after ++ [r]), e0, p0.
    split; [rewrite <- app_assoc; reflexivity |].
    repeat (split; [assumption |]).
    intros r' e' p' l' Hin' Hr'. apply in_app_or in Hin'.
    destruct Hin' as [Hin' | [<- | []]].
    + eapply Hafter; eassumption.
    + destruct (reached_once Hr Hr') as (_ & _ & ->). exact Hlt.
  - destruct Hs as (-> & Hnone). split; [reflexivity |].
    intros r' e' p' l' Hin' Hr'. apply in_app_or in Hin'.
    destruct Hin' as [Hin' | [<- | []]].
    + eapply Hnone; eassumption.
    + destruct (reached_once Hr Hr') as (_ & _ & ->). exact Hlt.
Qed.

(** The room just reached is nearer than the best so far. *)
Lemma settled_take (seen : list Room) (r : Room) (enode : coord)
      (path : list gnode) best best_len best_cent :
  reached r enode path (len path) ->
  Double.ltb (len path) best_len = true ->
  settled seen best best_len best_cent ->
  settled (seen ++ [r]) (Some (floor r, enode)) (len path) (Some (coords r)).
Proof.
  intros Hr Hlt Hs. unfold settled in *.
  destruct best as [b |].
  - destruct Hs as (Hinf & before & r0 & after & e0 & p0 & -> & Hr0 & Hb & Hc
                    & Hbefore & Hafter).
    split; [exact (DoubleFacts.ltb_trans _ _ _ Hlt Hinf) |].
    exists (before ++ r0 :: after), r, [], enode, path.
    split; [reflexivity |]. split; [exact Hr |].
    split; [reflexivity |]. split; [reflexivity |].
    split; [| intros r' e' p' l' []].
    intros r' e' p' l' Hin' Hr'. apply in_app_or in Hin'.
    destruct Hin' as [Hin' | [<- | Hin']].
    + exact (DoubleFacts.not_leb_below _ _ _ (Hbefore _ _ _ _ Hin' Hr') Hlt).
    + destruct (reached_once Hr0 Hr') as (_ & _ & ->).
      apply DoubleFacts.ltb_not_leb. exact Hlt.
    + exact (DoubleFacts.not_ltb_below _ _ _ (Hafter _ _ _ _ Hin' Hr') Hlt).
  - destruct Hs as (-> & Hnone). split; [exact Hlt |].
    exists seen, r, [], enode, path.
    split; [reflexivity |]. split; [exact Hr |].
    split; [reflexivity |]. split; [reflexivity |].
    split; [| intros r' e' p' l' []].
    intros r' e' p' l' Hin' Hr'.
    exact (DoubleFacts.not_ltb_below _ _ _ (Hnone _ _ _ _ Hin' Hr') Hlt).
Qed.

Lemma exit_loop_settled (rest seen : list Room) best best_len best_cent :
  settled seen best best_len best_cent ->
  exists best_len',
    settled (seen ++ rest)
            (fst (exit_loop distance float_sum astar_path w start_node rest
                            best best_len best_cent))
            best_len'
            (snd (exit_loop distance float_sum astar_path w start_node rest
                            best best_len best_cent)).
Proof.
  revert seen best best_len best_cent.
  induction rest as [| r rest IH]; intros seen best best_len best_cent Hs.
  - exists best_len. rewrite app_nil_r. exact Hs.
  - replace (seen ++ r :: rest) with ((seen ++ [r]) ++ rest)
      by (rewrite <- app_assoc; reflexivity).
    cbn [exit_loop].
    destruct (snap r) as [enode |] eqn:Esnap.
    2:{ apply IH. apply settled_skip; [| exact Hs].
        intros e p l (Hsnap & _). congruence. }
    destruct (search r enode) as [e | path] eqn:Esearch.
    { apply IH. apply settled_skip; [| exact Hs].
      intros e' p l (Hsnap & Hsearch & _).
      rewrite Esnap in Hsnap. injection Hsnap as <-. congruence. }
    assert (Hr : reached r enode path (len path)).
    { split; [exact Esnap |]. split; [exact Esearch | reflexivity]. }
    rewrite geo_length_hops.
    destruct (Double.ltb (len path) best_len) eqn:Elt.
    + apply IH. eapply settled_take; eassumption.
    + apply IH. eapply settled_keep; eassumption.
Qed.

(** C7, as amended: the exit branch looks at the rooms whose type or name
    contains "exit" in any case, and skips those that do not snap or are
    not reached.  The length of a path is the sum of the distances
    between its consecutive waypoints ([float_sum] of [hops]).  The
    branch answers "no reachable exit" exactly when no such room is
    reached by a path of length below infinity; otherwise it answers with
    the path to such a room whose length is below infinity, and no
    reached exit room has a shorter path: the length of each, when it is
    a number, is at least as large. *)
Theorem nearest_exit_is_geometrically_shortest (start_centroid : option coord) :
  match route_to_nearest_exit distance float_sum astar_path w start_node
                              start_centroid with
  | NoReachableExit =>
      forall r enode path,
        In r (all_rooms w) -> names_exit r ->
        snap r = Some enode ->
        found astar_path w start_node (floor r, enode) path ->
        Double.ltb (float_sum (hops distance path)) PosInf = false
  | Route path sc ec =>
      sc = start_centroid /\
      exists r enode,
        In r (all_rooms w) /\ names_exit r /\
        snap r = Some enode /\
        found astar_path w start_node (floor r, enode) path /\
        ec = Some (coords r) /\
        Double.ltb (float_sum (hops distance path)) PosInf = true /\
        forall r' enode' path',
          In r' (all_rooms w) -> names_exit r' ->
          snap r' = Some enode' ->
          found astar_path w start_node (floor r', enode') path' ->
          Double.ltb (float_sum (hops distance path'))
                     (float_sum (hops distance path)) = false /\
          (float_sum (hops distance path') <> NaN ->
           Double.leb (float_sum (hops distance path))
                      (float_sum (hops distance path')) = true)
  | _ => False
  end.
Proof.
  unfold route_to_nearest_exit.
  destruct (@exit_loop_settled (filter is_exit_room (all_rooms w)) []
              None PosInf None) as (best_len' & Hs).
  { split; [reflexivity |]. intros r e p l []. }
  simpl app in Hs.
  destruct (exit_loop distance float_sum astar_path w start_node
              (filter is_exit_room (all_rooms w)) None PosInf None)
    as [best best_cent].
  cbn [fst snd] in Hs. unfold settled in Hs.
  destruct best as [b |].
  - destruct Hs as (Hinf & before & r & after & enode & path & E
                    & (Hsnap & Hsearch & ->) & -> & -> & Hbefore & Hafter).
    unfold route. cbn [fst snd]. rewrite Hsearch.
    assert (Hin : In r (filter is_exit_room (all_rooms w))).
    { rewrite E. apply in_or_app. right. now left. }
    apply filter_In in Hin. destruct Hin as (Hin & Hexit).
    split; [reflexivity |]. exists r, enode.
    split; [exact Hin |]. split; [apply is_exit_room_names; exact Hexit |].
    split; [exact Hsnap |]. split; [apply astar_call_found; exact Hsearch |].
    split; [reflexivity |]. split; [exact Hinf |].
    intros r' e' p' Hin' Hexit' Hsnap' Hsearch'.
    apply astar_call_found in Hsearch'.
    assert (Hr' : reached r' e' p' (len p')).
    { split; [exact Hsnap' |]. split; [exact Hsearch' | reflexivity]. }
    assert (Hlt : Double.ltb (len p') (len path) = false).
    { assert (Hf : In r' (filter is_exit_room (all_rooms w))).
      { apply filter_In. split; [exact Hin' |].
        apply is_exit_room_names. exact Hexit'. }
      rewrite E in Hf. apply in_app_or in Hf.
      destruct Hf as [Hf | [<- | Hf]].
      - destruct (Double.ltb (len p') (len path)) eqn:El; [| reflexivity].
        pose proof (Hbefore _ _ _ _ Hf Hr') as Hb.
        rewrite (DoubleFacts.ltb_leb _ _ El) in Hb. discriminate.
      - assert (Hr : reached r enode path (len path)).
        { split; [exact Hsnap |]. split; [exact Hsearch | reflexivity]. }
        destruct (reached_once Hr Hr') as (_ & -> & _).
        apply DoubleFacts.ltb_irrefl.
      - exact (Hafter _ _ _ _ Hf Hr'). }
    split; [exact Hlt |].
    intro Hnan. apply DoubleFacts.not_ltb_leb.
    + exact Hnan.
    + apply DoubleFacts.below_not_nan with PosInf. exact Hinf.
    + exact Hlt.
  - destruct Hs as (_ & Hnone).
    intros r e p Hin Hexit Hsnap Hsearch.
    apply astar_call_found in Hsearch.
    apply (Hnone r e p (len p)).
    + apply filter_In. split; [exact Hin |].
      apply is_exit_room_names. exact Hexit.
    + split; [exact Hsnap |]. split; [exact Hsearch | reflexivity].
Qed.

End Exits.

(** C7, as stated, fails: the exit at the end of a corridor that reaches
    [x = 2^700] is reached from the lobby, but the one segment of the
    path has a length that overflows to infinity, [inf < inf] is false,
    and the answer is "no reachable exit". *)
Lemma far_exit_not_taken :
  let w := Sample.world_of Sample.far_exit in
  let lobby := ("Level_1"%string, Some ((0, 0) : coord)) in
  let door := mkRoom "Level_1" "Exit" "E1" (Sample.far, 0) in
  let path := [("Level_1"%string, ((0, 0) : coord));
               ("Level_1"%string, (Sample.far, 0))] in
  find_best_match Double.euclid Sample.show Sample.no_suggestions
                  Sample.not_iterable w (JString "Lobby")
  = inr (Some lobby, Some (0, 0), ["Lobby"]) /\
  In door (all_rooms w) /\
  Text.contains "exit" (Text.lower (room_type door)) = true /\
  connect_to_corridor Double.euclid (coords door) (graph_of w (floor door))
  = Some (Sample.far, 0) /\
  Networkx.astar_path gnode_eq_dec 4096 (G_all w)
                      ("Level_1"%string, (0, 0)) ("Level_1"%string, (Sample.far, 0))
  = Some (inr path) /\
  astar_call Sample.astar w lobby (floor door, Some (Sample.far, 0)) = inr path /\
  Double.sum (hops Double.euclid path) = PosInf /\
  get_path Double.euclid Sample.show Double.sum Sample.no_suggestions
           Sample.not_iterable Sample.astar w
           (Sample.request (JString "Lobby") (JString "Exit"))
  = NoReachableExit.
Proof.
  intros w lobby door path.
  split; [vm_compute; reflexivity |].
  split; [right; right; left; reflexivity |].
  repeat split; vm_compute; reflexivity.
Qed.

(** ** Sorted duplicate-free listings *)

Lemma nonempty_iff (s : string) : Text.nonempty s = true <-> s <> "".
Proof.
  unfold Text.nonempty. destruct (String.eqb_spec s ""); split; intro H;
    try reflexivity; try discriminate; try contradiction; assumption.
Qed.

Lemma existsb_eqb_In (x : string) (xs : list string) :
  existsb (String.eqb x) xs = true <-> In x xs.
Proof.
  rewrite existsb_exists. split.
  - intros (y & Hy & E). apply String.eqb_eq in E. subst y. exact Hy.
  - intro H. exists x. split; [exact H | apply String.eqb_refl].
Qed.

Lemma dedup_In (x : string) (xs : list string) : In x (dedup xs) <-> In x xs.
Proof.
  induction xs as [| y ys IH]; simpl; [tauto |].
  destruct (existsb (String.eqb y) ys) eqn:E.
  - rewrite IH. split; [auto |]. intros [<- | H]; [| exact H].
    apply existsb_eqb_In. exact E.
  - simpl. rewrite IH. tauto.
Qed.

Lemma dedup_NoDup (xs : list string) : NoDup (dedup xs).
Proof.
  induction xs as [| y ys IH]; simpl; [constructor |].
  destruct (existsb (String.eqb y) ys) eqn:E; [exact IH |].
  constructor; [| exact IH].
  rewrite dedup_In. intro H. apply existsb_eqb_In in H. congruence.
Qed.

(** [sorted(set(xs))]: ascending, every element once, the same elements. *)
Lemma sorted_dedup_spec (xs : list string) :
  LocallySorted str_le (sorted (dedup xs)) /\
  NoDup (sorted (dedup xs)) /\
  forall x, In x (sorted (dedup xs)) <-> In x xs.
Proof.
  split; [apply sorted_sorted |]. split.
  - eapply Permutation_NoDup; [apply sorted_perm | apply dedup_NoDup].
  - intro x. split; intro H.
    + apply dedup_In. apply sorted_In. exact H.
    + apply Permutation_in with (dedup xs); [apply sorted_perm |].
      apply dedup_In. exact H.
Qed.

(** [get_rooms] lists every non-empty room type exactly once, in
    ascending code point order; rooms without a type contribute nothing. *)
Theorem get_rooms_sorted_distinct_types (w : World) :
  LocallySorted str_le (get_rooms w) /\
  NoDup (get_rooms w) /\
  forall x, In x (get_rooms w) <->
            x <> "" /\ exists r, In r (all_rooms w) /\ room_type r = x.
Proof.
  unfold get_rooms.
  destruct (sorted_dedup_spec
              (filter Text.nonempty (map room_type (all_rooms w))))
    as (Hs & Hn & Hin).
  split; [exact Hs |]. split; [exact Hn |].
  intro x. rewrite Hin, filter_In, in_map_iff, nonempty_iff.
  split.
  - intros ((r & E & Hr) & Hx). split; [exact Hx |]. exists r. auto.
  - intros (Hx & r & Hr & E). split; [| exact Hx]. exists r. auto.
Qed.

(** The suggestion pool built at start-up is ascending and duplicate-free
    and holds exactly the non-empty room names and room types. *)
Theorem match_candidates_sorted_labels
        (distance : coord -> coord -> double)
        (floor_gdfs : list (floor_id * GeoDataFrame)) (w : World) :
  startup distance floor_gdfs = inr w ->
  LocallySorted str_le (match_candidates w) /\
  NoDup (match_candidates w) /\
  forall x, In x (match_candidates w) <-> labels (all_rooms w) x.
Proof.
  unfold startup.
  destruct (get_stair_pairs distance floor_gdfs) as [e | pairs]; [discriminate |].
  intro H. injection H as <-. cbn [match_candidates all_rooms].
  set (rooms := flat_map (fun e => rooms_of_floor (fst e) (snd e)) floor_gdfs).
  destruct (sorted_dedup_spec
              (filter Text.nonempty (map room_name rooms)
               ++ filter Text.nonempty (map room_type rooms)))
    as (Hs & Hn & Hin).
  split; [exact Hs |]. split; [exact Hn |].
  intro x. rewrite Hin, in_app_iff, !filter_In, !in_map_iff, nonempty_iff.
  unfold labels. split.
  - intros [((r & E & Hr) & Hx) | ((r & E & Hr) & Hx)];
      (split; [exact Hx |]); exists r; auto.
  - intros (Hx & r & Hr & [E | E]); [left | right];
      (split; [| exact Hx]); exists r; auto.
Qed.

Lemma match_candidates_sorted_labels_witness :
  let w := Sample.world_of Sample.two_labs in
  startup Double.euclid Sample.two_labs = inr w /\
  LocallySorted str_le (match_candidates w) /\
  NoDup (match_candidates w) /\
  forall x, In x (match_candidates w) <-> labels (all_rooms w) x.
Proof.
  intro w.
  assert (H : startup Double.euclid Sample.two_labs = inr w)
    by reflexivity.
  exact (conj H (@match_candidates_sorted_labels Double.euclid
                   Sample.two_labs w H)).
Defined.

(** ** Waypoints grouped by floor *)

Lemma lookup_setdefault_append (f f' : floor_id) (node : coord)
      (d : list (floor_id * list coord)) :
  lookup f' (setdefault_append f node d)
  = if String.eqb f f'
    then Some (match lookup f d with Some ns => ns | None => [] end ++ [node])
    else lookup f' d.
Proof.
  induction d as [| [k ns] d IH]; simpl.
  - destruct (String.eqb f f'); reflexivity.
  - destruct (String.eqb k f) eqn:Ekf; simpl.
    + apply String.eqb_eq in Ekf. subst k.
      destruct (String.eqb f f'); reflexivity.
    + rewrite IH. destruct (String.eqb f f') eqn:Eff; [| reflexivity].
      apply String.eqb_eq in Eff. subst f'. rewrite Ekf. reflexivity.
Qed.

Lemma setdefault_append_keys (f : floor_id) (node : coord)
      (d : list (floor_id * list coord)) :
  NoDup (map fst d) ->
  NoDup (map fst (setdefault_append f node d)) /\
  forall k, In k (map fst (setdefault_append f node d)) <->
            k = f \/ In k (map fst d).
Proof.
  induction d as [| [k0 ns] d IH]; simpl; intro Hnd.
  - split; [constructor; [intros [] | constructor] |].
    intro k. split; [intros [<- | []]; now left | intros [-> | []]; now left].
  - inversion Hnd as [| ? ? Hnotin Hnd']; subst.
    destruct (String.eqb k0 f) eqn:E; simpl.
    + apply String.eqb_eq in E. subst k0. split; [exact Hnd |].
      intro k. split; [intros [<- | H]; auto | intros [-> | [<- | H]]; auto].
    + destruct (IH Hnd') as (IHnd & IHin). split.
      * constructor; [| exact IHnd]. rewrite IHin. intros [-> | H].
        -- rewrite String.eqb_refl in E. discriminate.
        -- contradiction.
      * intro k. rewrite IHin. tauto.
Qed.

Lemma nodes_on_snoc (f : floor_id) (seen : list gnode) (fn : gnode) :
  nodes_on f (seen ++ [fn])
  = nodes_on f seen ++ (if String.eqb (fst fn) f then [snd fn] else []).
Proof.
  unfold nodes_on. rewrite filter_app, map_app.
  destruct fn as [k n]. cbn [filter fst snd].
  destruct (String.eqb k f); reflexivity.
Qed.

Lemma group_by_floor_from (rest seen : list gnode)
      (d : list (floor_id * list coord)) :
  NoDup (map fst d) ->
  (forall f, lookup f d
             = match nodes_on f seen with [] => None | ns => Some ns end) ->
  let d' := fold_left (fun acc fn => setdefault_append (fst fn) (snd fn) acc)
                      rest d in
  NoDup (map fst d') /\
  forall f, lookup f d'
            = match nodes_on f (seen ++ rest) with [] => None | ns => Some ns end.
Proof.
  revert seen d. induction rest as [| fn rest IH]; intros seen d Hnd Hd; simpl.
  - rewrite app_nil_r. split; [exact Hnd | exact Hd].
  - replace (seen ++ fn :: rest) with ((seen ++ [fn]) ++ rest)
      by (rewrite <- app_assoc; reflexivity).
    apply IH.
    + apply setdefault_append_keys. exact Hnd.
    + intro f. rewrite lookup_setdefault_append, nodes_on_snoc.
      destruct (String.eqb (fst fn) f) eqn:E.
      * apply String.eqb_eq in E. subst f. rewrite Hd.
        destruct (nodes_on (fst fn) seen) as [| n ns]; reflexivity.
      * rewrite app_nil_r. apply Hd.
Qed.

(** The per-floor grouping used for drawing has one entry per floor that
    the path touches, and the entry of a floor holds all waypoints of that
    floor in path order, also when the path leaves the floor and comes
    back: the visits are merged into one list. *)
Theorem group_by_floor_collects (path_nodes : list gnode) :
  NoDup (map fst (group_by_floor path_nodes)) /\
  forall f,
    lookup f (group_by_floor path_nodes)
    = match nodes_on f path_nodes with [] => None | ns => Some ns end.
Proof.
  apply (@group_by_floor_from path_nodes [] []).
  - constructor.
  - intro f. reflexivity.
Qed.

(** ** [nearest_pair_list] *)

(** The distinct elements of a list that holds [b], [b] apart, are one
    fewer. *)
Lemma distinct_remove (l : list coord) (b : coord) :
  In b l ->
  distinct l
  = S (distinct (filter (fun x => if coord_eq_dec b x then false else true) l)).
Proof.
  intro Hb. unfold distinct.
  change (S (List.length
               (nodup coord_eq_dec
                  (filter (fun x => if coord_eq_dec b x then false else true) l))))
    with (List.length
            (b :: nodup coord_eq_dec
                    (filter (fun x => if coord_eq_dec b x then false else true) l))).
  apply Permutation_length. apply NoDup_Permutation.
  - apply NoDup_nodup.
  - constructor; [| apply NoDup_nodup].
    rewrite nodup_In, filter_In. intros (_ & H).
    destruct (coord_eq_dec b b); [discriminate | contradiction].
  - intro x. rewrite nodup_In. simpl. rewrite nodup_In, filter_In.
    destruct (coord_eq_dec b x) as [E | E].
    + subst x. split; [auto | intros _; exact Hb].
    + split; [intro H; right; auto | intros [H | (H & _)]; [contradiction | exact H]].
Qed.

Section NearestPairs.

Variable distance : coord -> coord -> double.

Local Abbreviation unused used := (fun b : coord => negb (in_used b used)).

Lemma in_used_In (b : coord) (used : list coord) :
  in_used b used = true <-> In b used.
Proof.
  unfold in_used. rewrite existsb_exists. split.
  - intros (u & Hu & E). destruct (coord_eq_dec u b); [subst; exact Hu | discriminate].
  - intro H. exists b. split; [exact H |].
    destruct (coord_eq_dec b b); [reflexivity | contradiction].
Qed.

Lemma best_unused_scan (a : coord) (list_b used_b : list coord)
      (best_b : option coord) (best_d : double) :
  best_unused distance a list_b used_b best_b best_d
  = scan_nearest distance a (filter (unused used_b) list_b) best_b best_d.
Proof.
  revert best_b best_d.
  induction list_b as [| b rest IH]; intros best_b best_d; simpl; [reflexivity |].
  destruct (in_used b used_b); simpl; [apply IH |].
  destruct (Double.ltb (distance a b) best_d); apply IH.
Qed.

Lemma filter_unused_ext (used used' list_b : list coord) :
  (forall b, In b used <-> In b used') ->
  filter (unused used) list_b = filter (unused used') list_b.
Proof.
  intro H. apply filter_ext. intro b. f_equal.
  destruct (in_used b used) eqn:E, (in_used b used') eqn:E'; try reflexivity.
  - apply in_used_In in E. apply H in E. apply in_used_In in E. congruence.
  - apply in_used_In in E'. apply H in E'. apply in_used_In in E'. congruence.
Qed.

Lemma filter_unused_cons (b : coord) (used l : list coord) :
  filter (unused (b :: used)) l
  = filter (fun x => if coord_eq_dec b x then false else true)
           (filter (unused used) l).
Proof.
  induction l as [| x l IH]; [reflexivity |].
  cbn [filter]. unfold in_used at 1. cbn [existsb].
  fold (in_used x used).
  destruct (coord_eq_dec b x) as [E | E]; cbn [orb negb].
  - destruct (negb (in_used x used)); cbn [filter].
    + destruct (coord_eq_dec b x); [exact IH | contradiction].
    + exact IH.
  - destruct (negb (in_used x used)); cbn [filter].
    + destruct (coord_eq_dec b x); [contradiction | f_equal; exact IH].
    + exact IH.
Qed.

(** Once no unused element is left, no further pair is made. *)
Lemma pair_loop_exhausted (list_a list_b used_b : list coord) :
  filter (unused used_b) list_b = [] ->
  pair_loop distance list_a list_b used_b = [].
Proof.
  intro H. induction list_a as [| a rest IH]; simpl; [reflexivity |].
  rewrite best_unused_scan, H. simpl. exact IH.
Qed.

Lemma pair_loop_spec (list_a list_b used_b : list coord) :
  let pairs := pair_loop distance list_a list_b used_b in
  NoDup (map snd pairs) /\
  (forall b, In b (map snd pairs) -> In b list_b /\ ~ In b used_b) /\
  (forall before a b after,
     pairs = before ++ (a, b) :: after ->
     nearest_of distance a
                (filter (unused (map snd before ++ used_b)) list_b) b).
Proof.
  revert used_b. induction list_a as [| a0 rest IH]; intro used_b; simpl.
  - split; [constructor |]. split; [intros b [] |].
    intros before a b after E. destruct before; discriminate.
  - rewrite best_unused_scan.
    pose proof (scan_nearest_spec distance a0 (filter (unused used_b) list_b))
      as Hscan.
    destruct (scan_nearest distance a0 (filter (unused used_b) list_b) None PosInf)
      as [best_b |].
    + destruct (IH (best_b :: used_b)) as (Hnd & Hin & Hnear).
      assert (Hb : In best_b list_b /\ ~ In best_b used_b).
      { pose proof (nearest_of_In Hscan) as H. apply filter_In in H.
        destruct H as (H1 & H2). split; [exact H1 |].
        intro H3. apply in_used_In in H3. rewrite H3 in H2. discriminate. }
      simpl. split.
      { constructor; [| exact Hnd]. intro H. apply Hin in H.
        destruct H as (_ & H). apply H. now left. }
      split.
      { intros b [<- | H]; [exact Hb |]. apply Hin in H.
        destruct H as (H1 & H2). split; [exact H1 |].
        intro H3. apply H2. now right. }
      intros before a b after E. destruct before as [| p before].
      * simpl in E. injection E as <- <- _. exact Hscan.
      * simpl in E. injection E as <- E.
        specialize (Hnear before a b after E).
        rewrite (filter_unused_ext _ (map snd before ++ best_b :: used_b));
          [exact Hnear |].
        intro x. simpl. rewrite !in_app_iff. simpl. tauto.
    + apply IH.
Qed.

(** [nearest_pair_list] uses every element of [list_b] at most once: the
    second components are distinct elements of [list_b], so there are at
    most as many pairs as [list_b] is long; each pair joins its point of
    [list_a] to the nearest (first on ties) element of [list_b] not taken
    by an earlier pair. *)
Theorem nearest_pair_list_exclusive (list_a list_b : list coord) :
  let pairs := nearest_pair_list distance list_a list_b in
  NoDup (map snd pairs) /\
  (List.length pairs <= List.length list_b)%nat /\
  forall before a b after,
    pairs = before ++ (a, b) :: after ->
    nearest_of distance a (filter (unused (map snd before)) list_b) b.
Proof.
  unfold nearest_pair_list.
  destruct (pair_loop_spec list_a list_b []) as (Hnd & Hin & Hnear).
  split; [exact Hnd |]. split.
  - rewrite <- (length_map snd).
    apply NoDup_incl_length; [exact Hnd |].
    intros b Hb. apply (Hin b Hb).
  - intros before a b after E. specialize (Hnear before a b after E).
    rewrite app_nil_r in Hnear. exact Hnear.
Qed.

Lemma pair_loop_prefix (list_a list_b used_b : list coord) :
  (forall a b, In a list_a -> In b list_b ->
               Double.ltb (distance a b) PosInf = true) ->
  map fst (pair_loop distance list_a list_b used_b)
  = firstn (distinct (filter (unused used_b) list_b)) list_a.
Proof.
  revert used_b. induction list_a as [| a0 rest IH]; intros used_b Hfin.
  - rewrite firstn_nil. reflexivity.
  - cbn [pair_loop]. rewrite best_unused_scan.
    pose proof (scan_nearest_spec distance a0 (filter (unused used_b) list_b))
      as Hscan.
    destruct (scan_nearest distance a0 (filter (unused used_b) list_b) None PosInf)
      as [best_b |].
    + rewrite (@distinct_remove _ best_b (nearest_of_In Hscan)).
      cbn [map fst firstn]. f_equal.
      rewrite IH by (intros a b Ha Hb; apply Hfin; [right; exact Ha | exact Hb]).
      rewrite filter_unused_cons. reflexivity.
    + assert (Hnil : filter (unused used_b) list_b = []).
      { destruct (filter (unused used_b) list_b) as [| b l] eqn:E; [reflexivity |].
        assert (Hb : In b (filter (unused used_b) list_b))
          by (rewrite E; now left).
        pose proof (Hscan b (or_introl eq_refl)) as Hf.
        apply filter_In in Hb. destruct Hb as (Hb & _).
        rewrite (Hfin a0 b (or_introl eq_refl) Hb) in Hf. discriminate. }
      rewrite Hnil. rewrite (pair_loop_exhausted rest _ _ Hnil). reflexivity.
Qed.

(** When every point of [list_a] is at a distance below infinity from
    every point of [list_b], the points of [list_a] that get a partner are
    its first [k] points, in order, where [k] is the number of distinct
    points of [list_b]: each of them uses up one point of [list_b], and
    once [list_b] is used up every later point is left without a pair. *)
Theorem nearest_pair_list_serves_prefix (list_a list_b : list coord) :
  (forall a b, In a list_a -> In b list_b ->
               Double.ltb (distance a b) PosInf = true) ->
  map fst (nearest_pair_list distance list_a list_b)
  = firstn (distinct list_b) list_a.
Proof.
  intro Hfin. unfold nearest_pair_list.
  rewrite (@pair_loop_prefix list_a list_b [] Hfin). f_equal. f_equal.
  clear Hfin. induction list_b as [| b l IH]; [reflexivity |].
  simpl. f_equal. exact IH.
Qed.

End NearestPairs.

Lemma nearest_pair_list_serves_prefix_witness :
  (forall a b,
      In a [Sample.pt 0 0; Sample.pt 5 0; Sample.pt 9 0] ->
      In b [Sample.pt 4 0; Sample.pt 4 0; Sample.pt 1 0] ->
      Double.ltb (Double.euclid a b) PosInf = true) /\
  map fst (nearest_pair_list Double.euclid
             [Sample.pt 0 0; Sample.pt 5 0; Sample.pt 9 0]
             [Sample.pt 4 0; Sample.pt 4 0; Sample.pt 1 0])
  = firstn (distinct [Sample.pt 4 0; Sample.pt 4 0; Sample.pt 1 0])
           [Sample.pt 0 0; Sample.pt 5 0; Sample.pt 9 0].
Proof.
  assert (H : forall a b,
             In a [Sample.pt 0 0; Sample.pt 5 0; Sample.pt 9 0] ->
             In b [Sample.pt 4 0; Sample.pt 4 0; Sample.pt 1 0] ->
             Double.ltb (Double.euclid a b) PosInf = true).
  { intros a b [<- | [<- | [<- | []]]] [<- | [<- | [<- | []]]];
      vm_compute; reflexivity. }
  exact (conj H (@nearest_pair_list_serves_prefix Double.euclid _ _ H)).
Defined.

(** The overflow case: the first point is too far from the only point of
    [list_b], gets no pair, and the second point is paired. *)
Example far_point_is_passed_over :
  nearest_pair_list Double.euclid [(Sample.far, 0); (0, 0)] [(0, 0)]
  = [((0, 0), (0, 0))].
Proof. vm_compute. reflexivity. Qed.

(** ** Graphs: the node set after [add_node] and [add_edge] *)

Lemma fold_left_invariant_in (A B : Type) (P : A -> Prop) (f : A -> B -> A)
      (l : list B) (a : A) :
  (forall x b, In b l -> P x -> P (f x b)) -> P a -> P (fold_left f l a).
Proof.
  revert a. induction l as [| b l IH]; intros a Hf Ha; simpl; [exact Ha |].
  apply IH.
  - intros x b' Hb' Hx. apply Hf; [right; exact Hb' | exact Hx].
  - apply Hf; [left; reflexivity | exact Ha].
Qed.

(** A fold whose steps add [Q b] to what holds: afterwards the property
    holds exactly if it held before or some step added it. *)
Lemma fold_left_grows (A B : Type) (R : A -> Prop) (Q : B -> Prop)
      (f : A -> B -> A) (l : list B) (a : A) :
  (forall x b, R (f x b) <-> R x \/ Q b) ->
  (R (fold_left f l a) <-> R a \/ exists b, In b l /\ Q b).
Proof.
  intro Hf. revert a. induction l as [| b l IH]; intro a; simpl.
  - split; [auto | intros [H | (b & [] & _)]; exact H].
  - rewrite IH, Hf. split.
    + intros [[H | H] | (b' & Hb' & H)]; eauto.
    + intros [H | (b' & [<- | Hb'] & H)]; eauto.
Qed.

Section GraphNodes.

Variable V : Type.
Variable V_eq_dec : forall a b : V, {a = b} + {a <> b}.

Local Abbreviation get := (dict_get V_eq_dec).
Local Abbreviation weight_of := (edge_weight V_eq_dec).
Local Abbreviation is_node := (has_node V_eq_dec).
Local Abbreviation eqv := (veqb V_eq_dec).

Lemma veqb_true (a b : V) : eqv a b = true <-> a = b.
Proof.
  unfold veqb. destruct (V_eq_dec a b); split; intro H;
    try reflexivity; try discriminate; try contradiction; assumption.
Qed.

Lemma dict_get_In (A : Type) (k : V) (d : list (V * A)) :
  (exists a, get k d = Some a) <-> In k (map fst d).
Proof.
  induction d as [| [k' a'] d IH]; simpl.
  - split; [intros (a & H); discriminate | intros []].
  - destruct (V_eq_dec k' k) as [E | E].
    + split; [intros _; left; exact E | intros _; exists a'; reflexivity].
    + rewrite IH. split; [auto | intros [H | H]; [contradiction | exact H]].
Qed.

Lemma has_node_In (G : Graph V) (x : V) :
  is_node G x = true <-> In x (nodes G).
Proof.
  unfold has_node, nodes. rewrite <- dict_get_In.
  destruct (get x G) as [nbrs |]; split; intro H;
    try reflexivity; try discriminate.
  - exists nbrs. reflexivity.
  - destruct H as (a & H). discriminate.
Qed.

Lemma has_node_add_edge (u v : V) (c : double) (G : Graph V) (x : V) :
  is_node (add_edge V_eq_dec u v c G) x = is_node G x || eqv u x || eqv v x.
Proof.
  unfold add_edge.
  rewrite !has_node_set_adj, !has_node_add_node. reflexivity.
Qed.

Lemma has_node_add_edge_iff (u v : V) (c : double) (G : Graph V) (x : V) :
  is_node (add_edge V_eq_dec u v c G) x = true
  <-> is_node G x = true \/ (x = u \/ x = v).
Proof.
  rewrite has_node_add_edge, !orb_true_iff, !veqb_true.
  split; [intros [[H | <-] | <-]; auto | intros [H | [-> | ->]]; auto].
Qed.

Lemma dict_set_keys (A : Type) (k : V) (a : A) (d : list (V * A)) :
  In k (map fst d) -> map fst (dict_set V_eq_dec k a d) = map fst d.
Proof.
  induction d as [| [k' a'] d IH]; simpl; [intros [] |].
  intro H. destruct (V_eq_dec k' k) as [E | E]; [reflexivity |].
  simpl. f_equal. apply IH. destruct H as [H | H]; [contradiction | exact H].
Qed.

Lemma nodes_set_adj (u v : V) (c : double) (G : Graph V) :
  nodes (set_adj V_eq_dec u v c G) = nodes G.
Proof.
  unfold set_adj, nodes.
  destruct (get u G) as [nbrs |] eqn:E; [| reflexivity].
  apply dict_set_keys. apply dict_get_In. exists nbrs. exact E.
Qed.

Lemma NoDup_add_node (v : V) (G : Graph V) :
  NoDup (nodes G) -> NoDup (nodes (add_node V_eq_dec v G)).
Proof.
  intro H. unfold add_node. destruct (is_node G v) eqn:E; [exact H |].
  unfold nodes. rewrite map_app. simpl.
  apply NoDup_app; [exact H | constructor; [intros [] | constructor] |].
  intros x Hx [<- | []]. apply has_node_In in Hx. congruence.
Qed.

Lemma well_formed_empty : well_formed V_eq_dec (@empty_graph V).
Proof. split; [constructor | apply symmetric_empty]. Qed.

Lemma well_formed_add_edge (u v : V) (c : double) (G : Graph V) :
  well_formed V_eq_dec G -> well_formed V_eq_dec (add_edge V_eq_dec u v c G).
Proof.
  intros (Hnd & Hsym). split; [| apply symmetric_add_edge; exact Hsym].
  unfold add_edge. rewrite !nodes_set_adj.
  apply NoDup_add_node. apply NoDup_add_node. exact Hnd.
Qed.

End GraphNodes.

(** ** The corridor graph of a floor *)

Section CorridorGraph.

Variable distance : coord -> coord -> double.

Local Abbreviation is_node := (has_node coord_eq_dec).
Local Abbreviation weight_of := (edge_weight coord_eq_dec).

Local Abbreviation metric := (edge_metric distance).

Lemma add_line_nodes (line : list coord) (G : Graph coord) (n : coord) :
  is_node (add_line distance line G) n = true
  <-> is_node G n = true \/ ((2 <= List.length line)%nat /\ In n line).
Proof.
  revert G. induction line as [| p1 rest IH]; intro G.
  - simpl. split; [auto | intros [H | (H & _)]; [exact H | inversion H]].
  - destruct rest as [| p2 rest'].
    + simpl. split; [auto | intros [H | (H & _)]; [exact H | simpl in H; lia]].
    + change (add_line distance (p1 :: p2 :: rest') G)
        with (add_line distance (p2 :: rest')
                (add_edge coord_eq_dec p1 p2 (distance p1 p2) G)).
      rewrite IH, has_node_add_edge_iff. split.
      * intros [[H | [-> | ->]] | (_ & H)]; auto;
          right; (split; [simpl; lia |]); simpl; auto.
      * intros [H | (_ & [<- | [<- | H]])]; auto.
        destruct rest' as [| p3 rest'']; [destruct H |].
        right. split; [simpl; lia | right; exact H].
Qed.

Lemma add_line_keeps (P : Graph coord -> Prop) (line : list coord)
      (G : Graph coord) :
  (forall u v G', P G' -> P (add_edge coord_eq_dec u v (distance u v) G')) ->
  P G -> P (add_line distance line G).
Proof.
  intro Hstep. revert G. induction line as [| p1 rest IH]; intros G HG;
    [exact HG |].
  destruct rest as [| p2 rest']; [exact HG |].
  change (add_line distance (p1 :: p2 :: rest') G)
    with (add_line distance (p2 :: rest')
            (add_edge coord_eq_dec p1 p2 (distance p1 p2) G)).
  apply IH. apply Hstep. exact HG.
Qed.

Lemma add_geometry_nodes (G : Graph coord) (row : Row) (n : coord) :
  is_node (add_geometry distance G row) n = true
  <-> is_node G n = true \/
      exists geom line, geometry row = Some geom /\ In line (boundary geom) /\
                        (2 <= List.length line)%nat /\ In n line.
Proof.
  unfold add_geometry. destruct (geometry row) as [geom |].
  - rewrite (@fold_left_grows _ _ (fun G => is_node G n = true)
               (fun line => (2 <= List.length line)%nat /\ In n line)).
    + split; [intros [H | (line & Hl & H1 & H2)] | intros [H | (g & line & E & Hl & H)]];
        auto.
      * right. exists geom, line. auto.
      * injection E as <-. right. exists line. auto.
    + intros G' line. apply add_line_nodes.
  - split; [auto | intros [H | (g & line & E & _)]; [exact H | discriminate]].
Qed.

Lemma add_geometry_keeps (P : Graph coord -> Prop) (G : Graph coord) (row : Row) :
  (forall u v G', P G' -> P (add_edge coord_eq_dec u v (distance u v) G')) ->
  P G -> P (add_geometry distance G row).
Proof.
  intros Hstep HG. unfold add_geometry. destruct (geometry row); [| exact HG].
  apply fold_left_invariant; [| exact HG].
  intros G' line HG'. apply add_line_keeps; assumption.
Qed.

Lemma build_floor_graph_keeps (P : Graph coord -> Prop) (gdf : GeoDataFrame) :
  (forall u v G', P G' -> P (add_edge coord_eq_dec u v (distance u v) G')) ->
  P empty_graph -> P (build_floor_graph distance gdf).
Proof.
  intros Hstep H0. unfold build_floor_graph.
  destruct (gdf_empty gdf || negb (has_type_column gdf)); [exact H0 |].
  apply fold_left_invariant; [| exact H0].
  intros G row HG. apply add_geometry_keeps; assumption.
Qed.

Lemma metric_add_edge (u v : coord) (G : Graph coord) :
  metric G -> metric (add_edge coord_eq_dec u v (distance u v) G).
Proof.
  intros HG x y c. rewrite edge_weight_add_edge.
  destruct (veqb coord_eq_dec u x && veqb coord_eq_dec v y) eqn:E1.
  - apply andb_prop in E1. destruct E1 as (E1 & E2).
    apply veqb_true in E1. apply veqb_true in E2. subst x y.
    simpl. intro H. injection H as <-. left. reflexivity.
  - destruct (veqb coord_eq_dec v x && veqb coord_eq_dec u y) eqn:E2.
    + apply andb_prop in E2. destruct E2 as (E2 & E3).
      apply veqb_true in E2. apply veqb_true in E3. subst x y.
      simpl. intro H. injection H as <-. right. reflexivity.
    + simpl. apply HG.
Qed.

(** The nodes of a floor's corridor graph are exactly the vertices of the
    boundary lines (of at least two vertices) of its corridor rows: no
    other row contributes a node, and no corridor vertex is lost. *)
Theorem corridor_graph_nodes (gdf : GeoDataFrame) (n : coord) :
  In n (nodes (build_floor_graph distance gdf)) <-> corridor_vertex gdf n.
Proof.
  rewrite <- has_node_In. unfold build_floor_graph, corridor_vertex.
  destruct (gdf_empty gdf || negb (has_type_column gdf)) eqn:E.
  - split; [discriminate |].
    intros (row & geom & line & Hrow & _).
    destruct gdf as [| rs]; [destruct Hrow |].
    destruct rs; [destruct Hrow | discriminate].
  - rewrite (@fold_left_grows _ _ (fun G => is_node G n = true)
               (fun row => exists geom line,
                    geometry row = Some geom /\ In line (boundary geom) /\
                    (2 <= List.length line)%nat /\ In n line)).
    + split.
      * intros [H | (row & Hrow & geom & line & H)]; [discriminate |].
        apply filter_In in Hrow. destruct Hrow as (Hrow & Hc).
        exists row, geom, line. tauto.
      * intros (row & geom & line & Hrow & Hc & H).
        right. exists row. split; [apply filter_In; auto |].
        exists geom, line. exact H.
    + intros G row. apply add_geometry_nodes.
Qed.

(** The corridor graph is a well-formed undirected graph (no node twice,
    the same weight in both directions) in which the weight of every edge
    is the distance between its two endpoints. *)
Theorem corridor_graph_metric (gdf : GeoDataFrame) :
  well_formed coord_eq_dec (build_floor_graph distance gdf) /\
  forall u v,
    match weight_of (build_floor_graph distance gdf) u v with
    | Some c => c = distance u v \/ c = distance v u
    | None => True
    end.
Proof.
  split.
  - apply build_floor_graph_keeps; [| apply well_formed_empty].
    intros u v G HG. apply well_formed_add_edge. exact HG.
  - assert (H : metric (build_floor_graph distance gdf)).
    { apply build_floor_graph_keeps; [apply metric_add_edge |].
      intros u v c H. discriminate. }
    intros u v. destruct (weight_of (build_floor_graph distance gdf) u v) eqn:E;
      [apply (H u v); exact E | exact I].
Qed.

End CorridorGraph.

(** ** Staircases of a floor *)

Section Stairs.

Variable distance : coord -> coord -> double.

Local Abbreviation is_node := (has_node coord_eq_dec).
Local Abbreviation weight_of := (edge_weight coord_eq_dec).
Local Abbreviation half := (Finite (Q2Qc (1 # 2))).

Lemma add_stair_list (rs : list Row) (st : Graph coord * list coord) :
  snd (fold_left (add_stair distance) rs st) = snd st ++ centroids rs.
Proof.
  revert st. induction rs as [| row rs IH]; intro st; simpl.
  - rewrite app_nil_r. reflexivity.
  - rewrite IH. unfold add_stair.
    destruct (geometry row) as [geom |]; simpl;
      [rewrite <- app_assoc |]; reflexivity.
Qed.

(** The staircase list of a floor holds the centroid of every staircase
    row, in row order. *)
Lemma stairs_listed (gdf : GeoDataFrame) :
  snd (floor_graph_and_stairs distance gdf) = centroids (stair_rows gdf).
Proof.
  unfold floor_graph_and_stairs, stair_rows.
  destruct (gdf_empty gdf) eqn:E.
  - unfold gdf_empty in E. destruct (rows gdf); [reflexivity | discriminate].
  - rewrite add_stair_list. reflexivity.
Qed.

Lemma connect_none_empty (point : coord) (G : Graph coord) :
  nodes G = [] -> connect_to_corridor distance point G = None.
Proof. intro H. unfold connect_to_corridor. rewrite H. reflexivity. Qed.

(** A node at a distance below infinity makes the snap succeed. *)
Lemma connect_finds (point : coord) (G : Graph coord) (n : coord) :
  In n (nodes G) -> Double.ltb (distance point n) PosInf = true ->
  exists n', connect_to_corridor distance point G = Some n'.
Proof.
  intros Hn Hlt. rewrite connect_unfold.
  pose proof (scan_nearest_spec distance point (nodes G)) as Hs.
  destruct (scan_nearest distance point (nodes G) None PosInf) as [c |].
  - exists c. reflexivity.
  - rewrite (Hs n Hn) in Hlt. discriminate.
Qed.

(** On a floor whose corridor graph has no nodes the staircases are not
    put into the graph: it stays empty, so nothing on that floor can be
    snapped or routed. *)
Theorem stairs_need_corridor_nodes (gdf : GeoDataFrame) :
  nodes (build_floor_graph distance gdf) = [] ->
  fst (floor_graph_and_stairs distance gdf) = empty_graph.
Proof.
  intro H. assert (H0 : build_floor_graph distance gdf = empty_graph).
  { destruct (build_floor_graph distance gdf); [reflexivity | discriminate]. }
  unfold floor_graph_and_stairs. rewrite H0.
  destruct (gdf_empty gdf); [reflexivity |].
  apply (@fold_left_invariant _ _
           (fun st : Graph coord * list coord => fst st = empty_graph));
    [| reflexivity].
  intros st row Hst. unfold add_stair.
  destruct (geometry row) as [geom |]; [| exact Hst].
  cbn [fst]. rewrite Hst. reflexivity.
Qed.

(** With corridor nodes on the floor, at a distance below infinity from
    the staircase centroids, every staircase centroid becomes a node of
    the floor graph and has a connector edge of weight 0.5, and the
    corridor nodes stay nodes. *)
Theorem stairs_join_corridor (gdf : GeoDataFrame) :
  nodes (build_floor_graph distance gdf) <> [] ->
  (forall c n, In c (centroids (stair_rows gdf)) ->
               In n (nodes (build_floor_graph distance gdf)) ->
               Double.ltb (distance c n) PosInf = true) ->
  let G := fst (floor_graph_and_stairs distance gdf) in
  (forall n, In n (nodes (build_floor_graph distance gdf)) -> In n (nodes G)) /\
  (forall c, In c (centroids (stair_rows gdf)) ->
     In c (nodes G) /\ exists n, weight_of G c n = Some half).
Proof.
  intros Hne Hfin G.
  destruct (nodes (build_floor_graph distance gdf)) as [| n0 others] eqn:En;
    [contradiction |].
  assert (Hn0 : is_node (build_floor_graph distance gdf) n0 = true).
  { apply (proj2 (has_node_In coord_eq_dec _ n0)). rewrite En. now left. }
  assert (Hinv :
    let st := floor_graph_and_stairs distance gdf in
    (forall n, is_node (build_floor_graph distance gdf) n = true ->
               is_node (fst st) n = true) /\
    (forall c, In c (snd st) ->
       is_node (fst st) c = true /\ exists n, weight_of (fst st) c n = Some half)).
  { unfold floor_graph_and_stairs.
    destruct (gdf_empty gdf).
    { cbn [fst snd]. split; [auto | intros c []]. }
    apply (@fold_left_invariant_in _ _
      (fun st : Graph coord * list coord =>
         (forall n, is_node (build_floor_graph distance gdf) n = true ->
                    is_node (fst st) n = true) /\
         (forall c, In c (snd st) ->
            is_node (fst st) c = true /\
            exists n, weight_of (fst st) c n = Some half))).
    - intros [G0 l] row Hrow (Hmono & Hst). unfold add_stair.
      destruct (geometry row) as [geom |] eqn:Eg; [| split; assumption].
      cbn [fst snd] in *.
      assert (Hc : In (centroid geom) (centroids (stair_rows gdf))).
      { unfold centroids. apply in_flat_map. exists row.
        split; [exact Hrow | rewrite Eg; now left]. }
      destruct (@connect_finds (centroid geom) G0 n0) as (nearest & Ec).
      { apply (proj1 (has_node_In coord_eq_dec G0 n0)). apply Hmono. exact Hn0. }
      { apply Hfin; [exact Hc | now left]. }
      rewrite Ec.
      assert (Hself : is_node (add_edge coord_eq_dec (centroid geom) nearest half G0)
                              (centroid geom) = true).
      { apply has_node_add_edge_iff. right. left. reflexivity. }
      split.
      { intros n Hn'. apply has_node_add_edge_iff. left. apply Hmono. exact Hn'. }
      intros c Hc'. apply in_app_or in Hc'. destruct Hc' as [Hc' | [<- | []]].
      + destruct (Hst c Hc') as (Hnode & n & Hw). split.
        * apply has_node_add_edge_iff. left. exact Hnode.
        * exists n. rewrite edge_weight_add_edge, Hw.
          destruct (_ || _); reflexivity.
      + split; [exact Hself |]. exists nearest.
        rewrite edge_weight_add_edge.
        replace (veqb coord_eq_dec (centroid geom) (centroid geom)) with true
          by (symmetry; apply veqb_true; reflexivity).
        replace (veqb coord_eq_dec nearest nearest) with true
          by (symmetry; apply veqb_true; reflexivity).
        reflexivity.
    - cbn [fst snd]. split; [auto | intros c []]. }
  destruct Hinv as (Hmono & Hst). fold G in Hmono, Hst. split.
  - intros n Hn. apply (proj1 (has_node_In coord_eq_dec G n)). apply Hmono.
    apply (proj2 (has_node_In coord_eq_dec _ n)). rewrite En. exact Hn.
  - intros c Hc. rewrite <- stairs_listed in Hc.
    destruct (Hst c Hc) as (Hnode & Hw). split; [| exact Hw].
    apply (proj1 (has_node_In coord_eq_dec G c)). exact Hnode.
Qed.

End Stairs.

Lemma stairs_need_corridor_nodes_witness :
  nodes (build_floor_graph Double.euclid Sample.stair_alone) = [] /\
  fst (floor_graph_and_stairs Double.euclid Sample.stair_alone)
  = empty_graph.
Proof.
  assert (H : nodes (build_floor_graph Double.euclid Sample.stair_alone)
              = []) by reflexivity.
  exact (conj H (@stairs_need_corridor_nodes Double.euclid
                   Sample.stair_alone H)).
Defined.

Lemma stairs_join_corridor_witness :
  let gdf := Sample.stair_by_corridor in
  let G := fst (floor_graph_and_stairs Double.euclid gdf) in
  nodes (build_floor_graph Double.euclid gdf) <> [] /\
  (forall c n, In c (centroids (stair_rows gdf)) ->
               In n (nodes (build_floor_graph Double.euclid gdf)) ->
               Double.ltb (Double.euclid c n) PosInf = true) /\
  (forall n, In n (nodes (build_floor_graph Double.euclid gdf)) ->
             In n (nodes G)) /\
  (forall c, In c (centroids (stair_rows gdf)) ->
     In c (nodes G) /\
     exists n, edge_weight coord_eq_dec G c n = Some (Finite (Q2Qc (1 # 2)))).
Proof.
  intros gdf G.
  assert (H : nodes (build_floor_graph Double.euclid gdf) <> [])
    by discriminate.
  assert (Hfin : forall c n, In c (centroids (stair_rows gdf)) ->
                   In n (nodes (build_floor_graph Double.euclid gdf)) ->
                   Double.ltb (Double.euclid c n) PosInf = true).
  { intros c n [<- | []] [<- | [<- | []]]; vm_compute; reflexivity. }
  exact (conj H (conj Hfin (@stairs_join_corridor Double.euclid gdf H Hfin))).
Defined.

(** The overflow case: a staircase too far from every corridor node is
    listed in [floor_stairs] but not tied to the corridor. *)
Example far_staircase_not_joined :
  let gdf := Loaded [mkRow "Staircase" "S1" (Some (Sample.spot (Sample.far, 0)));
                     mkRow "Corridor" "C1"
                           (Some (mkGeometry [[Sample.pt 0 4; Sample.pt 4 4]]
                                             (Sample.pt 2 4)))] in
  nodes (fst (floor_graph_and_stairs Double.euclid gdf))
  = [Sample.pt 0 4; Sample.pt 4 4] /\
  snd (floor_graph_and_stairs Double.euclid gdf) = [(Sample.far, 0)].
Proof. intro gdf. split; vm_compute; reflexivity. Qed.

(** ** The merged graph *)

Lemma fold_left_reaches (A B : Type) (R : A -> Prop) (Q : B -> Prop)
      (f : A -> B -> A) (l : list B) (a : A) :
  (forall x b, R x -> R (f x b)) ->
  (forall x b, Q b -> R (f x b)) ->
  (exists b, In b l /\ Q b) -> R (fold_left f l a).
Proof.
  intros Hkeep Hadd. revert a.
  induction l as [| b l IH]; intros a (b' & Hin & Hq); [destruct Hin |].
  simpl. destruct Hin as [<- | Hin].
  - apply fold_left_invariant; [exact Hkeep | apply Hadd; exact Hq].
  - apply IH. exists b'. split; assumption.
Qed.

Lemma merge_floor_keeps_node (acc : Graph gnode)
      (entry : floor_id * Graph coord) (x : gnode) :
  has_node gnode_eq_dec acc x = true ->
  has_node gnode_eq_dec (merge_floor acc entry) x = true.
Proof.
  intro H. unfold merge_floor.
  apply fold_left_invariant.
  - intros G [[u v] c] HG. apply has_node_add_edge_iff. left. exact HG.
  - apply fold_left_invariant; [| exact H].
    intros G node HG. rewrite has_node_add_node, HG. reflexivity.
Qed.

Lemma merge_floor_adds_nodes (acc : Graph gnode) (lvl : floor_id)
      (G : Graph coord) (n : coord) :
  In n (nodes G) ->
  has_node gnode_eq_dec (merge_floor acc (lvl, G)) (lvl, n) = true.
Proof.
  intro H. unfold merge_floor. cbn [fst snd].
  apply fold_left_invariant.
  - intros G' [[u v] c] HG. apply has_node_add_edge_iff. left. exact HG.
  - apply (@fold_left_reaches _ _
             (fun G' => has_node gnode_eq_dec G' (lvl, n) = true)
             (fun node => node = n)).
    + intros G' node HG. rewrite has_node_add_node, HG. reflexivity.
    + intros G' node ->. apply has_node_self.
    + exists n. split; [exact H | reflexivity].
Qed.

Lemma merge_graph_has_node (fgraphs : list (floor_id * Graph coord))
      (pairs : list (gnode * gnode)) (lvl : floor_id) (G : Graph coord)
      (n : coord) :
  In (lvl, G) fgraphs -> In n (nodes G) ->
  has_node gnode_eq_dec (merge_graph fgraphs pairs) (lvl, n) = true.
Proof.
  intros Hin Hn. unfold merge_graph.
  apply fold_left_invariant.
  - intros G' p HG. apply has_node_add_edge_iff. left. exact HG.
  - apply (@fold_left_reaches _ _
             (fun G' => has_node gnode_eq_dec G' (lvl, n) = true)
             (fun entry => entry = (lvl, G))).
    + intros G' entry HG. apply merge_floor_keeps_node. exact HG.
    + intros G' entry ->. apply merge_floor_adds_nodes. exact Hn.
    + exists (lvl, G). split; [exact Hin | reflexivity].
Qed.

(** Edges of the merged floors stay within one floor. *)
Lemma merged_floors_same_floor (fgraphs : list (floor_id * Graph coord))
      (x y : gnode) (c : double) :
  edge_weight gnode_eq_dec (fold_left merge_floor fgraphs empty_graph) x y
  = Some c ->
  fst x = fst y.
Proof.
  revert x y c.
  apply (@fold_left_invariant _ _
           (fun G => forall x y c, edge_weight gnode_eq_dec G x y = Some c ->
                                   fst x = fst y)).
  - intros G entry HG. unfold merge_floor.
    apply fold_left_invariant.
    + intros G' [[u v] c'] HG' x y c. rewrite edge_weight_add_edge.
      destruct (veqb gnode_eq_dec (fst entry, u) x
                && veqb gnode_eq_dec (fst entry, v) y) eqn:E1.
      * apply andb_prop in E1. destruct E1 as (E1 & E2).
        apply veqb_true in E1. apply veqb_true in E2. subst x y. reflexivity.
      * destruct (veqb gnode_eq_dec (fst entry, v) x
                  && veqb gnode_eq_dec (fst entry, u) y) eqn:E2.
        -- apply andb_prop in E2. destruct E2 as (E2 & E3).
           apply veqb_true in E2. apply veqb_true in E3. subst x y. reflexivity.
        -- simpl. apply HG'.
    + apply fold_left_invariant; [| exact HG].
      intros G' node HG' x y c. rewrite edge_weight_add_node. apply HG'.
  - intros x y c H. discriminate.
Qed.

(** In the merged graph an edge between two different floors always comes
    from a staircase pair and has weight 1: corridor geometry never links
    floors. *)
Theorem cross_floor_edges_are_stair_pairs
        (fgraphs : list (floor_id * Graph coord))
        (pairs : list (gnode * gnode)) (x y : gnode) (c : double) :
  edge_weight gnode_eq_dec (merge_graph fgraphs pairs) x y = Some c ->
  fst x <> fst y ->
  c = Finite 1 /\ (In (x, y) pairs \/ In (y, x) pairs).
Proof.
  unfold merge_graph. revert x y c.
  apply (@fold_left_invariant_in _ _
           (fun G => forall x y c, edge_weight gnode_eq_dec G x y = Some c ->
                      fst x <> fst y ->
                      c = Finite 1 /\ (In (x, y) pairs \/ In (y, x) pairs))).
  - intros G p Hp HG x y c. rewrite edge_weight_add_edge.
    destruct (veqb gnode_eq_dec (fst p) x && veqb gnode_eq_dec (snd p) y) eqn:E1.
    + apply andb_prop in E1. destruct E1 as (E1 & E2).
      apply veqb_true in E1. apply veqb_true in E2. subst x y.
      simpl. intros H _. injection H as <-. split; [reflexivity |].
      left. destruct p; exact Hp.
    + destruct (veqb gnode_eq_dec (snd p) x && veqb gnode_eq_dec (fst p) y) eqn:E2.
      * apply andb_prop in E2. destruct E2 as (E2 & E3).
        apply veqb_true in E2. apply veqb_true in E3. subst x y.
        simpl. intros H _. injection H as <-. split; [reflexivity |].
        right. destruct p; exact Hp.
      * simpl. apply HG.
  - intros x y c H Hne. destruct Hne.
    eapply merged_floors_same_floor. exact H.
Qed.

Lemma cross_floor_edges_are_stair_pairs_witness :
  let w := Sample.world_of Sample.two_floors in
  let x : gnode := ("Level_1", Sample.pt 1 1) in
  let y : gnode := ("Level_2", Sample.pt 1 1) in
  edge_weight gnode_eq_dec (merge_graph (floor_graphs w) (stair_pairs w)) x y
  = Some (Finite 1) /\
  fst x <> fst y /\
  Finite 1 = Finite 1 /\ (In (x, y) (stair_pairs w) \/ In (y, x) (stair_pairs w)).
Proof.
  intros w x y.
  assert (H1 : edge_weight gnode_eq_dec
                 (merge_graph (floor_graphs w) (stair_pairs w)) x y
               = Some (Finite 1))
    by (vm_compute; reflexivity).
  assert (H2 : fst x <> fst y) by discriminate.
  exact (conj H1 (conj H2
    (@cross_floor_edges_are_stair_pairs (floor_graphs w) (stair_pairs w)
       x y (Finite 1) H1 H2))).
Defined.

(** Every node of a floor graph is a node of the merged graph under its
    floor key. *)
Theorem floor_nodes_are_global_nodes
        (distance : coord -> coord -> double)
        (floor_gdfs : list (floor_id * GeoDataFrame)) (w : World)
        (lvl : floor_id) (G : Graph coord) (n : coord) :
  startup distance floor_gdfs = inr w ->
  In (lvl, G) (floor_graphs w) -> In n (nodes G) ->
  In (lvl, n) (nodes (G_all w)).
Proof.
  intros Hs Hin Hn. rewrite (startup_G_all _ _ Hs).
  apply (proj1 (has_node_In gnode_eq_dec _ (lvl, n))).
  eapply merge_graph_has_node; eassumption.
Qed.

Lemma floor_nodes_are_global_nodes_witness :
  let w := Sample.world_of Sample.corridor_line in
  let G := build_floor_graph Double.euclid
             (Loaded [mkRow "Corridor" "C1"
                        (Some (mkGeometry [[Sample.pt 0 0; Sample.pt 4 0]]
                                          (Sample.pt 2 0)))]) in
  startup Double.euclid Sample.corridor_line = inr w /\
  In ("Level_1", G) (floor_graphs w) /\ In (Sample.pt 4 0) (nodes G) /\
  In ("Level_1", Sample.pt 4 0) (nodes (G_all w)).
Proof.
  intros w G.
  assert (H1 : startup Double.euclid Sample.corridor_line = inr w)
    by reflexivity.
  assert (H2 : In ("Level_1", G) (floor_graphs w)) by (left; reflexivity).
  assert (H3 : In (Sample.pt 4 0) (nodes G)) by (right; left; reflexivity).
  exact (conj H1 (conj H2 (conj H3
    (@floor_nodes_are_global_nodes Double.euclid Sample.corridor_line
       w "Level_1" G (Sample.pt 4 0) H1 H2 H3)))).
Defined.

(** ** What the resolver returns *)

Lemma lookup_Some_In (A : Type) (k : string) (d : list (string * A)) (a : A) :
  lookup k d = Some a -> In (k, a) d.
Proof.
  induction d as [| [k' a'] d IH]; simpl; [discriminate |].
  destruct (String.eqb k' k) eqn:E.
  - apply String.eqb_eq in E. subst k'. intro H. injection H as <-. now left.
  - intro H. right. apply IH. exact H.
Qed.

Lemma connect_some_In (distance : coord -> coord -> double)
      (point : coord) (G : Graph coord) (n : coord) :
  connect_to_corridor distance point G = Some n -> In n (nodes G).
Proof.
  rewrite connect_unfold.
  pose proof (scan_nearest_spec distance point (nodes G)) as H.
  destruct (scan_nearest distance point (nodes G) None PosInf) as [c |];
    [| discriminate].
  intro E. injection E as <-. eapply nearest_of_In. exact H.
Qed.

Section Answers.

Variable distance : coord -> coord -> double.
Variable py_str : json -> string.
Variable get_close_matches : string -> list string -> list string.
Variable close_matches_other : json -> list string -> exn + list string.
Variable w : World.

Local Abbreviation find_match :=
  (find_best_match distance py_str get_close_matches close_matches_other w).
Local Abbreviation hit_room := (resolved distance w).

(** The resolver raises what [difflib] raised on a query that is no
    string, or fails, with no location and no centroid, or answers with a
    room of [all_rooms] and one to ten candidates headed by that room's
    name or type. *)
Lemma find_best_match_cases (input_str : json) :
  (exists e, find_match input_str = inl e /\
             truthy input_str = true /\ is_str input_str = false /\
             close_matches_other input_str (match_candidates w) = inl e) \/
  (exists candidates, find_match input_str = inr (None, None, candidates)) \/
  (exists r candidates,
     In r (all_rooms w) /\
     find_match input_str = inr (hit_room r candidates) /\
     (1 <= List.length candidates <= 10)%nat /\
     (hd_error candidates = Some (room_name r) \/
      hd_error candidates = Some (room_type r))).
Proof.
  destruct (truthy input_str) eqn:Hne.
  2:{ right. left. exists []. apply falsy_query_fails. exact Hne. }
  rewrite (@find_best_match_cascade distance py_str get_close_matches
             close_matches_other w input_str Hne).
  cbv zeta.
  set (q := text_of py_str input_str).
  destruct (find (guarded_test ExactName q) (all_rooms w)) as [r |] eqn:E1.
  { right. right. exists r, [room_name r]. apply find_some in E1.
    simpl. repeat split; try tauto; lia. }
  destruct (find (guarded_test ExactType q) (all_rooms w)) as [r |] eqn:E2.
  { right. right. exists r, [room_type r]. apply find_some in E2.
    simpl. repeat split; try tauto; lia. }
  destruct (filter (guarded_test NameSubstring q) (all_rooms w))
    as [| r more] eqn:E3.
  2:{ right. right.
      exists r, (map room_name (firstn 10 (r :: more))).
      assert (Hin : In r (filter (guarded_test NameSubstring q) (all_rooms w)))
        by (rewrite E3; now left).
      apply filter_In in Hin.
      change (firstn 10 (r :: more)) with (r :: firstn 9 more).
      cbn [map List.length hd_error]. rewrite length_map.
      pose proof (firstn_le_length 9 more).
      repeat split; try tauto; lia. }
  destruct (find (guarded_test AlnumName q) (all_rooms w)) as [r |] eqn:E4.
  { right. right. exists r, [room_name r]. apply find_some in E4.
    simpl. repeat split; try tauto; lia. }
  destruct (find (guarded_test TypeSubstring q) (all_rooms w)) as [r |] eqn:E5.
  { right. right. exists r, [room_type r]. apply find_some in E5.
    simpl. repeat split; try tauto; lia. }
  unfold close.
  destruct input_str as [| b | z | d | s | items | fields];
    try (destruct (close_matches_other _ (match_candidates w)) as [e | l] eqn:Ec;
         [left; exists e; repeat split; assumption
         | right; left; eexists; reflexivity]).
  right. left. eexists. reflexivity.
Qed.

(** Location and centroid come together or not at all; a location names
    the floor of a room of [all_rooms], its node is what snapping that
    room's centroid gave, and the candidate list then has between one and
    ten entries, the first being the matched room's name or type.  An
    exception is what [difflib] raised on a query that is no string. *)
Theorem find_best_match_answer_shape (input_str : json) :
  match find_match input_str with
  | inr (Some (f, node), Some c, candidates) =>
      exists r,
        In r (all_rooms w) /\ f = floor r /\ c = coords r /\
        node = connect_to_corridor distance c (graph_of w f) /\
        (1 <= List.length candidates <= 10)%nat /\
        (hd_error candidates = Some (room_name r) \/
         hd_error candidates = Some (room_type r))
  | inr (None, None, _) => True
  | inr _ => False
  | inl e =>
      truthy input_str = true /\ is_str input_str = false /\
      close_matches_other input_str (match_candidates w) = inl e
  end.
Proof.
  destruct (find_best_match_cases input_str)
    as [(e & -> & H) | [(cands & ->) | (r & cands & Hin & -> & Hlen & Hhd)]];
    [exact H | exact I |].
  unfold resolved. exists r. repeat split; try tauto; lia.
Qed.

(** Queries with the same canonical form (same text up to case and
    surrounding blanks) get the same location and centroid, and the same
    whole answer when a room is found; only the fuzzy suggestions of a
    failed query depend on the raw text. *)
Theorem find_best_match_ignores_case_and_blanks (input1 input2 : string) :
  input1 <> "" -> input2 <> "" ->
  canonical input1 = canonical input2 ->
  exists location centroid candidates1 candidates2,
    find_match (JString input1) = inr (location, centroid, candidates1) /\
    find_match (JString input2) = inr (location, centroid, candidates2) /\
    (location <> None -> candidates1 = candidates2).
Proof.
  intros H1 H2 Hc.
  rewrite (@find_best_match_cascade distance py_str get_close_matches
             close_matches_other w (JString input1) (nonempty_true H1)).
  rewrite (@find_best_match_cascade distance py_str get_close_matches
             close_matches_other w (JString input2) (nonempty_true H2)).
  cbv zeta. cbn [text_of close].
  assert (Ht : forall s, guarded_test s input1 = guarded_test s input2).
  { intro s. unfold guarded_test. rewrite Hc. reflexivity. }
  rewrite !Ht. unfold resolved.
  destruct (find (guarded_test ExactName input2) (all_rooms w));
    [do 4 eexists; repeat split; reflexivity |].
  destruct (find (guarded_test ExactType input2) (all_rooms w));
    [do 4 eexists; repeat split; reflexivity |].
  destruct (filter (guarded_test NameSubstring input2) (all_rooms w));
    [| do 4 eexists; repeat split; reflexivity].
  destruct (find (guarded_test AlnumName input2) (all_rooms w));
    [do 4 eexists; repeat split; reflexivity |].
  destruct (find (guarded_test TypeSubstring input2) (all_rooms w));
    [do 4 eexists; repeat split; reflexivity |].
  do 4 eexists. split; [reflexivity |]. split; [reflexivity |].
  intro H. destruct H. reflexivity.
Qed.

End Answers.

Lemma find_best_match_ignores_case_and_blanks_witness :
  let w := Sample.world_of Sample.two_labs in
  "  LAB 1 " <> "" /\ "lab 1" <> "" /\
  canonical "  LAB 1 " = canonical "lab 1" /\
  exists location centroid candidates1 candidates2,
    find_best_match Double.euclid Sample.show Sample.no_suggestions
                    Sample.not_iterable w (JString "  LAB 1 ")
    = inr (location, centroid, candidates1) /\
    find_best_match Double.euclid Sample.show Sample.no_suggestions
                    Sample.not_iterable w (JString "lab 1")
    = inr (location, centroid, candidates2) /\
    (location <> None -> candidates1 = candidates2).
Proof.
  intro w.
  assert (H1 : "  LAB 1 " <> "") by discriminate.
  assert (H2 : "lab 1" <> "") by discriminate.
  assert (H3 : canonical "  LAB 1 " = canonical "lab 1") by reflexivity.
  exact (conj H1 (conj H2 (conj H3
    (@find_best_match_ignores_case_and_blanks Double.euclid Sample.show
       Sample.no_suggestions Sample.not_iterable w "  LAB 1 " "lab 1"
       H1 H2 H3)))).
Defined.

(** ** Resolved nodes and the search *)

Section Handler.

Variable distance : coord -> coord -> double.
Variable py_str : json -> string.
Variable float_sum : list double -> double.
Variable get_close_matches : string -> list string -> list string.
Variable close_matches_other : json -> list string -> exn + list string.
Variable astar_path : Graph gnode -> gnode -> gnode -> exn + list gnode.

Local Abbreviation find_match :=
  (find_best_match distance py_str get_close_matches close_matches_other).
Local Abbreviation handle :=
  (get_path distance py_str float_sum get_close_matches close_matches_other
            astar_path).
Local Abbreviation handle_fields :=
  (get_path_fields distance py_str float_sum get_close_matches
                   close_matches_other astar_path).

Lemma resolved_node_in_merge
      (floor_gdfs : list (floor_id * GeoDataFrame)) (w : World)
      (input_str : json) (f : floor_id) (n : coord)
      (c : option coord) (candidates : list string) :
  startup distance floor_gdfs = inr w ->
  find_match w input_str = inr (Some (f, Some n), c, candidates) ->
  has_node gnode_eq_dec (G_all w) (f, n) = true.
Proof.
  intros Hs Hm.
  destruct (find_best_match_cases distance py_str get_close_matches
                                  close_matches_other w input_str)
    as [(e & E & _) | [(cands & E) | (r & cands & Hin & E & _)]];
    rewrite E in Hm; try discriminate.
  unfold resolved in Hm. injection Hm as <- Hn _ _.
  apply connect_some_In in Hn. unfold graph_of in Hn.
  destruct (lookup (floor r) (floor_graphs w)) as [G |] eqn:El;
    [| destruct Hn].
  rewrite (startup_G_all _ _ Hs).
  eapply merge_graph_has_node; [apply lookup_Some_In; exact El | exact Hn].
Qed.

(** A node returned by the resolver is always a node of the merged graph:
    snapping and merging agree on the node keys. *)
Theorem resolved_node_is_global_node
        (floor_gdfs : list (floor_id * GeoDataFrame)) (w : World)
        (input_str : json) (f : floor_id) (n : coord)
        (c : option coord) (candidates : list string) :
  startup distance floor_gdfs = inr w ->
  find_match w input_str = inr (Some (f, Some n), c, candidates) ->
  In (f, n) (nodes (G_all w)).
Proof.
  intros Hs Hm. apply (proj1 (has_node_In gnode_eq_dec _ (f, n))).
  eapply resolved_node_in_merge; eassumption.
Qed.

(** The exit branch ends in "no reachable exit" or a route, whatever the
    search raises. *)
Lemma exit_branch_answers (w : World) (start_node : location)
      (start_centroid : option coord) :
  match route_to_nearest_exit distance float_sum astar_path w start_node
                              start_centroid with
  | NoReachableExit | Route _ _ _ => True
  | _ => False
  end.
Proof.
  pose proof (@nearest_exit_is_geometrically_shortest distance float_sum
                astar_path w start_node start_centroid) as H.
  destruct (route_to_nearest_exit distance float_sum astar_path w start_node
                                  start_centroid); try exact I; destruct H.
Qed.

(** An exception of the resolver is what [difflib] raised on a value that
    is no string. *)
Lemma find_match_raises (w : World) (v : json) (e : exn) :
  find_match w v = inl e ->
  is_str v = false /\ close_matches_other v (match_candidates w) = inl e.
Proof.
  intro E.
  destruct (find_best_match_cases distance py_str get_close_matches
                                  close_matches_other w v)
    as [(e' & E' & _ & Hs & Hc) | [(cands & E') | (r & cands & _ & E' & _)]];
    rewrite E' in E; try discriminate.
  injection E as <-. split; assumption.
Qed.

(** When the search raises only what its documentation says, an exception
    leaves [get_path] in three ways only: [AttributeError] because the
    request body is no dict; what [difflib] raised on a start or end
    value that is no string; [NodeNotFound] because the start or the end
    query was answered with a location that has no node. *)
Theorem get_path_raises_only_for_nodeless
        (floor_gdfs : list (floor_id * GeoDataFrame)) (w : World)
        (body : json) (e : exn) :
  startup distance floor_gdfs = inr w ->
  astar_raises gnode_eq_dec astar_path (G_all w) ->
  handle w body = Uncaught e ->
  (e = AttributeError /\ truthy body = true /\
   forall data, body <> JObject data) \/
  exists data v,
    body = JObject data /\
    (v = field "start" data \/ v = field "end" data) /\
    ((is_str v = false /\
      close_matches_other v (match_candidates w) = inl e) \/
     (e = NodeNotFound /\
      exists f c candidates,
        find_match w v = inr (Some (f, None), c, candidates))).
Proof.
  intros Hs Hc. unfold get_path, request_data.
  destruct (truthy body) eqn:Hbody.
  2:{ cbn [field lookup]. unfold get_path_fields.
      rewrite falsy_query_fails by reflexivity. discriminate. }
  destruct body as [| b | z | d | s | items | data];
    try (intro H; injection H as <-; left;
         split; [reflexivity |]; split; [reflexivity |];
         intros data; discriminate).
  intro H. right. exists data.
  unfold get_path_fields in H.
  destruct (find_match w (field "start" data))
    as [es | [[[[fs ns] |] cs] cands_s]] eqn:Es.
  { injection H as <-. exists (field "start" data).
    split; [reflexivity |]. split; [now left |]. left.
    exact (find_match_raises _ _ Es). }
  2:{ discriminate. }
  destruct (asks_for_exit (field "end" data)).
  { pose proof (exit_branch_answers w (fs, ns) cs) as Hx.
    rewrite H in Hx. destruct Hx. }
  destruct (find_match w (field "end" data))
    as [et | [[[[ft nt] |] ct] cands_t]] eqn:Et.
  { injection H as <-. exists (field "end" data).
    split; [reflexivity |]. split; [now right |]. left.
    exact (find_match_raises _ _ Et). }
  2:{ discriminate. }
  unfold route, astar_call in H.
  destruct ns as [ns |].
  2:{ injection H as <-. exists (field "start" data).
      split; [reflexivity |]. split; [now left |]. right.
      split; [reflexivity |]. exists fs, cs, cands_s. exact Es. }
  destruct nt as [nt |].
  2:{ injection H as <-. exists (field "end" data).
      split; [reflexivity |]. split; [now right |]. right.
      split; [reflexivity |]. exists ft, ct, cands_t. exact Et. }
  exfalso.
  destruct (astar_path (G_all w) (fs, ns) (ft, nt)) as [ex | p] eqn:Ea;
    [| discriminate].
  destruct (Hc _ _ _ Ea) as [(-> & Hn) | (-> & _)]; [| discriminate].
  rewrite (resolved_node_in_merge _ _ Hs Es) in Hn.
  rewrite (resolved_node_in_merge _ _ Hs Et) in Hn.
  destruct Hn; discriminate.
Qed.

(** A request whose end is the string "Exit" (blanks around it allowed)
    is answered with "start not found", "no reachable exit" or a route:
    it never reports a missing end or a missing path, and whatever the
    search raises is swallowed.  The one exception that can leave the
    handler is what [difflib] raised on a start value that is no
    string. *)
Theorem get_path_exit_answers (w : World) (data : list (string * json))
        (end_in : string) :
  field "end" data = JString end_in ->
  Text.strip end_in = "Exit" ->
  match handle w (JObject data) with
  | StartNotFound _ | NoReachableExit | Route _ _ _ => True
  | Uncaught e =>
      is_str (field "start" data) = false /\
      close_matches_other (field "start" data) (match_candidates w) = inl e
  | _ => False
  end.
Proof.
  intros Hend He.
  assert (Hdata : request_data (JObject data) = inr data).
  { unfold request_data. destruct data; reflexivity. }
  unfold get_path. rewrite Hdata. unfold get_path_fields.
  destruct (find_match w (field "start" data))
    as [es | [[[start_node |] cs] cands_s]] eqn:Es.
  - exact (find_match_raises _ _ Es).
  - rewrite Hend. cbn [asks_for_exit]. rewrite He.
    cbn [String.eqb Ascii.eqb Bool.eqb].
    pose proof (exit_branch_answers w start_node cs) as Hx.
    destruct (route_to_nearest_exit distance float_sum astar_path w start_node cs);
      try exact I; destruct Hx.
  - exact I.
Qed.

End Handler.

Lemma resolved_node_is_global_node_witness :
  let w := Sample.world_of Sample.corridor_line in
  startup Double.euclid Sample.corridor_line = inr w /\
  find_best_match Double.euclid Sample.show Sample.no_suggestions
                  Sample.not_iterable w (JString "c1")
  = inr (Some ("Level_1", Some (Sample.pt 0 0)), Some (Sample.pt 2 0), ["C1"]) /\
  In ("Level_1", Sample.pt 0 0) (nodes (G_all w)).
Proof.
  intro w.
  assert (H1 : startup Double.euclid Sample.corridor_line = inr w)
    by reflexivity.
  assert (H2 : find_best_match Double.euclid Sample.show Sample.no_suggestions
                               Sample.not_iterable w (JString "c1")
               = inr (Some ("Level_1", Some (Sample.pt 0 0)),
                      Some (Sample.pt 2 0), ["C1"]))
    by (vm_compute; reflexivity).
  exact (conj H1 (conj H2
    (@resolved_node_is_global_node Double.euclid Sample.show
       Sample.no_suggestions Sample.not_iterable
       Sample.corridor_line w (JString "c1") "Level_1" (Sample.pt 0 0)
       (Some (Sample.pt 2 0)) ["C1"] H1 H2))).
Defined.

Lemma get_path_raises_only_for_nodeless_witness :
  let w := Sample.world_of Sample.office_only in
  let astar := Sample.direct_astar gnode_eq_dec in
  let body := Sample.request (JInt 5) (JString "101") in
  startup Double.euclid Sample.office_only = inr w /\
  astar_raises gnode_eq_dec astar (G_all w) /\
  get_path Double.euclid Sample.show Double.sum Sample.no_suggestions
           Sample.not_iterable astar w body
  = Uncaught TypeError /\
  ((TypeError = AttributeError /\ truthy body = true /\
    forall data, body <> JObject data) \/
   exists data v,
     body = JObject data /\
     (v = field "start" data \/ v = field "end" data) /\
     ((is_str v = false /\
       Sample.not_iterable v (match_candidates w) = inl TypeError) \/
      (TypeError = NodeNotFound /\
       exists f c candidates,
         find_best_match Double.euclid Sample.show Sample.no_suggestions
                         Sample.not_iterable w v
         = inr (Some (f, None), c, candidates)))).
Proof.
  intros w astar body.
  assert (H1 : startup Double.euclid Sample.office_only = inr w)
    by reflexivity.
  assert (H2 : astar_raises gnode_eq_dec astar (G_all w)).
  { intros s t e E. left. vm_compute in E. injection E as <-.
    split; [reflexivity | left; reflexivity]. }
  assert (H3 : get_path Double.euclid Sample.show Double.sum
                        Sample.no_suggestions Sample.not_iterable astar w body
               = Uncaught TypeError)
    by (vm_compute; reflexivity).
  exact (conj H1 (conj H2 (conj H3
    (@get_path_raises_only_for_nodeless Double.euclid Sample.show Double.sum
       Sample.no_suggestions Sample.not_iterable astar Sample.office_only w
       body TypeError H1 H2 H3)))).
Defined.

(** The three ways evaluated on the floor without corridor: a body that
    is a list, a numeric start, and the node-less match of "101". *)
Example escaping_exceptions :
  let w := Sample.world_of Sample.office_only in
  let handle := get_path Double.euclid Sample.show Double.sum
                         Sample.no_suggestions Sample.not_iterable Sample.astar w in
  handle (JArray [JString "101"]) = Uncaught AttributeError /\
  handle (Sample.request (JInt 5) (JString "Exit")) = Uncaught TypeError /\
  handle (Sample.request (JString "101") (JString "101")) = Uncaught NodeNotFound /\
  handle JNull = StartNotFound [] /\
  handle (Sample.request JNull (JString "101")) = StartNotFound [].
Proof. intros w handle. repeat split; vm_compute; reflexivity. Qed.

Lemma get_path_exit_answers_witness :
  let w := Sample.world_of Sample.office_only in
  let data := [("start", JString "101"); ("end", JString " Exit ")] in
  field "end" data = JString " Exit " /\
  Text.strip " Exit " = "Exit" /\
  match get_path Double.euclid Sample.show Double.sum Sample.no_suggestions
                 Sample.not_iterable (Sample.direct_astar gnode_eq_dec) w
                 (JObject data) with
  | StartNotFound _ | NoReachableExit | Route _ _ _ => True
  | Uncaught e =>
      is_str (field "start" data) = false /\
      Sample.not_iterable (field "start" data) (match_candidates w) = inl e
  | _ => False
  end.
Proof.
  intros w data.
  assert (H0 : field "end" data = JString " Exit ") by reflexivity.
  assert (H : Text.strip " Exit " = "Exit") by reflexivity.
  exact (conj H0 (conj H
    (@get_path_exit_answers Double.euclid Sample.show Double.sum
       Sample.no_suggestions Sample.not_iterable
       (Sample.direct_astar gnode_eq_dec) w data " Exit " H0 H))).
Defined.

(** ** Start-up: staircase lists, pairs and the missing-file error *)

Lemma lookup_map_values (A B : Type) (g : A -> B) (k : string)
      (d : list (string * A)) :
  lookup k (map (fun e => (fst e, g (snd e))) d)
  = match lookup k d with Some a => Some (g a) | None => None end.
Proof.
  induction d as [| [k' a] d IH]; simpl; [reflexivity |].
  destruct (String.eqb k' k); [reflexivity | exact IH].
Qed.

Section StartUp.

Variable distance : coord -> coord -> double.

(** [floor_stairs] gives, for every floor, the centroids of all its
    staircase rows in row order, whether or not a staircase could be tied
    to a corridor node. *)
Theorem floor_stairs_all_centroids
        (floor_gdfs : list (floor_id * GeoDataFrame)) (w : World) :
  startup distance floor_gdfs = inr w ->
  floor_stairs w
  = map (fun e => (fst e, centroids (stair_rows (snd e)))) floor_gdfs.
Proof.
  unfold startup.
  destruct (get_stair_pairs distance floor_gdfs) as [e | pairs]; [discriminate |].
  intro H. injection H as <-. cbn [floor_stairs].
  rewrite map_map. apply map_ext. intros [lvl gdf]. cbn [fst snd].
  rewrite stairs_listed. reflexivity.
Qed.

Lemma link_levels_error (floor_gdfs : list (floor_id * GeoDataFrame))
      (levels : list floor_id) :
  (forall lvl, In lvl levels -> exists gdf, lookup lvl floor_gdfs = Some gdf) ->
  match link_levels distance floor_gdfs levels with
  | inl e =>
      e = KeyError /\ (2 <= List.length levels)%nat /\
      exists lvl, In lvl levels /\ lookup lvl floor_gdfs = Some NoData
  | inr _ =>
      (List.length levels < 2)%nat \/
      forall lvl, In lvl levels -> lookup lvl floor_gdfs <> Some NoData
  end.
Proof.
  induction levels as [| a rest IH]; intro Hkeys; [left; simpl; lia |].
  destruct rest as [| b rest']; [left; simpl; lia |].
  rewrite link_levels_eq.
  destruct (Hkeys a (or_introl eq_refl)) as (gdf_a & Ha).
  destruct (Hkeys b (or_intror (or_introl eq_refl))) as (gdf_b & Hb).
  rewrite Ha, Hb.
  destruct gdf_a as [| rs_a]; cbn [staircases].
  { split; [reflexivity |]. split; [simpl; lia |].
    exists a. split; [now left | exact Ha]. }
  destruct gdf_b as [| rs_b].
  { split; [reflexivity |]. split; [simpl; lia |].
    exists b. split; [right; now left | exact Hb]. }
  assert (IH' := IH (fun lvl Hl => Hkeys lvl (or_intror Hl))).
  destruct (link_levels distance floor_gdfs (b :: rest')) as [e | more].
  - destruct IH' as (-> & _ & lvl & Hl & Hn).
    split; [reflexivity |]. split; [simpl; lia |].
    exists lvl. split; [right; exact Hl | exact Hn].
  - right. intros lvl [<- | Hl].
    + rewrite Ha. discriminate.
    + destruct IH' as [Hlen | Hall]; [| apply Hall; exact Hl].
      destruct rest' as [| c rest'']; [| simpl in Hlen; lia].
      destruct Hl as [<- | []]. rewrite Hb. discriminate.
Qed.

(** [get_stair_pairs] raises exactly when there are at least two floors
    and the frame of one of them is the column-less empty frame left for a
    missing or unreadable file; the exception is [KeyError].  With a
    single floor a missing file is tolerated. *)
Theorem stair_pairs_key_error (floor_gdfs : list (floor_id * GeoDataFrame)) :
  match get_stair_pairs distance floor_gdfs with
  | inl e =>
      e = KeyError /\ (2 <= List.length floor_gdfs)%nat /\
      exists lvl, lookup lvl floor_gdfs = Some NoData
  | inr _ =>
      (List.length floor_gdfs < 2)%nat \/
      forall lvl, lookup lvl floor_gdfs <> Some NoData
  end.
Proof.
  unfold get_stair_pairs.
  assert (Hlen : List.length (sorted (map fst floor_gdfs))
                 = List.length floor_gdfs).
  { rewrite <- (Permutation_length (sorted_perm (map fst floor_gdfs))).
    apply length_map. }
  pose proof (@link_levels_error floor_gdfs (sorted (map fst floor_gdfs))) as H.
  destruct (link_levels distance floor_gdfs (sorted (map fst floor_gdfs)))
    as [e | pairs].
  - destruct H as (-> & Hl & lvl & _ & Hn).
    { intros lvl Hl. apply sorted_In in Hl.
      destruct (lookup_in_keys _ _ Hl) as (gdf & Hg & _). exists gdf. exact Hg. }
    split; [reflexivity |].
    split; [unfold floor_id in *; rewrite <- Hlen; exact Hl |].
    exists lvl. exact Hn.
  - destruct H as [H | H].
    { intros lvl Hl. apply sorted_In in Hl.
      destruct (lookup_in_keys _ _ Hl) as (gdf & Hg & _). exists gdf. exact Hg. }
    + left. unfold floor_id in *. rewrite <- Hlen. exact H.
    + right. intros lvl Hn. apply (H lvl); [| exact Hn].
      apply Permutation_in with (map fst floor_gdfs); [apply sorted_perm |].
      apply lookup_Some_In in Hn.
      change lvl with (fst (lvl, NoData)). apply in_map. exact Hn.
Qed.

Lemma sorted_neighbours (levels before after : list string) (a b : string) :
  LocallySorted str_le levels -> levels = before ++ a :: b :: after ->
  str_le a b.
Proof.
  revert levels. induction before as [| x before IH]; intros levels Hs E.
  - subst levels. inversion Hs; assumption.
  - subst levels. apply (IH (before ++ a :: b :: after)); [| reflexivity].
    simpl in Hs. remember (before ++ a :: b :: after) as l eqn:El.
    destruct l as [| y l]; [destruct before; discriminate |].
    inversion Hs; assumption.
Qed.

(** With distinct floor identifiers every staircase pair goes from a
    floor to a different floor that comes later in code point order: the
    first component is the lower level. *)
Theorem stair_pairs_go_up
        (floor_gdfs : list (floor_id * GeoDataFrame))
        (pairs : list (gnode * gnode)) (a b : floor_id) (ca cb : coord) :
  NoDup (map fst floor_gdfs) ->
  get_stair_pairs distance floor_gdfs = inr pairs ->
  In ((a, ca), (b, cb)) pairs ->
  a <> b /\ str_le a b.
Proof.
  intros Hnd Hp Hin.
  destruct (@link_levels_sound distance floor_gdfs _ pairs Hp a ca b cb Hin)
    as ((before & after & E) & _).
  split.
  - assert (Hnd' : NoDup (sorted (map fst floor_gdfs))).
    { eapply Permutation_NoDup; [apply sorted_perm | exact Hnd]. }
    rewrite E in Hnd'. apply NoDup_remove_2 in Hnd'.
    intros ->. apply Hnd'. apply in_or_app. right. now left.
  - eapply sorted_neighbours; [apply sorted_sorted | exact E].
Qed.

(** Both ends of a staircase pair are staircase centroids recorded in
    [floor_stairs] for their floors. *)
Theorem linked_stairs_are_listed
        (floor_gdfs : list (floor_id * GeoDataFrame)) (w : World)
        (a b : floor_id) (ca cb : coord) :
  startup distance floor_gdfs = inr w ->
  In ((a, ca), (b, cb)) (stair_pairs w) ->
  (exists la, lookup a (floor_stairs w) = Some la /\ In ca la) /\
  (exists lb, lookup b (floor_stairs w) = Some lb /\ In cb lb).
Proof.
  unfold startup.
  destruct (get_stair_pairs distance floor_gdfs) as [e | pairs] eqn:Hp;
    [discriminate |].
  intro H. injection H as <-. cbn [stair_pairs floor_stairs]. intro Hin.
  destruct (@link_levels_sound distance floor_gdfs _ pairs Hp a ca b cb Hin)
    as (_ & gdf_a & gdf_b & row_a & geom_a & row_b & geom_b
        & Ha & Hb & Hra & Hga & Hca & Hrb & Hgb & Hcb & _).
  rewrite map_map. cbn [fst snd].
  rewrite !(lookup_map_values
              (fun gdf => snd (floor_graph_and_stairs distance gdf))).
  rewrite Ha, Hb, !stairs_listed.
  assert (Hc : forall rs row geom, In row rs -> geometry row = Some geom ->
                 In (centroid geom) (centroids rs)).
  { intros rs row geom Hr Hg. unfold centroids. apply in_flat_map.
    exists row. split; [exact Hr |]. rewrite Hg. now left. }
  split; eexists; (split; [reflexivity |]).
  - rewrite <- Hca. eapply Hc; eassumption.
  - rewrite <- Hcb. eapply Hc; eassumption.
Qed.

End StartUp.

Lemma floor_stairs_all_centroids_witness :
  let w := Sample.world_of Sample.two_floors in
  startup Double.euclid Sample.two_floors = inr w /\
  floor_stairs w
  = map (fun e => (fst e, centroids (stair_rows (snd e)))) Sample.two_floors.
Proof.
  intro w.
  assert (H : startup Double.euclid Sample.two_floors = inr w)
    by reflexivity.
  exact (conj H (@floor_stairs_all_centroids Double.euclid
                   Sample.two_floors w H)).
Defined.

Lemma stair_pairs_go_up_witness :
  let pairs := [(("Level_1", Sample.pt 1 1), ("Level_2", Sample.pt 1 1))] in
  NoDup (map fst Sample.two_floors) /\
  get_stair_pairs Double.euclid Sample.two_floors = inr pairs /\
  In (("Level_1", Sample.pt 1 1), ("Level_2", Sample.pt 1 1)) pairs /\
  "Level_1" <> "Level_2" /\ str_le "Level_1" "Level_2".
Proof.
  intro pairs.
  assert (H1 : NoDup (map fst Sample.two_floors)).
  { constructor; [intros [H | []]; discriminate |].
    constructor; [intros [] | constructor]. }
  assert (H2 : get_stair_pairs Double.euclid Sample.two_floors = inr pairs)
    by (vm_compute; reflexivity).
  assert (H3 : In (("Level_1", Sample.pt 1 1), ("Level_2", Sample.pt 1 1)) pairs)
    by (left; reflexivity).
  exact (conj H1 (conj H2 (conj H3
    (@stair_pairs_go_up Double.euclid Sample.two_floors pairs
       "Level_1" "Level_2" (Sample.pt 1 1) (Sample.pt 1 1) H1 H2 H3)))).
Defined.

Lemma linked_stairs_are_listed_witness :
  let w := Sample.world_of Sample.two_floors in
  startup Double.euclid Sample.two_floors = inr w /\
  In (("Level_1", Sample.pt 1 1), ("Level_2", Sample.pt 1 1)) (stair_pairs w) /\
  (exists la, lookup "Level_1" (floor_stairs w) = Some la /\ In (Sample.pt 1 1) la) /\
  (exists lb, lookup "Level_2" (floor_stairs w) = Some lb /\ In (Sample.pt 1 1) lb).
Proof.
  intro w.
  assert (H1 : startup Double.euclid Sample.two_floors = inr w)
    by reflexivity.
  assert (H2 : In (("Level_1", Sample.pt 1 1), ("Level_2", Sample.pt 1 1))
                  (stair_pairs w)) by (left; reflexivity).
  exact (conj H1 (conj H2
    (@linked_stairs_are_listed Double.euclid Sample.two_floors w
       "Level_1" "Level_2" (Sample.pt 1 1) (Sample.pt 1 1) H1 H2))).
Defined.

(** ** Trimmed room labels *)

Module TextFacts.

Import Text.

Lemma append_nil_r (s : string) : String.append s "" = s.
Proof. induction s as [| c s IH]; simpl; [reflexivity | rewrite IH; reflexivity]. Qed.

Lemma rev_append_rev_append (s a b : string) :
  rev_append (rev_append s a) b = rev_append a (String.append s b).
Proof.
  revert a b. induction s as [| c s IH]; intros a b; simpl; [reflexivity |].
  rewrite IH. reflexivity.
Qed.

Lemma reverse_involutive (s : string) : reverse (reverse s) = s.
Proof.
  unfold reverse. rewrite rev_append_rev_append. simpl. apply append_nil_r.
Qed.

Lemma rev_append_app (x y acc : string) :
  rev_append (String.append x y) acc = rev_append y (rev_append x acc).
Proof.
  revert acc. induction x as [| c x IH]; intro acc; simpl; [reflexivity |].
  apply IH.
Qed.

Lemma rev_append_push (s a b : string) :
  rev_append s (String.append a b) = String.append (rev_append s a) b.
Proof.
  revert a. induction s as [| c s IH]; intro a; simpl; [reflexivity |].
  apply (IH (String c a)).
Qed.

Lemma rev_append_as_app (s acc : string) :
  rev_append s acc = String.append (reverse s) acc.
Proof. apply (rev_append_push s "" acc). Qed.

Lemma lstrip_clean (s : string) : clean_head (lstrip s) = true.
Proof.
  induction s as [| c s IH]; simpl; [reflexivity |].
  destruct (isspace c) eqn:E; [exact IH | simpl; rewrite E; reflexivity].
Qed.

Lemma lstrip_fixed (s : string) : clean_head s = true -> lstrip s = s.
Proof.
  destruct s as [| c s]; simpl; [reflexivity |].
  destruct (isspace c); [discriminate | reflexivity].
Qed.

Lemma lstrip_before_clean (x : string) (c : ascii) :
  isspace c = false ->
  lstrip (String.append x (String c "")) = String.append (lstrip x) (String c "").
Proof.
  intro Hc. induction x as [| d x IH]; simpl.
  - rewrite Hc. reflexivity.
  - destruct (isspace d); [exact IH | reflexivity].
Qed.

Lemma rstrip_keeps_clean_head (s : string) :
  clean_head s = true -> clean_head (rstrip s) = true.
Proof.
  destruct s as [| c s]; [reflexivity |]. simpl. intro Hc.
  apply negb_true_iff in Hc.
  unfold rstrip, reverse at 2. simpl.
  rewrite rev_append_as_app, (@lstrip_before_clean _ c Hc).
  unfold reverse. rewrite rev_append_app. simpl. rewrite Hc. reflexivity.
Qed.

Lemma rstrip_idempotent (s : string) : rstrip (rstrip s) = rstrip s.
Proof.
  unfold rstrip. rewrite reverse_involutive.
  rewrite (@lstrip_fixed _ (lstrip_clean (reverse s))). reflexivity.
Qed.

Lemma strip_idempotent (s : string) : strip (strip s) = strip s.
Proof.
  unfold strip.
  rewrite (@lstrip_fixed _ (@rstrip_keeps_clean_head _ (lstrip_clean s))).
  apply rstrip_idempotent.
Qed.

End TextFacts.

(** The names and types stored in [all_rooms] carry no blanks at either
    end: trimming them again, as the matching loops do, changes
    nothing. *)
Theorem room_labels_are_trimmed
        (distance : coord -> coord -> double)
        (floor_gdfs : list (floor_id * GeoDataFrame)) (w : World) (r : Room) :
  startup distance floor_gdfs = inr w ->
  In r (all_rooms w) ->
  Text.strip (room_name r) = room_name r /\
  Text.strip (room_type r) = room_type r.
Proof.
  unfold startup.
  destruct (get_stair_pairs distance floor_gdfs) as [e | pairs]; [discriminate |].
  intro H. injection H as <-. cbn [all_rooms]. intro Hin.
  apply in_flat_map in Hin. destruct Hin as (entry & _ & Hr).
  unfold rooms_of_floor in Hr.
  destruct (gdf_empty (snd entry)); [destruct Hr |].
  apply in_flat_map in Hr. destruct Hr as (row & _ & Hr).
  destruct (geometry row); [| destruct Hr].
  destruct Hr as [<- | []]. cbn [room_name room_type].
  split; apply TextFacts.strip_idempotent.
Qed.

Lemma room_labels_are_trimmed_witness :
  let w := Sample.world_of Sample.two_labs in
  let r := mkRoom "Level_1" "Lab" "Lab 1" (Sample.pt 5 1) in
  startup Double.euclid Sample.two_labs = inr w /\
  In r (all_rooms w) /\
  Text.strip (room_name r) = room_name r /\
  Text.strip (room_type r) = room_type r.
Proof.
  intros w r.
  assert (H1 : startup Double.euclid Sample.two_labs = inr w)
    by reflexivity.
  assert (H2 : In r (all_rooms w)) by (right; left; reflexivity).
  exact (conj H1 (conj H2
    (@room_labels_are_trimmed Double.euclid Sample.two_labs w r H1 H2))).
Defined.

Lemma well_formed_add_node (V : Type)
      (V_eq_dec : forall a b : V, {a = b} + {a <> b}) (v : V) (G : Graph V) :
  well_formed V_eq_dec G -> well_formed V_eq_dec (add_node V_eq_dec v G).
Proof.
  intros (Hnd & Hsym).
  split; [apply NoDup_add_node; exact Hnd | apply symmetric_add_node; exact Hsym].
Qed.

(** The merged graph is a well-formed undirected graph: no node key
    occurs twice, however many floors and staircase pairs mention it, and
    every edge has the same weight in both directions. *)
Theorem merged_graph_well_formed
        (fgraphs : list (floor_id * Graph coord))
        (pairs : list (gnode * gnode)) :
  well_formed gnode_eq_dec (merge_graph fgraphs pairs).
Proof.
  unfold merge_graph.
  apply fold_left_invariant; [intros; apply well_formed_add_edge; assumption |].
  apply fold_left_invariant; [| apply well_formed_empty].
  intros acc entry Hacc. unfold merge_floor.
  apply fold_left_invariant.
  - intros G [[u v] c] HG. apply well_formed_add_edge. exact HG.
  - apply fold_left_invariant; [| exact Hacc].
    intros; apply well_formed_add_node; assumption.
Qed.
